(** * TelegramCoinBot: subscription store, report lines and notification timers

    A shallow embedding of [bot.py].  The relational store, the logging
    module, the quote provider, the job queue of the messaging SDK and the
    outgoing message gateway are the fields of one [world] record; every
    Python function of the bot is a state transformer [M A] over it.

    Modelling decisions, each stated where it is used:
    - text is UTF-8; [upper] is the upper-case mapping of Unicode and
      [py_int] reads the decimal digits of every script; [lower] is used
      only to compare a word with [on] and [off] and follows Python on
      ASCII text; command arguments hold no whitespace (the dispatcher
      splits the message on it);
    - Python floats are IEEE 754 binary64 numbers, here [spec_float] with
      precision 53 and exponent bound 1024;
    - a storage failure is an entry of the oracle [db_faults], consumed by
      each SQL statement the bot issues;
    - the ranges of the store's integer columns are not modelled: a value
      out of the range of its column is a failure of the statement, an
      entry of [db_faults]; [timedelta] is checked on the minutes that a
      command carries and taken to accept the minutes that the store
      holds. *)

From Stdlib Require Import ZArith String Ascii List Decimal DecimalString DecimalPos.
From Stdlib Require Import SpecFloat Permutation Sorted.
From stdpp Require Import base option gmap sets list strings sorting.

Open Scope string_scope.
Open Scope Z_scope.

(** ** Python text primitives *)

Module PyText.

(** A byte of ASCII text. *)
Definition is_ascii (c : ascii) : bool := (N_of_ascii c <? 128)%N.

(** [str.upper] on an ASCII character. *)
Definition upper_char (c : ascii) : ascii :=
  let n := N_of_ascii c in
  if ((97 <=? n) && (n <=? 122))%N then ascii_of_N (n - 32) else c.

(** The characters outside ASCII that [str.upper] changes, each with what
    it becomes: the full upper-case mapping of the Unicode character
    database (version 14.0, as in CPython 3.11), which [str.upper] applies
    to one character at a time. *)
Definition upper_table : list (string * string) :=
  [
    ("µ", "Μ"); ("ß", "SS"); ("à", "À"); ("á", "Á"); ("â", "Â"); ("ã", "Ã"); ("ä", "Ä"); ("å", "Å");
    ("æ", "Æ"); ("ç", "Ç"); ("è", "È"); ("é", "É"); ("ê", "Ê"); ("ë", "Ë"); ("ì", "Ì"); ("í", "Í");
    ("î", "Î"); ("ï", "Ï"); ("ð", "Ð"); ("ñ", "Ñ"); ("ò", "Ò"); ("ó", "Ó"); ("ô", "Ô"); ("õ", "Õ");
    ("ö", "Ö"); ("ø", "Ø"); ("ù", "Ù"); ("ú", "Ú"); ("û", "Û"); ("ü", "Ü"); ("ý", "Ý"); ("þ", "Þ");
    ("ÿ", "Ÿ"); ("ā", "Ā"); ("ă", "Ă"); ("ą", "Ą"); ("ć", "Ć"); ("ĉ", "Ĉ"); ("ċ", "Ċ"); ("č", "Č");
    ("ď", "Ď"); ("đ", "Đ"); ("ē", "Ē"); ("ĕ", "Ĕ"); ("ė", "Ė"); ("ę", "Ę"); ("ě", "Ě"); ("ĝ", "Ĝ");
    ("ğ", "Ğ"); ("ġ", "Ġ"); ("ģ", "Ģ"); ("ĥ", "Ĥ"); ("ħ", "Ħ"); ("ĩ", "Ĩ"); ("ī", "Ī"); ("ĭ", "Ĭ");
    ("į", "Į"); ("ı", "I"); ("ĳ", "Ĳ"); ("ĵ", "Ĵ"); ("ķ", "Ķ"); ("ĺ", "Ĺ"); ("ļ", "Ļ"); ("ľ", "Ľ");
    ("ŀ", "Ŀ"); ("ł", "Ł"); ("ń", "Ń"); ("ņ", "Ņ"); ("ň", "Ň"); ("ŉ", "ʼN"); ("ŋ", "Ŋ"); ("ō", "Ō");
    ("ŏ", "Ŏ"); ("ő", "Ő"); ("œ", "Œ"); ("ŕ", "Ŕ"); ("ŗ", "Ŗ"); ("ř", "Ř"); ("ś", "Ś"); ("ŝ", "Ŝ");
    ("ş", "Ş"); ("š", "Š"); ("ţ", "Ţ"); ("ť", "Ť"); ("ŧ", "Ŧ"); ("ũ", "Ũ"); ("ū", "Ū"); ("ŭ", "Ŭ");
    ("ů", "Ů"); ("ű", "Ű"); ("ų", "Ų"); ("ŵ", "Ŵ"); ("ŷ", "Ŷ"); ("ź", "Ź"); ("ż", "Ż"); ("ž", "Ž");
    ("ſ", "S"); ("ƀ", "Ƀ"); ("ƃ", "Ƃ"); ("ƅ", "Ƅ"); ("ƈ", "Ƈ"); ("ƌ", "Ƌ"); ("ƒ", "Ƒ"); ("ƕ", "Ƕ");
    ("ƙ", "Ƙ"); ("ƚ", "Ƚ"); ("ƞ", "Ƞ"); ("ơ", "Ơ"); ("ƣ", "Ƣ"); ("ƥ", "Ƥ"); ("ƨ", "Ƨ"); ("ƭ", "Ƭ");
    ("ư", "Ư"); ("ƴ", "Ƴ"); ("ƶ", "Ƶ"); ("ƹ", "Ƹ"); ("ƽ", "Ƽ"); ("ƿ", "Ƿ"); ("ǅ", "Ǆ"); ("ǆ", "Ǆ");
    ("ǈ", "Ǉ"); ("ǉ", "Ǉ"); ("ǋ", "Ǌ"); ("ǌ", "Ǌ"); ("ǎ", "Ǎ"); ("ǐ", "Ǐ"); ("ǒ", "Ǒ"); ("ǔ", "Ǔ");
    ("ǖ", "Ǖ"); ("ǘ", "Ǘ"); ("ǚ", "Ǚ"); ("ǜ", "Ǜ"); ("ǝ", "Ǝ"); ("ǟ", "Ǟ"); ("ǡ", "Ǡ"); ("ǣ", "Ǣ");
    ("ǥ", "Ǥ"); ("ǧ", "Ǧ"); ("ǩ", "Ǩ"); ("ǫ", "Ǫ"); ("ǭ", "Ǭ"); ("ǯ", "Ǯ"); ("ǰ", "J̌"); ("ǲ", "Ǳ");
    ("ǳ", "Ǳ"); ("ǵ", "Ǵ"); ("ǹ", "Ǹ"); ("ǻ", "Ǻ"); ("ǽ", "Ǽ"); ("ǿ", "Ǿ"); ("ȁ", "Ȁ"); ("ȃ", "Ȃ");
    ("ȅ", "Ȅ"); ("ȇ", "Ȇ"); ("ȉ", "Ȉ"); ("ȋ", "Ȋ"); ("ȍ", "Ȍ"); ("ȏ", "Ȏ"); ("ȑ", "Ȑ"); ("ȓ", "Ȓ");
    ("ȕ", "Ȕ"); ("ȗ", "Ȗ"); ("ș", "Ș"); ("ț", "Ț"); ("ȝ", "Ȝ"); ("ȟ", "Ȟ"); ("ȣ", "Ȣ"); ("ȥ", "Ȥ");
    ("ȧ", "Ȧ"); ("ȩ", "Ȩ"); ("ȫ", "Ȫ"); ("ȭ", "Ȭ"); ("ȯ", "Ȯ"); ("ȱ", "Ȱ"); ("ȳ", "Ȳ"); ("ȼ", "Ȼ");
    ("ȿ", "Ȿ"); ("ɀ", "Ɀ"); ("ɂ", "Ɂ"); ("ɇ", "Ɇ"); ("ɉ", "Ɉ"); ("ɋ", "Ɋ"); ("ɍ", "Ɍ"); ("ɏ", "Ɏ");
    ("ɐ", "Ɐ"); ("ɑ", "Ɑ"); ("ɒ", "Ɒ"); ("ɓ", "Ɓ"); ("ɔ", "Ɔ"); ("ɖ", "Ɖ"); ("ɗ", "Ɗ"); ("ə", "Ə");
    ("ɛ", "Ɛ"); ("ɜ", "Ɜ"); ("ɠ", "Ɠ"); ("ɡ", "Ɡ"); ("ɣ", "Ɣ"); ("ɥ", "Ɥ"); ("ɦ", "Ɦ"); ("ɨ", "Ɨ");
    ("ɩ", "Ɩ"); ("ɪ", "Ɪ"); ("ɫ", "Ɫ"); ("ɬ", "Ɬ"); ("ɯ", "Ɯ"); ("ɱ", "Ɱ"); ("ɲ", "Ɲ"); ("ɵ", "Ɵ");
    ("ɽ", "Ɽ"); ("ʀ", "Ʀ"); ("ʂ", "Ʂ"); ("ʃ", "Ʃ"); ("ʇ", "Ʇ"); ("ʈ", "Ʈ"); ("ʉ", "Ʉ"); ("ʊ", "Ʊ");
    ("ʋ", "Ʋ"); ("ʌ", "Ʌ"); ("ʒ", "Ʒ"); ("ʝ", "Ʝ"); ("ʞ", "Ʞ"); ("ͅ", "Ι"); ("ͱ", "Ͱ"); ("ͳ", "Ͳ");
    ("ͷ", "Ͷ"); ("ͻ", "Ͻ"); ("ͼ", "Ͼ"); ("ͽ", "Ͽ"); ("ΐ", "Ϊ́"); ("ά", "Ά"); ("έ", "Έ"); ("ή", "Ή");
    ("ί", "Ί"); ("ΰ", "Ϋ́"); ("α", "Α"); ("β", "Β"); ("γ", "Γ"); ("δ", "Δ"); ("ε", "Ε"); ("ζ", "Ζ");
    ("η", "Η"); ("θ", "Θ"); ("ι", "Ι"); ("κ", "Κ"); ("λ", "Λ"); ("μ", "Μ"); ("ν", "Ν"); ("ξ", "Ξ");
    ("ο", "Ο"); ("π", "Π"); ("ρ", "Ρ"); ("ς", "Σ"); ("σ", "Σ"); ("τ", "Τ"); ("υ", "Υ"); ("φ", "Φ");
    ("χ", "Χ"); ("ψ", "Ψ"); ("ω", "Ω"); ("ϊ", "Ϊ"); ("ϋ", "Ϋ"); ("ό", "Ό"); ("ύ", "Ύ"); ("ώ", "Ώ");
    ("ϐ", "Β"); ("ϑ", "Θ"); ("ϕ", "Φ"); ("ϖ", "Π"); ("ϗ", "Ϗ"); ("ϙ", "Ϙ"); ("ϛ", "Ϛ"); ("ϝ", "Ϝ");
    ("ϟ", "Ϟ"); ("ϡ", "Ϡ"); ("ϣ", "Ϣ"); ("ϥ", "Ϥ"); ("ϧ", "Ϧ"); ("ϩ", "Ϩ"); ("ϫ", "Ϫ"); ("ϭ", "Ϭ");
    ("ϯ", "Ϯ"); ("ϰ", "Κ"); ("ϱ", "Ρ"); ("ϲ", "Ϲ"); ("ϳ", "Ϳ"); ("ϵ", "Ε"); ("ϸ", "Ϸ"); ("ϻ", "Ϻ");
    ("а", "А"); ("б", "Б"); ("в", "В"); ("г", "Г"); ("д", "Д"); ("е", "Е"); ("ж", "Ж"); ("з", "З");
    ("и", "И"); ("й", "Й"); ("к", "К"); ("л", "Л"); ("м", "М"); ("н", "Н"); ("о", "О"); ("п", "П");
    ("р", "Р"); ("с", "С"); ("т", "Т"); ("у", "У"); ("ф", "Ф"); ("х", "Х"); ("ц", "Ц"); ("ч", "Ч");
    ("ш", "Ш"); ("щ", "Щ"); ("ъ", "Ъ"); ("ы", "Ы"); ("ь", "Ь"); ("э", "Э"); ("ю", "Ю"); ("я", "Я");
    ("ѐ", "Ѐ"); ("ё", "Ё"); ("ђ", "Ђ"); ("ѓ", "Ѓ"); ("є", "Є"); ("ѕ", "Ѕ"); ("і", "І"); ("ї", "Ї");
    ("ј", "Ј"); ("љ", "Љ"); ("њ", "Њ"); ("ћ", "Ћ"); ("ќ", "Ќ"); ("ѝ", "Ѝ"); ("ў", "Ў"); ("џ", "Џ");
    ("ѡ", "Ѡ"); ("ѣ", "Ѣ"); ("ѥ", "Ѥ"); ("ѧ", "Ѧ"); ("ѩ", "Ѩ"); ("ѫ", "Ѫ"); ("ѭ", "Ѭ"); ("ѯ", "Ѯ");
    ("ѱ", "Ѱ"); ("ѳ", "Ѳ"); ("ѵ", "Ѵ"); ("ѷ", "Ѷ"); ("ѹ", "Ѹ"); ("ѻ", "Ѻ"); ("ѽ", "Ѽ"); ("ѿ", "Ѿ");
    ("ҁ", "Ҁ"); ("ҋ", "Ҋ"); ("ҍ", "Ҍ"); ("ҏ", "Ҏ"); ("ґ", "Ґ"); ("ғ", "Ғ"); ("ҕ", "Ҕ"); ("җ", "Җ");
    ("ҙ", "Ҙ"); ("қ", "Қ"); ("ҝ", "Ҝ"); ("ҟ", "Ҟ"); ("ҡ", "Ҡ"); ("ң", "Ң"); ("ҥ", "Ҥ"); ("ҧ", "Ҧ");
    ("ҩ", "Ҩ"); ("ҫ", "Ҫ"); ("ҭ", "Ҭ"); ("ү", "Ү"); ("ұ", "Ұ"); ("ҳ", "Ҳ"); ("ҵ", "Ҵ"); ("ҷ", "Ҷ");
    ("ҹ", "Ҹ"); ("һ", "Һ"); ("ҽ", "Ҽ"); ("ҿ", "Ҿ"); ("ӂ", "Ӂ"); ("ӄ", "Ӄ"); ("ӆ", "Ӆ"); ("ӈ", "Ӈ");
    ("ӊ", "Ӊ"); ("ӌ", "Ӌ"); ("ӎ", "Ӎ"); ("ӏ", "Ӏ"); ("ӑ", "Ӑ"); ("ӓ", "Ӓ"); ("ӕ", "Ӕ"); ("ӗ", "Ӗ");
    ("ә", "Ә"); ("ӛ", "Ӛ"); ("ӝ", "Ӝ"); ("ӟ", "Ӟ"); ("ӡ", "Ӡ"); ("ӣ", "Ӣ"); ("ӥ", "Ӥ"); ("ӧ", "Ӧ");
    ("ө", "Ө"); ("ӫ", "Ӫ"); ("ӭ", "Ӭ"); ("ӯ", "Ӯ"); ("ӱ", "Ӱ"); ("ӳ", "Ӳ"); ("ӵ", "Ӵ"); ("ӷ", "Ӷ");
    ("ӹ", "Ӹ"); ("ӻ", "Ӻ"); ("ӽ", "Ӽ"); ("ӿ", "Ӿ"); ("ԁ", "Ԁ"); ("ԃ", "Ԃ"); ("ԅ", "Ԅ"); ("ԇ", "Ԇ");
    ("ԉ", "Ԉ"); ("ԋ", "Ԋ"); ("ԍ", "Ԍ"); ("ԏ", "Ԏ"); ("ԑ", "Ԑ"); ("ԓ", "Ԓ"); ("ԕ", "Ԕ"); ("ԗ", "Ԗ");
    ("ԙ", "Ԙ"); ("ԛ", "Ԛ"); ("ԝ", "Ԝ"); ("ԟ", "Ԟ"); ("ԡ", "Ԡ"); ("ԣ", "Ԣ"); ("ԥ", "Ԥ"); ("ԧ", "Ԧ");
    ("ԩ", "Ԩ"); ("ԫ", "Ԫ"); ("ԭ", "Ԭ"); ("ԯ", "Ԯ"); ("ա", "Ա"); ("բ", "Բ"); ("գ", "Գ"); ("դ", "Դ");
    ("ե", "Ե"); ("զ", "Զ"); ("է", "Է"); ("ը", "Ը"); ("թ", "Թ"); ("ժ", "Ժ"); ("ի", "Ի"); ("լ", "Լ");
    ("խ", "Խ"); ("ծ", "Ծ"); ("կ", "Կ"); ("հ", "Հ"); ("ձ", "Ձ"); ("ղ", "Ղ"); ("ճ", "Ճ"); ("մ", "Մ");
    ("յ", "Յ"); ("ն", "Ն"); ("շ", "Շ"); ("ո", "Ո"); ("չ", "Չ"); ("պ", "Պ"); ("ջ", "Ջ"); ("ռ", "Ռ");
    ("ս", "Ս"); ("վ", "Վ"); ("տ", "Տ"); ("ր", "Ր"); ("ց", "Ց"); ("ւ", "Ւ"); ("փ", "Փ"); ("ք", "Ք");
    ("օ", "Օ"); ("ֆ", "Ֆ"); ("և", "ԵՒ"); ("ა", "Ა"); ("ბ", "Ბ"); ("გ", "Გ"); ("დ", "Დ"); ("ე", "Ე");
    ("ვ", "Ვ"); ("ზ", "Ზ"); ("თ", "Თ"); ("ი", "Ი"); ("კ", "Კ"); ("ლ", "Ლ"); ("მ", "Მ"); ("ნ", "Ნ");
    ("ო", "Ო"); ("პ", "Პ"); ("ჟ", "Ჟ"); ("რ", "Რ"); ("ს", "Ს"); ("ტ", "Ტ"); ("უ", "Უ"); ("ფ", "Ფ");
    ("ქ", "Ქ"); ("ღ", "Ღ"); ("ყ", "Ყ"); ("შ", "Შ"); ("ჩ", "Ჩ"); ("ც", "Ც"); ("ძ", "Ძ"); ("წ", "Წ");
    ("ჭ", "Ჭ"); ("ხ", "Ხ"); ("ჯ", "Ჯ"); ("ჰ", "Ჰ"); ("ჱ", "Ჱ"); ("ჲ", "Ჲ"); ("ჳ", "Ჳ"); ("ჴ", "Ჴ");
    ("ჵ", "Ჵ"); ("ჶ", "Ჶ"); ("ჷ", "Ჷ"); ("ჸ", "Ჸ"); ("ჹ", "Ჹ"); ("ჺ", "Ჺ"); ("ჽ", "Ჽ"); ("ჾ", "Ჾ");
    ("ჿ", "Ჿ"); ("ᏸ", "Ᏸ"); ("ᏹ", "Ᏹ"); ("ᏺ", "Ᏺ"); ("ᏻ", "Ᏻ"); ("ᏼ", "Ᏼ"); ("ᏽ", "Ᏽ"); ("ᲀ", "В");
    ("ᲁ", "Д"); ("ᲂ", "О"); ("ᲃ", "С"); ("ᲄ", "Т"); ("ᲅ", "Т"); ("ᲆ", "Ъ"); ("ᲇ", "Ѣ"); ("ᲈ", "Ꙋ");
    ("ᵹ", "Ᵹ"); ("ᵽ", "Ᵽ"); ("ᶎ", "Ᶎ"); ("ḁ", "Ḁ"); ("ḃ", "Ḃ"); ("ḅ", "Ḅ"); ("ḇ", "Ḇ"); ("ḉ", "Ḉ");
    ("ḋ", "Ḋ"); ("ḍ", "Ḍ"); ("ḏ", "Ḏ"); ("ḑ", "Ḑ"); ("ḓ", "Ḓ"); ("ḕ", "Ḕ"); ("ḗ", "Ḗ"); ("ḙ", "Ḙ");
    ("ḛ", "Ḛ"); ("ḝ", "Ḝ"); ("ḟ", "Ḟ"); ("ḡ", "Ḡ"); ("ḣ", "Ḣ"); ("ḥ", "Ḥ"); ("ḧ", "Ḧ"); ("ḩ", "Ḩ");
    ("ḫ", "Ḫ"); ("ḭ", "Ḭ"); ("ḯ", "Ḯ"); ("ḱ", "Ḱ"); ("ḳ", "Ḳ"); ("ḵ", "Ḵ"); ("ḷ", "Ḷ"); ("ḹ", "Ḹ");
    ("ḻ", "Ḻ"); ("ḽ", "Ḽ"); ("ḿ", "Ḿ"); ("ṁ", "Ṁ"); ("ṃ", "Ṃ"); ("ṅ", "Ṅ"); ("ṇ", "Ṇ"); ("ṉ", "Ṉ");
    ("ṋ", "Ṋ"); ("ṍ", "Ṍ"); ("ṏ", "Ṏ"); ("ṑ", "Ṑ"); ("ṓ", "Ṓ"); ("ṕ", "Ṕ"); ("ṗ", "Ṗ"); ("ṙ", "Ṙ");
    ("ṛ", "Ṛ"); ("ṝ", "Ṝ"); ("ṟ", "Ṟ"); ("ṡ", "Ṡ"); ("ṣ", "Ṣ"); ("ṥ", "Ṥ"); ("ṧ", "Ṧ"); ("ṩ", "Ṩ");
    ("ṫ", "Ṫ"); ("ṭ", "Ṭ"); ("ṯ", "Ṯ"); ("ṱ", "Ṱ"); ("ṳ", "Ṳ"); ("ṵ", "Ṵ"); ("ṷ", "Ṷ"); ("ṹ", "Ṹ");
    ("ṻ", "Ṻ"); ("ṽ", "Ṽ"); ("ṿ", "Ṿ"); ("ẁ", "Ẁ"); ("ẃ", "Ẃ"); ("ẅ", "Ẅ"); ("ẇ", "Ẇ"); ("ẉ", "Ẉ");
    ("ẋ", "Ẋ"); ("ẍ", "Ẍ"); ("ẏ", "Ẏ"); ("ẑ", "Ẑ"); ("ẓ", "Ẓ"); ("ẕ", "Ẕ"); ("ẖ", "H̱"); ("ẗ", "T̈");
    ("ẘ", "W̊"); ("ẙ", "Y̊"); ("ẚ", "Aʾ"); ("ẛ", "Ṡ"); ("ạ", "Ạ"); ("ả", "Ả"); ("ấ", "Ấ"); ("ầ", "Ầ");
    ("ẩ", "Ẩ"); ("ẫ", "Ẫ"); ("ậ", "Ậ"); ("ắ", "Ắ"); ("ằ", "Ằ"); ("ẳ", "Ẳ"); ("ẵ", "Ẵ"); ("ặ", "Ặ");
    ("ẹ", "Ẹ"); ("ẻ", "Ẻ"); ("ẽ", "Ẽ"); ("ế", "Ế"); ("ề", "Ề"); ("ể", "Ể"); ("ễ", "Ễ"); ("ệ", "Ệ");
    ("ỉ", "Ỉ"); ("ị", "Ị"); ("ọ", "Ọ"); ("ỏ", "Ỏ"); ("ố", "Ố"); ("ồ", "Ồ"); ("ổ", "Ổ"); ("ỗ", "Ỗ");
    ("ộ", "Ộ"); ("ớ", "Ớ"); ("ờ", "Ờ"); ("ở", "Ở"); ("ỡ", "Ỡ"); ("ợ", "Ợ"); ("ụ", "Ụ"); ("ủ", "Ủ");
    ("ứ", "Ứ"); ("ừ", "Ừ"); ("ử", "Ử"); ("ữ", "Ữ"); ("ự", "Ự"); ("ỳ", "Ỳ"); ("ỵ", "Ỵ"); ("ỷ", "Ỷ");
    ("ỹ", "Ỹ"); ("ỻ", "Ỻ"); ("ỽ", "Ỽ"); ("ỿ", "Ỿ"); ("ἀ", "Ἀ"); ("ἁ", "Ἁ"); ("ἂ", "Ἂ"); ("ἃ", "Ἃ");
    ("ἄ", "Ἄ"); ("ἅ", "Ἅ"); ("ἆ", "Ἆ"); ("ἇ", "Ἇ"); ("ἐ", "Ἐ"); ("ἑ", "Ἑ"); ("ἒ", "Ἒ"); ("ἓ", "Ἓ");
    ("ἔ", "Ἔ"); ("ἕ", "Ἕ"); ("ἠ", "Ἠ"); ("ἡ", "Ἡ"); ("ἢ", "Ἢ"); ("ἣ", "Ἣ"); ("ἤ", "Ἤ"); ("ἥ", "Ἥ");
    ("ἦ", "Ἦ"); ("ἧ", "Ἧ"); ("ἰ", "Ἰ"); ("ἱ", "Ἱ"); ("ἲ", "Ἲ"); ("ἳ", "Ἳ"); ("ἴ", "Ἴ"); ("ἵ", "Ἵ");
    ("ἶ", "Ἶ"); ("ἷ", "Ἷ"); ("ὀ", "Ὀ"); ("ὁ", "Ὁ"); ("ὂ", "Ὂ"); ("ὃ", "Ὃ"); ("ὄ", "Ὄ"); ("ὅ", "Ὅ");
    ("ὐ", "Υ̓"); ("ὑ", "Ὑ"); ("ὒ", "Υ̓̀"); ("ὓ", "Ὓ"); ("ὔ", "Υ̓́"); ("ὕ", "Ὕ"); ("ὖ", "Υ̓͂"); ("ὗ", "Ὗ");
    ("ὠ", "Ὠ"); ("ὡ", "Ὡ"); ("ὢ", "Ὢ"); ("ὣ", "Ὣ"); ("ὤ", "Ὤ"); ("ὥ", "Ὥ"); ("ὦ", "Ὦ"); ("ὧ", "Ὧ");
    ("ὰ", "Ὰ"); ("ά", "Ά"); ("ὲ", "Ὲ"); ("έ", "Έ"); ("ὴ", "Ὴ"); ("ή", "Ή"); ("ὶ", "Ὶ"); ("ί", "Ί");
    ("ὸ", "Ὸ"); ("ό", "Ό"); ("ὺ", "Ὺ"); ("ύ", "Ύ"); ("ὼ", "Ὼ"); ("ώ", "Ώ"); ("ᾀ", "ἈΙ"); ("ᾁ", "ἉΙ");
    ("ᾂ", "ἊΙ"); ("ᾃ", "ἋΙ"); ("ᾄ", "ἌΙ"); ("ᾅ", "ἍΙ"); ("ᾆ", "ἎΙ"); ("ᾇ", "ἏΙ"); ("ᾈ", "ἈΙ"); ("ᾉ", "ἉΙ");
    ("ᾊ", "ἊΙ"); ("ᾋ", "ἋΙ"); ("ᾌ", "ἌΙ"); ("ᾍ", "ἍΙ"); ("ᾎ", "ἎΙ"); ("ᾏ", "ἏΙ"); ("ᾐ", "ἨΙ"); ("ᾑ", "ἩΙ");
    ("ᾒ", "ἪΙ"); ("ᾓ", "ἫΙ"); ("ᾔ", "ἬΙ"); ("ᾕ", "ἭΙ"); ("ᾖ", "ἮΙ"); ("ᾗ", "ἯΙ"); ("ᾘ", "ἨΙ"); ("ᾙ", "ἩΙ");
    ("ᾚ", "ἪΙ"); ("ᾛ", "ἫΙ"); ("ᾜ", "ἬΙ"); ("ᾝ", "ἭΙ"); ("ᾞ", "ἮΙ"); ("ᾟ", "ἯΙ"); ("ᾠ", "ὨΙ"); ("ᾡ", "ὩΙ");
    ("ᾢ", "ὪΙ"); ("ᾣ", "ὫΙ"); ("ᾤ", "ὬΙ"); ("ᾥ", "ὭΙ"); ("ᾦ", "ὮΙ"); ("ᾧ", "ὯΙ"); ("ᾨ", "ὨΙ"); ("ᾩ", "ὩΙ");
    ("ᾪ", "ὪΙ"); ("ᾫ", "ὫΙ"); ("ᾬ", "ὬΙ"); ("ᾭ", "ὭΙ"); ("ᾮ", "ὮΙ"); ("ᾯ", "ὯΙ"); ("ᾰ", "Ᾰ"); ("ᾱ", "Ᾱ");
    ("ᾲ", "ᾺΙ"); ("ᾳ", "ΑΙ"); ("ᾴ", "ΆΙ"); ("ᾶ", "Α͂"); ("ᾷ", "Α͂Ι"); ("ᾼ", "ΑΙ"); ("ι", "Ι"); ("ῂ", "ῊΙ");
    ("ῃ", "ΗΙ"); ("ῄ", "ΉΙ"); ("ῆ", "Η͂"); ("ῇ", "Η͂Ι"); ("ῌ", "ΗΙ"); ("ῐ", "Ῐ"); ("ῑ", "Ῑ"); ("ῒ", "Ϊ̀");
    ("ΐ", "Ϊ́"); ("ῖ", "Ι͂"); ("ῗ", "Ϊ͂"); ("ῠ", "Ῠ"); ("ῡ", "Ῡ"); ("ῢ", "Ϋ̀"); ("ΰ", "Ϋ́"); ("ῤ", "Ρ̓");
    ("ῥ", "Ῥ"); ("ῦ", "Υ͂"); ("ῧ", "Ϋ͂"); ("ῲ", "ῺΙ"); ("ῳ", "ΩΙ"); ("ῴ", "ΏΙ"); ("ῶ", "Ω͂"); ("ῷ", "Ω͂Ι");
    ("ῼ", "ΩΙ"); ("ⅎ", "Ⅎ"); ("ⅰ", "Ⅰ"); ("ⅱ", "Ⅱ"); ("ⅲ", "Ⅲ"); ("ⅳ", "Ⅳ"); ("ⅴ", "Ⅴ"); ("ⅵ", "Ⅵ");
    ("ⅶ", "Ⅶ"); ("ⅷ", "Ⅷ"); ("ⅸ", "Ⅸ"); ("ⅹ", "Ⅹ"); ("ⅺ", "Ⅺ"); ("ⅻ", "Ⅻ"); ("ⅼ", "Ⅼ"); ("ⅽ", "Ⅽ");
    ("ⅾ", "Ⅾ"); ("ⅿ", "Ⅿ"); ("ↄ", "Ↄ"); ("ⓐ", "Ⓐ"); ("ⓑ", "Ⓑ"); ("ⓒ", "Ⓒ"); ("ⓓ", "Ⓓ"); ("ⓔ", "Ⓔ");
    ("ⓕ", "Ⓕ"); ("ⓖ", "Ⓖ"); ("ⓗ", "Ⓗ"); ("ⓘ", "Ⓘ"); ("ⓙ", "Ⓙ"); ("ⓚ", "Ⓚ"); ("ⓛ", "Ⓛ"); ("ⓜ", "Ⓜ");
    ("ⓝ", "Ⓝ"); ("ⓞ", "Ⓞ"); ("ⓟ", "Ⓟ"); ("ⓠ", "Ⓠ"); ("ⓡ", "Ⓡ"); ("ⓢ", "Ⓢ"); ("ⓣ", "Ⓣ"); ("ⓤ", "Ⓤ");
    ("ⓥ", "Ⓥ"); ("ⓦ", "Ⓦ"); ("ⓧ", "Ⓧ"); ("ⓨ", "Ⓨ"); ("ⓩ", "Ⓩ"); ("ⰰ", "Ⰰ"); ("ⰱ", "Ⰱ"); ("ⰲ", "Ⰲ");
    ("ⰳ", "Ⰳ"); ("ⰴ", "Ⰴ"); ("ⰵ", "Ⰵ"); ("ⰶ", "Ⰶ"); ("ⰷ", "Ⰷ"); ("ⰸ", "Ⰸ"); ("ⰹ", "Ⰹ"); ("ⰺ", "Ⰺ");
    ("ⰻ", "Ⰻ"); ("ⰼ", "Ⰼ"); ("ⰽ", "Ⰽ"); ("ⰾ", "Ⰾ"); ("ⰿ", "Ⰿ"); ("ⱀ", "Ⱀ"); ("ⱁ", "Ⱁ"); ("ⱂ", "Ⱂ");
    ("ⱃ", "Ⱃ"); ("ⱄ", "Ⱄ"); ("ⱅ", "Ⱅ"); ("ⱆ", "Ⱆ"); ("ⱇ", "Ⱇ"); ("ⱈ", "Ⱈ"); ("ⱉ", "Ⱉ"); ("ⱊ", "Ⱊ");
    ("ⱋ", "Ⱋ"); ("ⱌ", "Ⱌ"); ("ⱍ", "Ⱍ"); ("ⱎ", "Ⱎ"); ("ⱏ", "Ⱏ"); ("ⱐ", "Ⱐ"); ("ⱑ", "Ⱑ"); ("ⱒ", "Ⱒ");
    ("ⱓ", "Ⱓ"); ("ⱔ", "Ⱔ"); ("ⱕ", "Ⱕ"); ("ⱖ", "Ⱖ"); ("ⱗ", "Ⱗ"); ("ⱘ", "Ⱘ"); ("ⱙ", "Ⱙ"); ("ⱚ", "Ⱚ");
    ("ⱛ", "Ⱛ"); ("ⱜ", "Ⱜ"); ("ⱝ", "Ⱝ"); ("ⱞ", "Ⱞ"); ("ⱟ", "Ⱟ"); ("ⱡ", "Ⱡ"); ("ⱥ", "Ⱥ"); ("ⱦ", "Ⱦ");
    ("ⱨ", "Ⱨ"); ("ⱪ", "Ⱪ"); ("ⱬ", "Ⱬ"); ("ⱳ", "Ⱳ"); ("ⱶ", "Ⱶ"); ("ⲁ", "Ⲁ"); ("ⲃ", "Ⲃ"); ("ⲅ", "Ⲅ");
    ("ⲇ", "Ⲇ"); ("ⲉ", "Ⲉ"); ("ⲋ", "Ⲋ"); ("ⲍ", "Ⲍ"); ("ⲏ", "Ⲏ"); ("ⲑ", "Ⲑ"); ("ⲓ", "Ⲓ"); ("ⲕ", "Ⲕ");
    ("ⲗ", "Ⲗ"); ("ⲙ", "Ⲙ"); ("ⲛ", "Ⲛ"); ("ⲝ", "Ⲝ"); ("ⲟ", "Ⲟ"); ("ⲡ", "Ⲡ"); ("ⲣ", "Ⲣ"); ("ⲥ", "Ⲥ");
    ("ⲧ", "Ⲧ"); ("ⲩ", "Ⲩ"); ("ⲫ", "Ⲫ"); ("ⲭ", "Ⲭ"); ("ⲯ", "Ⲯ"); ("ⲱ", "Ⲱ"); ("ⲳ", "Ⲳ"); ("ⲵ", "Ⲵ");
    ("ⲷ", "Ⲷ"); ("ⲹ", "Ⲹ"); ("ⲻ", "Ⲻ"); ("ⲽ", "Ⲽ"); ("ⲿ", "Ⲿ"); ("ⳁ", "Ⳁ"); ("ⳃ", "Ⳃ"); ("ⳅ", "Ⳅ");
    ("ⳇ", "Ⳇ"); ("ⳉ", "Ⳉ"); ("ⳋ", "Ⳋ"); ("ⳍ", "Ⳍ"); ("ⳏ", "Ⳏ"); ("ⳑ", "Ⳑ"); ("ⳓ", "Ⳓ"); ("ⳕ", "Ⳕ");
    ("ⳗ", "Ⳗ"); ("ⳙ", "Ⳙ"); ("ⳛ", "Ⳛ"); ("ⳝ", "Ⳝ"); ("ⳟ", "Ⳟ"); ("ⳡ", "Ⳡ"); ("ⳣ", "Ⳣ"); ("ⳬ", "Ⳬ");
    ("ⳮ", "Ⳮ"); ("ⳳ", "Ⳳ"); ("ⴀ", "Ⴀ"); ("ⴁ", "Ⴁ"); ("ⴂ", "Ⴂ"); ("ⴃ", "Ⴃ"); ("ⴄ", "Ⴄ"); ("ⴅ", "Ⴅ");
    ("ⴆ", "Ⴆ"); ("ⴇ", "Ⴇ"); ("ⴈ", "Ⴈ"); ("ⴉ", "Ⴉ"); ("ⴊ", "Ⴊ"); ("ⴋ", "Ⴋ"); ("ⴌ", "Ⴌ"); ("ⴍ", "Ⴍ");
    ("ⴎ", "Ⴎ"); ("ⴏ", "Ⴏ"); ("ⴐ", "Ⴐ"); ("ⴑ", "Ⴑ"); ("ⴒ", "Ⴒ"); ("ⴓ", "Ⴓ"); ("ⴔ", "Ⴔ"); ("ⴕ", "Ⴕ");
    ("ⴖ", "Ⴖ"); ("ⴗ", "Ⴗ"); ("ⴘ", "Ⴘ"); ("ⴙ", "Ⴙ"); ("ⴚ", "Ⴚ"); ("ⴛ", "Ⴛ"); ("ⴜ", "Ⴜ"); ("ⴝ", "Ⴝ");
    ("ⴞ", "Ⴞ"); ("ⴟ", "Ⴟ"); ("ⴠ", "Ⴠ"); ("ⴡ", "Ⴡ"); ("ⴢ", "Ⴢ"); ("ⴣ", "Ⴣ"); ("ⴤ", "Ⴤ"); ("ⴥ", "Ⴥ");
    ("ⴧ", "Ⴧ"); ("ⴭ", "Ⴭ"); ("ꙁ", "Ꙁ"); ("ꙃ", "Ꙃ"); ("ꙅ", "Ꙅ"); ("ꙇ", "Ꙇ"); ("ꙉ", "Ꙉ"); ("ꙋ", "Ꙋ");
    ("ꙍ", "Ꙍ"); ("ꙏ", "Ꙏ"); ("ꙑ", "Ꙑ"); ("ꙓ", "Ꙓ"); ("ꙕ", "Ꙕ"); ("ꙗ", "Ꙗ"); ("ꙙ", "Ꙙ"); ("ꙛ", "Ꙛ");
    ("ꙝ", "Ꙝ"); ("ꙟ", "Ꙟ"); ("ꙡ", "Ꙡ"); ("ꙣ", "Ꙣ"); ("ꙥ", "Ꙥ"); ("ꙧ", "Ꙧ"); ("ꙩ", "Ꙩ"); ("ꙫ", "Ꙫ");
    ("ꙭ", "Ꙭ"); ("ꚁ", "Ꚁ"); ("ꚃ", "Ꚃ"); ("ꚅ", "Ꚅ"); ("ꚇ", "Ꚇ"); ("ꚉ", "Ꚉ"); ("ꚋ", "Ꚋ"); ("ꚍ", "Ꚍ");
    ("ꚏ", "Ꚏ"); ("ꚑ", "Ꚑ"); ("ꚓ", "Ꚓ"); ("ꚕ", "Ꚕ"); ("ꚗ", "Ꚗ"); ("ꚙ", "Ꚙ"); ("ꚛ", "Ꚛ"); ("ꜣ", "Ꜣ");
    ("ꜥ", "Ꜥ"); ("ꜧ", "Ꜧ"); ("ꜩ", "Ꜩ"); ("ꜫ", "Ꜫ"); ("ꜭ", "Ꜭ"); ("ꜯ", "Ꜯ"); ("ꜳ", "Ꜳ"); ("ꜵ", "Ꜵ");
    ("ꜷ", "Ꜷ"); ("ꜹ", "Ꜹ"); ("ꜻ", "Ꜻ"); ("ꜽ", "Ꜽ"); ("ꜿ", "Ꜿ"); ("ꝁ", "Ꝁ"); ("ꝃ", "Ꝃ"); ("ꝅ", "Ꝅ");
    ("ꝇ", "Ꝇ"); ("ꝉ", "Ꝉ"); ("ꝋ", "Ꝋ"); ("ꝍ", "Ꝍ"); ("ꝏ", "Ꝏ"); ("ꝑ", "Ꝑ"); ("ꝓ", "Ꝓ"); ("ꝕ", "Ꝕ");
    ("ꝗ", "Ꝗ"); ("ꝙ", "Ꝙ"); ("ꝛ", "Ꝛ"); ("ꝝ", "Ꝝ"); ("ꝟ", "Ꝟ"); ("ꝡ", "Ꝡ"); ("ꝣ", "Ꝣ"); ("ꝥ", "Ꝥ");
    ("ꝧ", "Ꝧ"); ("ꝩ", "Ꝩ"); ("ꝫ", "Ꝫ"); ("ꝭ", "Ꝭ"); ("ꝯ", "Ꝯ"); ("ꝺ", "Ꝺ"); ("ꝼ", "Ꝼ"); ("ꝿ", "Ꝿ");
    ("ꞁ", "Ꞁ"); ("ꞃ", "Ꞃ"); ("ꞅ", "Ꞅ"); ("ꞇ", "Ꞇ"); ("ꞌ", "Ꞌ"); ("ꞑ", "Ꞑ"); ("ꞓ", "Ꞓ"); ("ꞔ", "Ꞔ");
    ("ꞗ", "Ꞗ"); ("ꞙ", "Ꞙ"); ("ꞛ", "Ꞛ"); ("ꞝ", "Ꞝ"); ("ꞟ", "Ꞟ"); ("ꞡ", "Ꞡ"); ("ꞣ", "Ꞣ"); ("ꞥ", "Ꞥ");
    ("ꞧ", "Ꞧ"); ("ꞩ", "Ꞩ"); ("ꞵ", "Ꞵ"); ("ꞷ", "Ꞷ"); ("ꞹ", "Ꞹ"); ("ꞻ", "Ꞻ"); ("ꞽ", "Ꞽ"); ("ꞿ", "Ꞿ");
    ("ꟁ", "Ꟁ"); ("ꟃ", "Ꟃ"); ("ꟈ", "Ꟈ"); ("ꟊ", "Ꟊ"); ("ꟑ", "Ꟑ"); ("ꟗ", "Ꟗ"); ("ꟙ", "Ꟙ"); ("ꟶ", "Ꟶ");
    ("ꭓ", "Ꭓ"); ("ꭰ", "Ꭰ"); ("ꭱ", "Ꭱ"); ("ꭲ", "Ꭲ"); ("ꭳ", "Ꭳ"); ("ꭴ", "Ꭴ"); ("ꭵ", "Ꭵ"); ("ꭶ", "Ꭶ");
    ("ꭷ", "Ꭷ"); ("ꭸ", "Ꭸ"); ("ꭹ", "Ꭹ"); ("ꭺ", "Ꭺ"); ("ꭻ", "Ꭻ"); ("ꭼ", "Ꭼ"); ("ꭽ", "Ꭽ"); ("ꭾ", "Ꭾ");
    ("ꭿ", "Ꭿ"); ("ꮀ", "Ꮀ"); ("ꮁ", "Ꮁ"); ("ꮂ", "Ꮂ"); ("ꮃ", "Ꮃ"); ("ꮄ", "Ꮄ"); ("ꮅ", "Ꮅ"); ("ꮆ", "Ꮆ");
    ("ꮇ", "Ꮇ"); ("ꮈ", "Ꮈ"); ("ꮉ", "Ꮉ"); ("ꮊ", "Ꮊ"); ("ꮋ", "Ꮋ"); ("ꮌ", "Ꮌ"); ("ꮍ", "Ꮍ"); ("ꮎ", "Ꮎ");
    ("ꮏ", "Ꮏ"); ("ꮐ", "Ꮐ"); ("ꮑ", "Ꮑ"); ("ꮒ", "Ꮒ"); ("ꮓ", "Ꮓ"); ("ꮔ", "Ꮔ"); ("ꮕ", "Ꮕ"); ("ꮖ", "Ꮖ");
    ("ꮗ", "Ꮗ"); ("ꮘ", "Ꮘ"); ("ꮙ", "Ꮙ"); ("ꮚ", "Ꮚ"); ("ꮛ", "Ꮛ"); ("ꮜ", "Ꮜ"); ("ꮝ", "Ꮝ"); ("ꮞ", "Ꮞ");
    ("ꮟ", "Ꮟ"); ("ꮠ", "Ꮠ"); ("ꮡ", "Ꮡ"); ("ꮢ", "Ꮢ"); ("ꮣ", "Ꮣ"); ("ꮤ", "Ꮤ"); ("ꮥ", "Ꮥ"); ("ꮦ", "Ꮦ");
    ("ꮧ", "Ꮧ"); ("ꮨ", "Ꮨ"); ("ꮩ", "Ꮩ"); ("ꮪ", "Ꮪ"); ("ꮫ", "Ꮫ"); ("ꮬ", "Ꮬ"); ("ꮭ", "Ꮭ"); ("ꮮ", "Ꮮ");
    ("ꮯ", "Ꮯ"); ("ꮰ", "Ꮰ"); ("ꮱ", "Ꮱ"); ("ꮲ", "Ꮲ"); ("ꮳ", "Ꮳ"); ("ꮴ", "Ꮴ"); ("ꮵ", "Ꮵ"); ("ꮶ", "Ꮶ");
    ("ꮷ", "Ꮷ"); ("ꮸ", "Ꮸ"); ("ꮹ", "Ꮹ"); ("ꮺ", "Ꮺ"); ("ꮻ", "Ꮻ"); ("ꮼ", "Ꮼ"); ("ꮽ", "Ꮽ"); ("ꮾ", "Ꮾ");
    ("ꮿ", "Ꮿ"); ("ﬀ", "FF"); ("ﬁ", "FI"); ("ﬂ", "FL"); ("ﬃ", "FFI"); ("ﬄ", "FFL"); ("ﬅ", "ST"); ("ﬆ", "ST");
    ("ﬓ", "ՄՆ"); ("ﬔ", "ՄԵ"); ("ﬕ", "ՄԻ"); ("ﬖ", "ՎՆ"); ("ﬗ", "ՄԽ"); ("ａ", "Ａ"); ("ｂ", "Ｂ"); ("ｃ", "Ｃ");
    ("ｄ", "Ｄ"); ("ｅ", "Ｅ"); ("ｆ", "Ｆ"); ("ｇ", "Ｇ"); ("ｈ", "Ｈ"); ("ｉ", "Ｉ"); ("ｊ", "Ｊ"); ("ｋ", "Ｋ");
    ("ｌ", "Ｌ"); ("ｍ", "Ｍ"); ("ｎ", "Ｎ"); ("ｏ", "Ｏ"); ("ｐ", "Ｐ"); ("ｑ", "Ｑ"); ("ｒ", "Ｒ"); ("ｓ", "Ｓ");
    ("ｔ", "Ｔ"); ("ｕ", "Ｕ"); ("ｖ", "Ｖ"); ("ｗ", "Ｗ"); ("ｘ", "Ｘ"); ("ｙ", "Ｙ"); ("ｚ", "Ｚ"); ("𐐨", "𐐀");
    ("𐐩", "𐐁"); ("𐐪", "𐐂"); ("𐐫", "𐐃"); ("𐐬", "𐐄"); ("𐐭", "𐐅"); ("𐐮", "𐐆"); ("𐐯", "𐐇"); ("𐐰", "𐐈");
    ("𐐱", "𐐉"); ("𐐲", "𐐊"); ("𐐳", "𐐋"); ("𐐴", "𐐌"); ("𐐵", "𐐍"); ("𐐶", "𐐎"); ("𐐷", "𐐏"); ("𐐸", "𐐐");
    ("𐐹", "𐐑"); ("𐐺", "𐐒"); ("𐐻", "𐐓"); ("𐐼", "𐐔"); ("𐐽", "𐐕"); ("𐐾", "𐐖"); ("𐐿", "𐐗"); ("𐑀", "𐐘");
    ("𐑁", "𐐙"); ("𐑂", "𐐚"); ("𐑃", "𐐛"); ("𐑄", "𐐜"); ("𐑅", "𐐝"); ("𐑆", "𐐞"); ("𐑇", "𐐟"); ("𐑈", "𐐠");
    ("𐑉", "𐐡"); ("𐑊", "𐐢"); ("𐑋", "𐐣"); ("𐑌", "𐐤"); ("𐑍", "𐐥"); ("𐑎", "𐐦"); ("𐑏", "𐐧"); ("𐓘", "𐒰");
    ("𐓙", "𐒱"); ("𐓚", "𐒲"); ("𐓛", "𐒳"); ("𐓜", "𐒴"); ("𐓝", "𐒵"); ("𐓞", "𐒶"); ("𐓟", "𐒷"); ("𐓠", "𐒸");
    ("𐓡", "𐒹"); ("𐓢", "𐒺"); ("𐓣", "𐒻"); ("𐓤", "𐒼"); ("𐓥", "𐒽"); ("𐓦", "𐒾"); ("𐓧", "𐒿"); ("𐓨", "𐓀");
    ("𐓩", "𐓁"); ("𐓪", "𐓂"); ("𐓫", "𐓃"); ("𐓬", "𐓄"); ("𐓭", "𐓅"); ("𐓮", "𐓆"); ("𐓯", "𐓇"); ("𐓰", "𐓈");
    ("𐓱", "𐓉"); ("𐓲", "𐓊"); ("𐓳", "𐓋"); ("𐓴", "𐓌"); ("𐓵", "𐓍"); ("𐓶", "𐓎"); ("𐓷", "𐓏"); ("𐓸", "𐓐");
    ("𐓹", "𐓑"); ("𐓺", "𐓒"); ("𐓻", "𐓓"); ("𐖗", "𐕰"); ("𐖘", "𐕱"); ("𐖙", "𐕲"); ("𐖚", "𐕳"); ("𐖛", "𐕴");
    ("𐖜", "𐕵"); ("𐖝", "𐕶"); ("𐖞", "𐕷"); ("𐖟", "𐕸"); ("𐖠", "𐕹"); ("𐖡", "𐕺"); ("𐖣", "𐕼"); ("𐖤", "𐕽");
    ("𐖥", "𐕾"); ("𐖦", "𐕿"); ("𐖧", "𐖀"); ("𐖨", "𐖁"); ("𐖩", "𐖂"); ("𐖪", "𐖃"); ("𐖫", "𐖄"); ("𐖬", "𐖅");
    ("𐖭", "𐖆"); ("𐖮", "𐖇"); ("𐖯", "𐖈"); ("𐖰", "𐖉"); ("𐖱", "𐖊"); ("𐖳", "𐖌"); ("𐖴", "𐖍"); ("𐖵", "𐖎");
    ("𐖶", "𐖏"); ("𐖷", "𐖐"); ("𐖸", "𐖑"); ("𐖹", "𐖒"); ("𐖻", "𐖔"); ("𐖼", "𐖕"); ("𐳀", "𐲀"); ("𐳁", "𐲁");
    ("𐳂", "𐲂"); ("𐳃", "𐲃"); ("𐳄", "𐲄"); ("𐳅", "𐲅"); ("𐳆", "𐲆"); ("𐳇", "𐲇"); ("𐳈", "𐲈"); ("𐳉", "𐲉");
    ("𐳊", "𐲊"); ("𐳋", "𐲋"); ("𐳌", "𐲌"); ("𐳍", "𐲍"); ("𐳎", "𐲎"); ("𐳏", "𐲏"); ("𐳐", "𐲐"); ("𐳑", "𐲑");
    ("𐳒", "𐲒"); ("𐳓", "𐲓"); ("𐳔", "𐲔"); ("𐳕", "𐲕"); ("𐳖", "𐲖"); ("𐳗", "𐲗"); ("𐳘", "𐲘"); ("𐳙", "𐲙");
    ("𐳚", "𐲚"); ("𐳛", "𐲛"); ("𐳜", "𐲜"); ("𐳝", "𐲝"); ("𐳞", "𐲞"); ("𐳟", "𐲟"); ("𐳠", "𐲠"); ("𐳡", "𐲡");
    ("𐳢", "𐲢"); ("𐳣", "𐲣"); ("𐳤", "𐲤"); ("𐳥", "𐲥"); ("𐳦", "𐲦"); ("𐳧", "𐲧"); ("𐳨", "𐲨"); ("𐳩", "𐲩");
    ("𐳪", "𐲪"); ("𐳫", "𐲫"); ("𐳬", "𐲬"); ("𐳭", "𐲭"); ("𐳮", "𐲮"); ("𐳯", "𐲯"); ("𐳰", "𐲰"); ("𐳱", "𐲱");
    ("𐳲", "𐲲"); ("𑣀", "𑢠"); ("𑣁", "𑢡"); ("𑣂", "𑢢"); ("𑣃", "𑢣"); ("𑣄", "𑢤"); ("𑣅", "𑢥"); ("𑣆", "𑢦");
    ("𑣇", "𑢧"); ("𑣈", "𑢨"); ("𑣉", "𑢩"); ("𑣊", "𑢪"); ("𑣋", "𑢫"); ("𑣌", "𑢬"); ("𑣍", "𑢭"); ("𑣎", "𑢮");
    ("𑣏", "𑢯"); ("𑣐", "𑢰"); ("𑣑", "𑢱"); ("𑣒", "𑢲"); ("𑣓", "𑢳"); ("𑣔", "𑢴"); ("𑣕", "𑢵"); ("𑣖", "𑢶");
    ("𑣗", "𑢷"); ("𑣘", "𑢸"); ("𑣙", "𑢹"); ("𑣚", "𑢺"); ("𑣛", "𑢻"); ("𑣜", "𑢼"); ("𑣝", "𑢽"); ("𑣞", "𑢾");
    ("𑣟", "𑢿"); ("𖹠", "𖹀"); ("𖹡", "𖹁"); ("𖹢", "𖹂"); ("𖹣", "𖹃"); ("𖹤", "𖹄"); ("𖹥", "𖹅"); ("𖹦", "𖹆");
    ("𖹧", "𖹇"); ("𖹨", "𖹈"); ("𖹩", "𖹉"); ("𖹪", "𖹊"); ("𖹫", "𖹋"); ("𖹬", "𖹌"); ("𖹭", "𖹍"); ("𖹮", "𖹎");
    ("𖹯", "𖹏"); ("𖹰", "𖹐"); ("𖹱", "𖹑"); ("𖹲", "𖹒"); ("𖹳", "𖹓"); ("𖹴", "𖹔"); ("𖹵", "𖹕"); ("𖹶", "𖹖");
    ("𖹷", "𖹗"); ("𖹸", "𖹘"); ("𖹹", "𖹙"); ("𖹺", "𖹚"); ("𖹻", "𖹛"); ("𖹼", "𖹜"); ("𖹽", "𖹝"); ("𖹾", "𖹞");
    ("𖹿", "𖹟"); ("𞤢", "𞤀"); ("𞤣", "𞤁"); ("𞤤", "𞤂"); ("𞤥", "𞤃"); ("𞤦", "𞤄"); ("𞤧", "𞤅"); ("𞤨", "𞤆");
    ("𞤩", "𞤇"); ("𞤪", "𞤈"); ("𞤫", "𞤉"); ("𞤬", "𞤊"); ("𞤭", "𞤋"); ("𞤮", "𞤌"); ("𞤯", "𞤍"); ("𞤰", "𞤎");
    ("𞤱", "𞤏"); ("𞤲", "𞤐"); ("𞤳", "𞤑"); ("𞤴", "𞤒"); ("𞤵", "𞤓"); ("𞤶", "𞤔"); ("𞤷", "𞤕"); ("𞤸", "𞤖");
    ("𞤹", "𞤗"); ("𞤺", "𞤘"); ("𞤻", "𞤙"); ("𞤼", "𞤚"); ("𞤽", "𞤛"); ("𞤾", "𞤜"); ("𞤿", "𞤝"); ("𞥀", "𞤞");
    ("𞥁", "𞤟"); ("𞥂", "𞤠"); ("𞥃", "𞤡")
  ].

(** The decimal digits outside ASCII, each with its ASCII digit: the
    characters of the Unicode category Nd, which [int] reads as digits. *)
Definition digit_table : list (string * string) :=
  [
    ("٠", "0"); ("١", "1"); ("٢", "2"); ("٣", "3"); ("٤", "4"); ("٥", "5"); ("٦", "6"); ("٧", "7"); ("٨", "8"); ("٩", "9");
    ("۰", "0"); ("۱", "1"); ("۲", "2"); ("۳", "3"); ("۴", "4"); ("۵", "5"); ("۶", "6"); ("۷", "7"); ("۸", "8"); ("۹", "9");
    ("߀", "0"); ("߁", "1"); ("߂", "2"); ("߃", "3"); ("߄", "4"); ("߅", "5"); ("߆", "6"); ("߇", "7"); ("߈", "8"); ("߉", "9");
    ("०", "0"); ("१", "1"); ("२", "2"); ("३", "3"); ("४", "4"); ("५", "5"); ("६", "6"); ("७", "7"); ("८", "8"); ("९", "9");
    ("০", "0"); ("১", "1"); ("২", "2"); ("৩", "3"); ("৪", "4"); ("৫", "5"); ("৬", "6"); ("৭", "7"); ("৮", "8"); ("৯", "9");
    ("੦", "0"); ("੧", "1"); ("੨", "2"); ("੩", "3"); ("੪", "4"); ("੫", "5"); ("੬", "6"); ("੭", "7"); ("੮", "8"); ("੯", "9");
    ("૦", "0"); ("૧", "1"); ("૨", "2"); ("૩", "3"); ("૪", "4"); ("૫", "5"); ("૬", "6"); ("૭", "7"); ("૮", "8"); ("૯", "9");
    ("୦", "0"); ("୧", "1"); ("୨", "2"); ("୩", "3"); ("୪", "4"); ("୫", "5"); ("୬", "6"); ("୭", "7"); ("୮", "8"); ("୯", "9");
    ("௦", "0"); ("௧", "1"); ("௨", "2"); ("௩", "3"); ("௪", "4"); ("௫", "5"); ("௬", "6"); ("௭", "7"); ("௮", "8"); ("௯", "9");
    ("౦", "0"); ("౧", "1"); ("౨", "2"); ("౩", "3"); ("౪", "4"); ("౫", "5"); ("౬", "6"); ("౭", "7"); ("౮", "8"); ("౯", "9");
    ("೦", "0"); ("೧", "1"); ("೨", "2"); ("೩", "3"); ("೪", "4"); ("೫", "5"); ("೬", "6"); ("೭", "7"); ("೮", "8"); ("೯", "9");
    ("൦", "0"); ("൧", "1"); ("൨", "2"); ("൩", "3"); ("൪", "4"); ("൫", "5"); ("൬", "6"); ("൭", "7"); ("൮", "8"); ("൯", "9");
    ("෦", "0"); ("෧", "1"); ("෨", "2"); ("෩", "3"); ("෪", "4"); ("෫", "5"); ("෬", "6"); ("෭", "7"); ("෮", "8"); ("෯", "9");
    ("๐", "0"); ("๑", "1"); ("๒", "2"); ("๓", "3"); ("๔", "4"); ("๕", "5"); ("๖", "6"); ("๗", "7"); ("๘", "8"); ("๙", "9");
    ("໐", "0"); ("໑", "1"); ("໒", "2"); ("໓", "3"); ("໔", "4"); ("໕", "5"); ("໖", "6"); ("໗", "7"); ("໘", "8"); ("໙", "9");
    ("༠", "0"); ("༡", "1"); ("༢", "2"); ("༣", "3"); ("༤", "4"); ("༥", "5"); ("༦", "6"); ("༧", "7"); ("༨", "8"); ("༩", "9");
    ("၀", "0"); ("၁", "1"); ("၂", "2"); ("၃", "3"); ("၄", "4"); ("၅", "5"); ("၆", "6"); ("၇", "7"); ("၈", "8"); ("၉", "9");
    ("႐", "0"); ("႑", "1"); ("႒", "2"); ("႓", "3"); ("႔", "4"); ("႕", "5"); ("႖", "6"); ("႗", "7"); ("႘", "8"); ("႙", "9");
    ("០", "0"); ("១", "1"); ("២", "2"); ("៣", "3"); ("៤", "4"); ("៥", "5"); ("៦", "6"); ("៧", "7"); ("៨", "8"); ("៩", "9");
    ("᠐", "0"); ("᠑", "1"); ("᠒", "2"); ("᠓", "3"); ("᠔", "4"); ("᠕", "5"); ("᠖", "6"); ("᠗", "7"); ("᠘", "8"); ("᠙", "9");
    ("᥆", "0"); ("᥇", "1"); ("᥈", "2"); ("᥉", "3"); ("᥊", "4"); ("᥋", "5"); ("᥌", "6"); ("᥍", "7"); ("᥎", "8"); ("᥏", "9");
    ("᧐", "0"); ("᧑", "1"); ("᧒", "2"); ("᧓", "3"); ("᧔", "4"); ("᧕", "5"); ("᧖", "6"); ("᧗", "7"); ("᧘", "8"); ("᧙", "9");
    ("᪀", "0"); ("᪁", "1"); ("᪂", "2"); ("᪃", "3"); ("᪄", "4"); ("᪅", "5"); ("᪆", "6"); ("᪇", "7"); ("᪈", "8"); ("᪉", "9");
    ("᪐", "0"); ("᪑", "1"); ("᪒", "2"); ("᪓", "3"); ("᪔", "4"); ("᪕", "5"); ("᪖", "6"); ("᪗", "7"); ("᪘", "8"); ("᪙", "9");
    ("᭐", "0"); ("᭑", "1"); ("᭒", "2"); ("᭓", "3"); ("᭔", "4"); ("᭕", "5"); ("᭖", "6"); ("᭗", "7"); ("᭘", "8"); ("᭙", "9");
    ("᮰", "0"); ("᮱", "1"); ("᮲", "2"); ("᮳", "3"); ("᮴", "4"); ("᮵", "5"); ("᮶", "6"); ("᮷", "7"); ("᮸", "8"); ("᮹", "9");
    ("᱀", "0"); ("᱁", "1"); ("᱂", "2"); ("᱃", "3"); ("᱄", "4"); ("᱅", "5"); ("᱆", "6"); ("᱇", "7"); ("᱈", "8"); ("᱉", "9");
    ("᱐", "0"); ("᱑", "1"); ("᱒", "2"); ("᱓", "3"); ("᱔", "4"); ("᱕", "5"); ("᱖", "6"); ("᱗", "7"); ("᱘", "8"); ("᱙", "9");
    ("꘠", "0"); ("꘡", "1"); ("꘢", "2"); ("꘣", "3"); ("꘤", "4"); ("꘥", "5"); ("꘦", "6"); ("꘧", "7"); ("꘨", "8"); ("꘩", "9");
    ("꣐", "0"); ("꣑", "1"); ("꣒", "2"); ("꣓", "3"); ("꣔", "4"); ("꣕", "5"); ("꣖", "6"); ("꣗", "7"); ("꣘", "8"); ("꣙", "9");
    ("꤀", "0"); ("꤁", "1"); ("꤂", "2"); ("꤃", "3"); ("꤄", "4"); ("꤅", "5"); ("꤆", "6"); ("꤇", "7"); ("꤈", "8"); ("꤉", "9");
    ("꧐", "0"); ("꧑", "1"); ("꧒", "2"); ("꧓", "3"); ("꧔", "4"); ("꧕", "5"); ("꧖", "6"); ("꧗", "7"); ("꧘", "8"); ("꧙", "9");
    ("꧰", "0"); ("꧱", "1"); ("꧲", "2"); ("꧳", "3"); ("꧴", "4"); ("꧵", "5"); ("꧶", "6"); ("꧷", "7"); ("꧸", "8"); ("꧹", "9");
    ("꩐", "0"); ("꩑", "1"); ("꩒", "2"); ("꩓", "3"); ("꩔", "4"); ("꩕", "5"); ("꩖", "6"); ("꩗", "7"); ("꩘", "8"); ("꩙", "9");
    ("꯰", "0"); ("꯱", "1"); ("꯲", "2"); ("꯳", "3"); ("꯴", "4"); ("꯵", "5"); ("꯶", "6"); ("꯷", "7"); ("꯸", "8"); ("꯹", "9");
    ("０", "0"); ("１", "1"); ("２", "2"); ("３", "3"); ("４", "4"); ("５", "5"); ("６", "6"); ("７", "7"); ("８", "8"); ("９", "9");
    ("𐒠", "0"); ("𐒡", "1"); ("𐒢", "2"); ("𐒣", "3"); ("𐒤", "4"); ("𐒥", "5"); ("𐒦", "6"); ("𐒧", "7"); ("𐒨", "8"); ("𐒩", "9");
    ("𐴰", "0"); ("𐴱", "1"); ("𐴲", "2"); ("𐴳", "3"); ("𐴴", "4"); ("𐴵", "5"); ("𐴶", "6"); ("𐴷", "7"); ("𐴸", "8"); ("𐴹", "9");
    ("𑁦", "0"); ("𑁧", "1"); ("𑁨", "2"); ("𑁩", "3"); ("𑁪", "4"); ("𑁫", "5"); ("𑁬", "6"); ("𑁭", "7"); ("𑁮", "8"); ("𑁯", "9");
    ("𑃰", "0"); ("𑃱", "1"); ("𑃲", "2"); ("𑃳", "3"); ("𑃴", "4"); ("𑃵", "5"); ("𑃶", "6"); ("𑃷", "7"); ("𑃸", "8"); ("𑃹", "9");
    ("𑄶", "0"); ("𑄷", "1"); ("𑄸", "2"); ("𑄹", "3"); ("𑄺", "4"); ("𑄻", "5"); ("𑄼", "6"); ("𑄽", "7"); ("𑄾", "8"); ("𑄿", "9");
    ("𑇐", "0"); ("𑇑", "1"); ("𑇒", "2"); ("𑇓", "3"); ("𑇔", "4"); ("𑇕", "5"); ("𑇖", "6"); ("𑇗", "7"); ("𑇘", "8"); ("𑇙", "9");
    ("𑋰", "0"); ("𑋱", "1"); ("𑋲", "2"); ("𑋳", "3"); ("𑋴", "4"); ("𑋵", "5"); ("𑋶", "6"); ("𑋷", "7"); ("𑋸", "8"); ("𑋹", "9");
    ("𑑐", "0"); ("𑑑", "1"); ("𑑒", "2"); ("𑑓", "3"); ("𑑔", "4"); ("𑑕", "5"); ("𑑖", "6"); ("𑑗", "7"); ("𑑘", "8"); ("𑑙", "9");
    ("𑓐", "0"); ("𑓑", "1"); ("𑓒", "2"); ("𑓓", "3"); ("𑓔", "4"); ("𑓕", "5"); ("𑓖", "6"); ("𑓗", "7"); ("𑓘", "8"); ("𑓙", "9");
    ("𑙐", "0"); ("𑙑", "1"); ("𑙒", "2"); ("𑙓", "3"); ("𑙔", "4"); ("𑙕", "5"); ("𑙖", "6"); ("𑙗", "7"); ("𑙘", "8"); ("𑙙", "9");
    ("𑛀", "0"); ("𑛁", "1"); ("𑛂", "2"); ("𑛃", "3"); ("𑛄", "4"); ("𑛅", "5"); ("𑛆", "6"); ("𑛇", "7"); ("𑛈", "8"); ("𑛉", "9");
    ("𑜰", "0"); ("𑜱", "1"); ("𑜲", "2"); ("𑜳", "3"); ("𑜴", "4"); ("𑜵", "5"); ("𑜶", "6"); ("𑜷", "7"); ("𑜸", "8"); ("𑜹", "9");
    ("𑣠", "0"); ("𑣡", "1"); ("𑣢", "2"); ("𑣣", "3"); ("𑣤", "4"); ("𑣥", "5"); ("𑣦", "6"); ("𑣧", "7"); ("𑣨", "8"); ("𑣩", "9");
    ("𑥐", "0"); ("𑥑", "1"); ("𑥒", "2"); ("𑥓", "3"); ("𑥔", "4"); ("𑥕", "5"); ("𑥖", "6"); ("𑥗", "7"); ("𑥘", "8"); ("𑥙", "9");
    ("𑱐", "0"); ("𑱑", "1"); ("𑱒", "2"); ("𑱓", "3"); ("𑱔", "4"); ("𑱕", "5"); ("𑱖", "6"); ("𑱗", "7"); ("𑱘", "8"); ("𑱙", "9");
    ("𑵐", "0"); ("𑵑", "1"); ("𑵒", "2"); ("𑵓", "3"); ("𑵔", "4"); ("𑵕", "5"); ("𑵖", "6"); ("𑵗", "7"); ("𑵘", "8"); ("𑵙", "9");
    ("𑶠", "0"); ("𑶡", "1"); ("𑶢", "2"); ("𑶣", "3"); ("𑶤", "4"); ("𑶥", "5"); ("𑶦", "6"); ("𑶧", "7"); ("𑶨", "8"); ("𑶩", "9");
    ("𖩠", "0"); ("𖩡", "1"); ("𖩢", "2"); ("𖩣", "3"); ("𖩤", "4"); ("𖩥", "5"); ("𖩦", "6"); ("𖩧", "7"); ("𖩨", "8"); ("𖩩", "9");
    ("𖫀", "0"); ("𖫁", "1"); ("𖫂", "2"); ("𖫃", "3"); ("𖫄", "4"); ("𖫅", "5"); ("𖫆", "6"); ("𖫇", "7"); ("𖫈", "8"); ("𖫉", "9");
    ("𖭐", "0"); ("𖭑", "1"); ("𖭒", "2"); ("𖭓", "3"); ("𖭔", "4"); ("𖭕", "5"); ("𖭖", "6"); ("𖭗", "7"); ("𖭘", "8"); ("𖭙", "9");
    ("𝟎", "0"); ("𝟏", "1"); ("𝟐", "2"); ("𝟑", "3"); ("𝟒", "4"); ("𝟓", "5"); ("𝟔", "6"); ("𝟕", "7"); ("𝟖", "8"); ("𝟗", "9");
    ("𝟘", "0"); ("𝟙", "1"); ("𝟚", "2"); ("𝟛", "3"); ("𝟜", "4"); ("𝟝", "5"); ("𝟞", "6"); ("𝟟", "7"); ("𝟠", "8"); ("𝟡", "9");
    ("𝟢", "0"); ("𝟣", "1"); ("𝟤", "2"); ("𝟥", "3"); ("𝟦", "4"); ("𝟧", "5"); ("𝟨", "6"); ("𝟩", "7"); ("𝟪", "8"); ("𝟫", "9");
    ("𝟬", "0"); ("𝟭", "1"); ("𝟮", "2"); ("𝟯", "3"); ("𝟰", "4"); ("𝟱", "5"); ("𝟲", "6"); ("𝟳", "7"); ("𝟴", "8"); ("𝟵", "9");
    ("𝟶", "0"); ("𝟷", "1"); ("𝟸", "2"); ("𝟹", "3"); ("𝟺", "4"); ("𝟻", "5"); ("𝟼", "6"); ("𝟽", "7"); ("𝟾", "8"); ("𝟿", "9");
    ("𞅀", "0"); ("𞅁", "1"); ("𞅂", "2"); ("𞅃", "3"); ("𞅄", "4"); ("𞅅", "5"); ("𞅆", "6"); ("𞅇", "7"); ("𞅈", "8"); ("𞅉", "9");
    ("𞋰", "0"); ("𞋱", "1"); ("𞋲", "2"); ("𞋳", "3"); ("𞋴", "4"); ("𞋵", "5"); ("𞋶", "6"); ("𞋷", "7"); ("𞋸", "8"); ("𞋹", "9");
    ("𞥐", "0"); ("𞥑", "1"); ("𞥒", "2"); ("𞥓", "3"); ("𞥔", "4"); ("𞥕", "5"); ("𞥖", "6"); ("𞥗", "7"); ("𞥘", "8"); ("𞥙", "9");
    ("🯰", "0"); ("🯱", "1"); ("🯲", "2"); ("🯳", "3"); ("🯴", "4"); ("🯵", "5"); ("🯶", "6"); ("🯷", "7"); ("🯸", "8"); ("🯹", "9")
  ].

(** The entry of a table whose character starts the text [s]. *)
Definition starts_with (table : list (string * string)) (s : string)
  : option (string * string) :=
  snd <$> list_find (λ entry, String.prefix entry.1 s = true) table.

(** [str.upper].  Text is UTF-8; [skip] counts the bytes that are left of
    a character that has been replaced. *)
Fixpoint upper_from (skip : nat) (s : string) : string :=
  match s with
  | EmptyString => EmptyString
  | String c r =>
      match skip with
      | S k => upper_from k r
      | O =>
          if is_ascii c then String (upper_char c) (upper_from 0 r)
          else match starts_with upper_table s with
               | Some (k, v) => v ++ upper_from (String.length k - 1) r
               | None => String c (upper_from 0 r)
               end
      end
  end.

Definition upper (s : string) : string := upper_from 0 s.

(** [str.lower] on ASCII text. *)
Definition lower_char (c : ascii) : ascii :=
  let n := N_of_ascii c in
  if ((65 <=? n) && (n <=? 90))%N then ascii_of_N (n + 32) else c.

Fixpoint lower (s : string) : string :=
  match s with
  | EmptyString => EmptyString
  | String c r => String (lower_char c) (lower r)
  end.

(** [s.split(sep)] for a one-character separator: never an empty list. *)
Fixpoint split_on (sep : ascii) (s : string) : list string :=
  match s with
  | EmptyString => [EmptyString]
  | String c r =>
      if Ascii.eqb c sep then EmptyString :: split_on sep r
      else match split_on sep r with
           | h :: t => String c h :: t
           | [] => [String c EmptyString]
           end
  end.

(** [sep in s] for a one-character [sep]. *)
Fixpoint has_char (c : ascii) (s : string) : bool :=
  match s with
  | EmptyString => false
  | String c' r => Ascii.eqb c' c || has_char c r
  end.

(** [parts[-1]] of a list produced by [split]. *)
Definition last_part (parts : list string) : string :=
  default EmptyString (last parts).

(** [sep.join(parts)]. *)
Fixpoint join (sep : string) (parts : list string) : string :=
  match parts with
  | [] => EmptyString
  | [p] => p
  | p :: rest => p ++ sep ++ join sep rest
  end.

(** [s.replace(a, b)] for one-character [a] and [b]. *)
Fixpoint replace_char (a b : ascii) (s : string) : string :=
  match s with
  | EmptyString => EmptyString
  | String c r => String (if Ascii.eqb c a then b else c) (replace_char a b r)
  end.

Definition digit_of_char (c : ascii) : option (uint -> uint) :=
  match c with
  | "0"%char => Some D0 | "1"%char => Some D1 | "2"%char => Some D2
  | "3"%char => Some D3 | "4"%char => Some D4 | "5"%char => Some D5
  | "6"%char => Some D6 | "7"%char => Some D7 | "8"%char => Some D8
  | "9"%char => Some D9 | _ => None
  end.

(** The digits of an integer literal as [int()] reads them: decimal digits,
    with single underscores allowed between two digits.  [after_digit]
    tells whether the previous character was a digit. *)
Fixpoint py_digits (after_digit : bool) (s : string) : option uint :=
  match s with
  | EmptyString => if after_digit then Some Nil else None
  | String c r =>
      if Ascii.eqb c "_"%char then
        if after_digit then py_digits false r else None
      else match digit_of_char c with
           | Some d => d <$> py_digits true r
           | None => None
           end
  end.

(** The text as [int] reads it: a decimal digit of any script is its
    ASCII digit, and any other character outside ASCII is one that no
    integer literal has. *)
Fixpoint int_text_from (skip : nat) (s : string) : string :=
  match s with
  | EmptyString => EmptyString
  | String c r =>
      match skip with
      | S k => int_text_from k r
      | O =>
          if is_ascii c then String c (int_text_from 0 r)
          else match starts_with digit_table s with
               | Some (k, v) => v ++ int_text_from (String.length k - 1) r
               | None => String "?"%char (int_text_from 0 r)
               end
      end
  end.

Definition int_text (s : string) : string := int_text_from 0 s.

(** An integer literal in ASCII: a sign and digits. *)
Definition int_literal (s : string) : option Z :=
  match s with
  | String "-"%char r => (fun d => - Z.of_uint d) <$> py_digits false r
  | String "+"%char r => Z.of_uint <$> py_digits false r
  | _ => Z.of_uint <$> py_digits false s
  end.

(** [int(s)] on a token without whitespace; [None] stands for
    [ValueError]. *)
Definition py_int (s : string) : option Z := int_literal (int_text s).

(** [str(z)], also what an f-string does with an integer. *)
Definition str_of_Z (z : Z) : string :=
  match z with
  | Z0 => "0"
  | Zpos p => NilEmpty.string_of_uint (Pos.to_uint p)
  | Zneg p => String "-"%char (NilEmpty.string_of_uint (Pos.to_uint p))
  end.

(** A two-digit field of [strftime], for [0 <= n]. *)
Definition fmt_02d (n : Z) : string :=
  if n <? 10 then String "0"%char (str_of_Z n) else str_of_Z n.

(** [hh, mm = map(int, t.split(":"))]: exactly two fields, both integers;
    [None] stands for the [ValueError] of the unpacking or of [int]. *)
Definition parse_hh_mm (t : string) : option (Z * Z) :=
  match split_on ":"%char t with
  | [h; m] =>
      match py_int h, py_int m with
      | Some hh, Some mm => Some (hh, mm)
      | _, _ => None
      end
  | _ => None
  end.

End PyText.

(** ** Python floats and their fixed-point formatting *)

Module PyFloat.

Definition prec : Z := 53.
Definition emax : Z := 1024.

Definition fsub := SFsub prec emax.
Definition fdiv := SFdiv prec emax.
Definition fmul := SFmul prec emax.

(** The float of an integer literal such as [100.0]. *)
Definition of_Z (z : Z) : spec_float := binary_normalize prec emax z 0 false.

Definition fzero : spec_float := S754_zero false.

(** [x > 0] and [x < 0]. *)
Definition gt0 (x : spec_float) : bool := SFltb fzero x.
Definition lt0 (x : spec_float) : bool := SFltb x fzero.

(** [x == 0], true of both signed zeros and false of NaN. *)
Definition eq0 (x : spec_float) : bool := SFeqb x fzero.

(** The hundredths nearest to [m * 2^e], ties to the even one: the
    correctly rounded decimal conversion behind [format(x, '.2f')]. *)
Definition round_hundredths (m : positive) (e : Z) : Z :=
  if 0 <=? e then Zpos m * 2 ^ e * 100
  else
    let d := 2 ^ (- e) in
    let q := (Zpos m * 100) / d in
    let r := (Zpos m * 100) mod d in
    if 2 * r <? d then q
    else if d <? 2 * r then q + 1
    else if Z.even q then q else q + 1.

(** The hundredths of a float, or [None] for NaN and the infinities. *)
Definition hundredths (x : spec_float) : option (bool * Z) :=
  match x with
  | S754_zero s => Some (s, 0)
  | S754_finite s m e => Some (s, round_hundredths m e)
  | _ => None
  end.

(** Digits in groups of three joined by commas, as the [,] format option
    writes the integer part. *)
Fixpoint group3_aux (fuel : nat) (n : Z) : string :=
  match fuel with
  | O => PyText.str_of_Z n
  | S k =>
      if n <? 1000 then PyText.str_of_Z n
      else
        let low := n mod 1000 in
        let pad := if low <? 10 then "00" else if low <? 100 then "0" else "" in
        group3_aux k (n / 1000) ++ "," ++ pad ++ PyText.str_of_Z low
  end.

Definition group3 (n : Z) : string := group3_aux (Z.to_nat (Z.log2 n)) n.

(** The sign bit: set for negative numbers and for the negative zero; a
    NaN is written without a sign. *)
Definition sign_bit (x : spec_float) : bool :=
  match x with
  | S754_zero s | S754_infinity s | S754_finite s _ _ => s
  | S754_nan => false
  end.

(** The text of the magnitude with two decimals, the integer part grouped
    or not. *)
Definition magnitude (grouped : bool) (x : spec_float) : string :=
  match hundredths x with
  | Some (_, n) =>
      (if grouped then group3 (n / 100) else PyText.str_of_Z (n / 100)) ++
      "." ++ PyText.fmt_02d (n mod 100)
  | None => match x with S754_nan => "nan" | _ => "inf" end
  end.

Definition fixed2 (grouped : bool) (x : spec_float) : string :=
  (if sign_bit x then "-" else "") ++ magnitude grouped x.

(** [format(x, '.2f')]. *)
Definition format_2f : spec_float -> string := fixed2 false.

(** [format(x, ',.2f')]. *)
Definition format_grouped_2f : spec_float -> string := fixed2 true.

End PyFloat.

(** ** The world the bot runs in *)

Module Bot.
Import PyText PyFloat.

(** A [datetime.time] with hour and minute, the value of the store's
    [notify_time] column. *)
Record time_of_day := { hour : Z; minute : Z }.

(** A row of the table [error_logs] (the serial id and the timestamp are
    filled in by the store). *)
Record error_row := {
  er_function : string;
  er_chat : option Z;
  er_message : string
}.

(** A record handed to the [logging] module. *)
Inductive log_record :=
  | LogError (msg : string)
  | LogWarning (msg : string)
  | LogInfo (msg : string).

(** What arms a job: [run_daily] at a time of day, or [run_repeating] with
    an interval and the delay of the first run, both in minutes. *)
Inductive trigger :=
  | Daily (at_time : time_of_day)
  | Repeating (every_minutes : Z) (first_delay : Z).

(** A job of the queue; every job of the bot runs [send_rates].  [job_id]
    is the identity of the job object. *)
Record job := {
  job_id : nat;
  job_name : string;
  job_chat_id : Z;
  job_trigger : trigger
}.

(** What a request to the quote provider comes to: an exception (HTTP
    error, timeout, payload without the price), a payload whose status
    carries an error code, or a price. *)
Inductive provider_reply :=
  | Raises (e : string)
  | ErrorStatus
  | Price (p : spec_float).

(** What the request for the ranked listing comes to: an exception, a
    payload whose status carries an error code, or the symbols of the
    listed assets. *)
Inductive listing_reply :=
  | ListingRaises (e : string)
  | ListingError
  | Listing (symbols : list string).

(** An exception raised outside the bot's code, whose text the bot logs:
    by the store for a text it does not read as a time and for a NULL in
    [notify_time], and by the SDK for a daily job without a time. *)
Inductive foreign_error :=
  | TimeTextRejected (t : string)
  | TimeNullRejected
  | JobWithoutTime.

Record world := {
  (** table [subscriptions], unique on [(chat_id, symbol)] *)
  subscriptions : gset (Z * string);
  (** table [schedules], unique on [chat_id]: [(notify_time, enabled)] *)
  schedules : gmap Z (option time_of_day * bool);
  (** table [intervals], unique on [chat_id]: [(interval_minutes, enabled)] *)
  intervals : gmap Z (Z * bool);
  (** table [error_logs], oldest row first *)
  error_logs : list error_row;
  (** table [currency_data]: for a symbol, the rate of its latest row that
      is at least 24 hours old *)
  currency_data : string -> option spec_float;
  (** whether the column [schedules.notify_time] accepts NULL *)
  notify_time_nullable : bool;
  (** the store's conversion of a text parameter to a time of day *)
  time_input : string -> option time_of_day;
  (** the failures of the SQL statements to come, one entry per statement:
      [Some e] makes the statement raise [e]; when the list is used up no
      statement fails *)
  db_faults : list (option string);
  (** records of the [logging] module, oldest first *)
  log_records : list log_record;
  (** the provider's price-conversion and quotes endpoints, by symbol *)
  price_conversion : string -> provider_reply;
  quotes_latest : string -> provider_reply;
  (** [datetime.now().strftime("%Y-%m-%d %H:%M")] *)
  clock : string;
  (** the job queue of the application, [None] when the SDK has none *)
  job_queue : option (list job);
  next_job_id : nat;
  (** messages handed to the gateway, oldest first: [(chat_id, text)] *)
  outbox : list (Z * string);
  (** table [users], unique on [chat_id]: [chat_name] *)
  users : gmap Z string;
  (** the provider's listing of the 20 top-ranked assets *)
  listings_latest : listing_reply;
  (** the text of an exception of the store's driver or of the SDK *)
  error_text : foreign_error -> string
}.

Definition set_subscriptions (v : gset (Z * string)) (w : world) : world :=
  {| subscriptions := v; schedules := schedules w; intervals := intervals w;
     error_logs := error_logs w; currency_data := currency_data w;
     notify_time_nullable := notify_time_nullable w;
     time_input := time_input w; db_faults := db_faults w;
     log_records := log_records w; price_conversion := price_conversion w;
     quotes_latest := quotes_latest w; clock := clock w;
     job_queue := job_queue w; next_job_id := next_job_id w;
     outbox := outbox w;
     users := users w; listings_latest := listings_latest w;
     error_text := error_text w |}.

Definition set_schedules (v : gmap Z (option time_of_day * bool)) (w : world)
  : world :=
  {| subscriptions := subscriptions w; schedules := v; intervals := intervals w;
     error_logs := error_logs w; currency_data := currency_data w;
     notify_time_nullable := notify_time_nullable w;
     time_input := time_input w; db_faults := db_faults w;
     log_records := log_records w; price_conversion := price_conversion w;
     quotes_latest := quotes_latest w; clock := clock w;
     job_queue := job_queue w; next_job_id := next_job_id w;
     outbox := outbox w;
     users := users w; listings_latest := listings_latest w;
     error_text := error_text w |}.

Definition set_intervals (v : gmap Z (Z * bool)) (w : world) : world :=
  {| subscriptions := subscriptions w; schedules := schedules w; intervals := v;
     error_logs := error_logs w; currency_data := currency_data w;
     notify_time_nullable := notify_time_nullable w;
     time_input := time_input w; db_faults := db_faults w;
     log_records := log_records w; price_conversion := price_conversion w;
     quotes_latest := quotes_latest w; clock := clock w;
     job_queue := job_queue w; next_job_id := next_job_id w;
     outbox := outbox w;
     users := users w; listings_latest := listings_latest w;
     error_text := error_text w |}.

Definition set_error_logs (v : list error_row) (w : world) : world :=
  {| subscriptions := subscriptions w; schedules := schedules w;
     intervals := intervals w;
     error_logs := v; currency_data := currency_data w;
     notify_time_nullable := notify_time_nullable w;
     time_input := time_input w; db_faults := db_faults w;
     log_records := log_records w; price_conversion := price_conversion w;
     quotes_latest := quotes_latest w; clock := clock w;
     job_queue := job_queue w; next_job_id := next_job_id w;
     outbox := outbox w;
     users := users w; listings_latest := listings_latest w;
     error_text := error_text w |}.

Definition set_db_faults (v : list (option string)) (w : world) : world :=
  {| subscriptions := subscriptions w; schedules := schedules w;
     intervals := intervals w;
     error_logs := error_logs w; currency_data := currency_data w;
     notify_time_nullable := notify_time_nullable w;
     time_input := time_input w; db_faults := v;
     log_records := log_records w; price_conversion := price_conversion w;
     quotes_latest := quotes_latest w; clock := clock w;
     job_queue := job_queue w; next_job_id := next_job_id w;
     outbox := outbox w;
     users := users w; listings_latest := listings_latest w;
     error_text := error_text w |}.

Definition set_log_records (v : list log_record) (w : world) : world :=
  {| subscriptions := subscriptions w; schedules := schedules w;
     intervals := intervals w;
     error_logs := error_logs w; currency_data := currency_data w;
     notify_time_nullable := notify_time_nullable w;
     time_input := time_input w; db_faults := db_faults w;
     log_records := v; price_conversion := price_conversion w;
     quotes_latest := quotes_latest w; clock := clock w;
     job_queue := job_queue w; next_job_id := next_job_id w;
     outbox := outbox w;
     users := users w; listings_latest := listings_latest w;
     error_text := error_text w |}.

Definition set_jobs (v : list job) (next : nat) (w : world) : world :=
  {| subscriptions := subscriptions w; schedules := schedules w;
     intervals := intervals w;
     error_logs := error_logs w; currency_data := currency_data w;
     notify_time_nullable := notify_time_nullable w;
     time_input := time_input w; db_faults := db_faults w;
     log_records := log_records w; price_conversion := price_conversion w;
     quotes_latest := quotes_latest w; clock := clock w;
     job_queue := Some v; next_job_id := next;
     outbox := outbox w;
     users := users w; listings_latest := listings_latest w;
     error_text := error_text w |}.

Definition set_outbox (v : list (Z * string)) (w : world) : world :=
  {| subscriptions := subscriptions w; schedules := schedules w;
     intervals := intervals w;
     error_logs := error_logs w; currency_data := currency_data w;
     notify_time_nullable := notify_time_nullable w;
     time_input := time_input w; db_faults := db_faults w;
     log_records := log_records w; price_conversion := price_conversion w;
     quotes_latest := quotes_latest w; clock := clock w;
     job_queue := job_queue w; next_job_id := next_job_id w;
     outbox := v;
     users := users w; listings_latest := listings_latest w;
     error_text := error_text w |}.

Definition set_users (v : gmap Z string) (w : world) : world :=
  {| subscriptions := subscriptions w; schedules := schedules w;
     intervals := intervals w;
     error_logs := error_logs w; currency_data := currency_data w;
     notify_time_nullable := notify_time_nullable w;
     time_input := time_input w; db_faults := db_faults w;
     log_records := log_records w; price_conversion := price_conversion w;
     quotes_latest := quotes_latest w; clock := clock w;
     job_queue := job_queue w; next_job_id := next_job_id w;
     outbox := outbox w; users := v; listings_latest := listings_latest w;
     error_text := error_text w |}.

(** *** The monad of the bot's functions *)

Definition M (A : Type) : Type := world -> A * world.

Definition ret {A} (a : A) : M A := fun w => (a, w).

Definition bind {A B} (c : M A) (k : A -> M B) : M B :=
  fun w => let (a, w') := c w in k a w'.

Declare Scope bot_scope.
Delimit Scope bot_scope with bot.
Notation "x <- c1 ;; c2" := (bind c1 (fun x => c2))
  (at level 20, c1 at level 99, c2 at level 200, only parsing) : bot_scope.
Notation "c1 ;; c2" := (bind c1 (fun _ => c2))
  (at level 100, c2 at level 200, only parsing) : bot_scope.
Open Scope bot_scope.

(** The outcome of a block that may raise: the message of the exception or
    the value. *)
Definition outcome (A : Type) : Type := (string + A)%type.

Definition logger_error (msg : string) : M unit :=
  fun w => (tt, set_log_records (log_records w ++ [LogError msg])%list w).

Definition logger_warning (msg : string) : M unit :=
  fun w => (tt, set_log_records (log_records w ++ [LogWarning msg])%list w).

Definition logger_info (msg : string) : M unit :=
  fun w => (tt, set_log_records (log_records w ++ [LogInfo msg])%list w).

(** The next entry of the failure oracle. *)
Definition next_fault : M (option string) :=
  fun w =>
    match db_faults w with
    | [] => (None, w)
    | f :: rest => (f, set_db_faults rest w)
    end.

(** One SQL statement run in a connection of its own and committed.  The
    statement [stmt] says what the store does with it: it raises, or it
    returns a value and the tables after it.  A failure of the connection,
    of the statement or of the commit leaves the tables as they were. *)
Definition sql {A} (stmt : world -> outcome (A * world)) : M (outcome A) :=
  f <- next_fault ;;
  match f with
  | Some e => ret (inl e)
  | None => fun w =>
      match stmt w with
      | inl e => (inl e, w)
      | inr (a, w') => (inr a, w')
      end
  end.

Definition log_error_to_db (function_name : string) (chat_id : option Z)
    (error_message : string) : M unit :=
  r <- sql (fun w => inr (tt, set_error_logs
         (error_logs w ++ [{| er_function := function_name;
                              er_chat := chat_id;
                              er_message := error_message |}])%list w)) ;;
  match r with
  | inr _ => ret tt
  | inl e => logger_error ("Не удалось записать ошибку в БД: " ++ e)
  end.

(** The [except Exception as e] block shared by the functions of the bot:
    [err = f"{name}: {e}"], [logger.error(err)], [log_error_to_db]. *)
Definition report_error (function_name : string) (chat_id : option Z)
    (e : string) : M unit :=
  let err := function_name ++ ": " ++ e in
  logger_error err ;;
  log_error_to_db function_name chat_id err.

(** *** Subscription store *)

(** [INSERT INTO users ... ON CONFLICT (chat_id) DO NOTHING]. *)
Definition insert_user (chat_id : Z) (chat_name : string) (w : world)
  : outcome (unit * world) :=
  match users w !! chat_id with
  | Some _ => inr (tt, w)
  | None => inr (tt, set_users (<[chat_id := chat_name]> (users w)) w)
  end.

Definition add_user (chat_id : Z) (chat_name : string) : M unit :=
  r <- sql (insert_user chat_id chat_name) ;;
  match r with
  | inr _ => ret tt
  | inl e => report_error "add_user" (Some chat_id) e
  end.

(** The order of [ORDER BY symbol]: byte-wise comparison of the texts. *)
Definition symbol_le (a b : string) : Prop := String.leb a b = true.

#[global] Instance symbol_le_dec : RelDecision symbol_le.
Proof. intros a b. unfold symbol_le. apply _. Defined.

(** [INSERT INTO subscriptions ... ON CONFLICT (chat_id, symbol) DO NOTHING];
    the value is the row count. *)
Definition insert_subscription (row : Z * string) (w : world)
  : outcome (Z * world) :=
  if decide (row ∈ subscriptions w) then inr (0, w)
  else inr (1, set_subscriptions ({[row]} ∪ subscriptions w) w).

(** [DELETE FROM subscriptions WHERE ...]; the value is the row count. *)
Definition delete_subscriptions (P : Z * string -> Prop)
    `{!∀ row, Decision (P row)} (w : world) : outcome (Z * world) :=
  let hit := filter P (subscriptions w) in
  inr (Z.of_nat (size hit), set_subscriptions (subscriptions w ∖ hit) w).

(** [SELECT symbol FROM subscriptions WHERE chat_id = %s ORDER BY symbol]. *)
Definition select_symbols (chat_id : Z) (w : world) : outcome (list string * world) :=
  inr (merge_sort symbol_le
         (elements (filter (λ row, row.1 = chat_id) (subscriptions w))).*2, w).

Definition add_subscription (chat_id : Z) (symbol : string) : M bool :=
  r <- sql (insert_subscription (chat_id, upper symbol)) ;;
  match r with
  | inr changed => ret (changed =? 1)
  | inl e => report_error "add_subscription" (Some chat_id) e ;; ret false
  end.

Definition remove_subscription (chat_id : Z) (symbol : string) : M bool :=
  r <- sql (delete_subscriptions (λ row, row = (chat_id, upper symbol))) ;;
  match r with
  | inr changed => ret (changed =? 1)
  | inl e => report_error "remove_subscription" (Some chat_id) e ;; ret false
  end.

Definition clear_subscriptions (chat_id : Z) : M Z :=
  r <- sql (delete_subscriptions (λ row, row.1 = chat_id)) ;;
  match r with
  | inr deleted => ret deleted
  | inl e => report_error "clear_subscriptions" (Some chat_id) e ;; ret 0
  end.

Definition list_subscriptions (chat_id : Z) : M (list string) :=
  r <- sql (select_symbols chat_id) ;;
  match r with
  | inr rows => ret rows
  | inl e => report_error "list_subscriptions" (Some chat_id) e ;; ret []
  end.

(** [INSERT INTO schedules ... ON CONFLICT (chat_id) DO UPDATE].  The store
    converts the text of the time, and refuses NULL unless the column
    accepts it; the text of either failure is the driver's. *)
Definition insert_schedule (chat_id : Z) (notify_time : option string)
    (enabled : bool) (w : world) : outcome (unit * world) :=
  match notify_time with
  | None =>
      if notify_time_nullable w
      then inr (tt, set_schedules (<[chat_id := (None, enabled)]> (schedules w)) w)
      else inl (error_text w TimeNullRejected)
  | Some t =>
      match time_input w t with
      | Some tm =>
          inr (tt, set_schedules (<[chat_id := (Some tm, enabled)]> (schedules w)) w)
      | None => inl (error_text w (TimeTextRejected t))
      end
  end.

Definition upsert_schedule (chat_id : Z) (notify_time : option string)
    (enabled : bool) : M unit :=
  r <- sql (insert_schedule chat_id notify_time enabled) ;;
  match r with
  | inr _ => ret tt
  | inl e => report_error "upsert_schedule" (Some chat_id) e
  end.

(** [time_obj.strftime("%H:%M")]. *)
Definition strftime_HM (t : time_of_day) : string :=
  fmt_02d (hour t) ++ ":" ++ fmt_02d (minute t).

(** [SELECT notify_time, enabled FROM schedules WHERE chat_id = %s], then
    [fetchone]. *)
Definition select_schedule (chat_id : Z) (w : world)
  : outcome (option (option time_of_day * bool) * world) :=
  inr (schedules w !! chat_id, w).

(** A row whose [notify_time] is NULL makes [time_obj.strftime] raise
    inside the [try] block. *)
Definition get_schedule (chat_id : Z) : M (option string * bool) :=
  r <- sql (select_schedule chat_id) ;;
  match r with
  | inr (Some (Some time_obj, enabled)) => ret (Some (strftime_HM time_obj), enabled)
  | inr (Some (None, _)) =>
      report_error "get_schedule" (Some chat_id)
        "'NoneType' object has no attribute 'strftime'" ;;
      ret (None, false)
  | inr None => ret (None, false)
  | inl e => report_error "get_schedule" (Some chat_id) e ;; ret (None, false)
  end.

(** [UPDATE intervals SET enabled = %s WHERE chat_id = %s] when
    [interval_minutes] is [None], else
    [INSERT INTO intervals ... ON CONFLICT (chat_id) DO UPDATE]. *)
Definition write_interval (chat_id : Z) (interval_minutes : option Z)
    (enabled : bool) (w : world) : outcome (unit * world) :=
  match interval_minutes with
  | None =>
      inr (tt, set_intervals
                 (alter (λ row, (row.1, enabled)) chat_id (intervals w)) w)
  | Some m =>
      inr (tt, set_intervals (<[chat_id := (m, enabled)]> (intervals w)) w)
  end.

Definition upsert_interval (chat_id : Z) (interval_minutes : option Z)
    (enabled : bool) : M unit :=
  r <- sql (write_interval chat_id interval_minutes enabled) ;;
  match r with
  | inr _ => ret tt
  | inl e => report_error "upsert_interval" (Some chat_id) e
  end.

Definition select_interval (chat_id : Z) (w : world)
  : outcome (option (Z * bool) * world) :=
  inr (intervals w !! chat_id, w).

Definition get_interval (chat_id : Z) : M (option Z * bool) :=
  r <- sql (select_interval chat_id) ;;
  match r with
  | inr (Some (m, enabled)) => ret (Some m, enabled)
  | inr None => ret (None, false)
  | inl e => report_error "get_interval" (Some chat_id) e ;; ret (None, false)
  end.

(** *** Quote provider *)

(** [get_top20_symbols()]; an empty listing counts as a bad payload.  The
    warning is written without the payload. *)
Definition get_top20_symbols : M (list string) :=
  fun w =>
    match listings_latest w with
    | Listing (sym :: rest) => (sym :: rest, w)
    | Listing [] | ListingError =>
        (logger_warning "Некорректный ответ CMC top-20" ;; ret []) w
    | ListingRaises e =>
        (let err := "get_top20_symbols: " ++ e in
         logger_error err ;;
         log_error_to_db "get_top20_symbols" None err ;;
         ret []) w
    end.

Definition fiat_list : list string := ["USD"; "EUR"; "RUB"; "GBP"; "JPY"; "CNY"].

(** [get_exchange_rate(symbol, 'USD')]: every call of the bot converts to
    USD.  The warnings are written without the payload. *)
Definition get_exchange_rate (symbol : string) : M (option spec_float) :=
  fun w =>
    let fiat := bool_decide (upper symbol ∈ fiat_list) in
    let reply := if fiat then price_conversion w (upper symbol)
                 else quotes_latest w (upper symbol) in
    match reply with
    | Price p => (Some p, w)
    | ErrorStatus =>
        (logger_warning (if fiat then "Некорректный ответ CMC price-conversion"
                         else "Некорректный ответ CMC quotes/latest") ;;
         ret None) w
    | Raises e =>
        (let err := "get_exchange_rate (" ++ symbol ++ "->USD): " ++ e in
         logger_error err ;;
         log_error_to_db "get_exchange_rate" None err ;;
         ret None) w
    end.

Definition select_rate (symbol : string) (w : world)
  : outcome (option spec_float * world) :=
  inr (currency_data w symbol, w).

Definition get_yesterday_rate (symbol : string) : M (option spec_float) :=
  r <- sql (select_rate (upper symbol)) ;;
  match r with
  | inr row => ret row
  | inl e => report_error "get_yesterday_rate" None e ;; ret None
  end.

(** *** Report lines *)

Definition nl : string := String (ascii_of_N 10) EmptyString.

Definition SYMBOL_NAMES : list (string * (string * string)) :=
  [ ("USD", ("Доллар", "$")); ("EUR", ("Евро", "$")); ("RUB", ("Рубль", "$"));
    ("CNY", ("Юань", "$")); ("BTC", ("BTC", "$")); ("ETH", ("ETH", "$"));
    ("XAU", ("Золото", "$")); ("BRENT", ("Brent", "$"));
    ("MOEX", ("Мосбиржа", "$")); ("RTS", ("РТС", "$")); ("RGBI", ("RGBI", "$")) ].

(** [SYMBOL_NAMES.get(sym, (sym, '$'))]. *)
Definition symbol_name (sym : string) : string * string :=
  match list_find (λ entry, entry.1 = sym) SYMBOL_NAMES with
  | Some (_, (_, v)) => v
  | None => (sym, "$")
  end.

Definition arrow_up : string := "🟢".
Definition arrow_down : string := "🔻".
Definition arrow_flat : string := "⏺".
Definition no_data_mark : string := "❓".

(** [pct = (current - yesterday)/yesterday*100.0]. *)
Definition percent_change (current yesterday : spec_float) : spec_float :=
  fmul (fdiv (fsub current yesterday) yesterday) (of_Z 100).

(** The pair [(arrow, pct_str)] of a line whose current price is known. *)
Definition trend (current : spec_float) (yesterday : option spec_float)
  : string * string :=
  match yesterday with
  | Some y =>
      if eq0 y then (arrow_flat, "0.00%")
      else
        let pct := percent_change current y in
        (if gt0 pct then arrow_up else if lt0 pct then arrow_down else arrow_flat,
         (if gt0 pct then "+" else "") ++ format_2f pct ++ "%")
  | None => (arrow_flat, "0.00%")
  end.

(** One line of the report, the body of the loop over the subscriptions in
    [send_rates] and in [rates_cmd]. *)
Definition rate_line (sym : string) (current yesterday : option spec_float)
  : string :=
  let (name, sign) := symbol_name sym in
  match current with
  | None => no_data_mark ++ name ++ " — нет текущих данных"
  | Some c =>
      let (arrow, pct_str) := trend c yesterday in
      let price_str :=
        replace_char ","%char " "%char (sign ++ format_grouped_2f c) in
      arrow ++ name ++ " " ++ pct_str ++ "  " ++ price_str
  end.

Fixpoint rate_lines (subs : list string) : M (list string) :=
  match subs with
  | [] => ret []
  | sym :: rest =>
      current <- get_exchange_rate sym ;;
      yesterday <- get_yesterday_rate sym ;;
      lines <- rate_lines rest ;;
      ret (rate_line sym current yesterday :: lines)
  end.

Definition report_text (now : string) (lines : list string) : string :=
  "Курсы на " ++ now ++ ":" ++ nl ++ join nl lines.

(** *** Messaging gateway and job queue *)

(** [update.message.reply_text(text)] and
    [context.bot.send_message(chat_id, text)]: the message goes out. *)
Definition send_message (chat_id : Z) (text : string) : M unit :=
  fun w => (tt, set_outbox (outbox w ++ [(chat_id, text)])%list w).

Definition reply_text : Z -> string -> M unit := send_message.

(** [f"daily_{chat_id}"] and [f"interval_{chat_id}"]. *)
Definition daily_name (chat_id : Z) : string := "daily_" ++ str_of_Z chat_id.
Definition interval_name (chat_id : Z) : string := "interval_" ++ str_of_Z chat_id.

(** [if context.job_queue: ... else: ...]. *)
Definition if_job_queue {A} (present absent : M A) : M A :=
  fun w => match job_queue w with
           | Some _ => present w
           | None => absent w
           end.

Definition add_job (name : string) (chat_id : Z) (trig : trigger) : M unit :=
  fun w =>
    match job_queue w with
    | Some jobs =>
        (tt, set_jobs (jobs ++ [{| job_id := next_job_id w; job_name := name;
                                   job_chat_id := chat_id; job_trigger := trig |}])%list
               (S (next_job_id w)) w)
    | None => (tt, w)
    end.

(** [job_queue.run_daily(send_rates, time, chat_id=..., name=...)]; a
    [None] in place of the time makes the SDK raise. *)
Definition run_daily (time : option time_of_day) (chat_id : Z) (name : string)
  : M (outcome unit) :=
  match time with
  | Some t => add_job name chat_id (Daily t) ;; ret (inr tt)
  | None => fun w => (inl (error_text w JobWithoutTime), w)
  end.

(** [timedelta(minutes=m)], in minutes: the days that the minutes make
    have to be within the range of [timedelta], else it raises
    [OverflowError]. *)
Definition timedelta_minutes (m : Z) : outcome Z :=
  let days := m / 1440 in
  if (-999999999 <=? days) && (days <=? 999999999) then inr m
  else if (-2147483648 <=? days) && (days <=? 2147483647)
       then inl ("days=" ++ str_of_Z days ++ "; must have magnitude <= 999999999")
       else inl "Python int too large to convert to C int".

(** [job_queue.run_repeating(send_rates, interval=..., first=0,
    chat_id=..., name=...)] for an interval of [minutes] minutes. *)
Definition run_repeating (minutes : Z) (chat_id : Z) (name : string) : M unit :=
  add_job name chat_id (Repeating minutes 0).

Definition get_jobs_by_name (name : string) : M (list job) :=
  fun w => (filter (λ j, job_name j = name) (default [] (job_queue w)), w).

(** [job.schedule_removal()]: that job leaves the queue. *)
Definition schedule_removal (j : job) : M unit :=
  fun w =>
    match job_queue w with
    | Some jobs =>
        (tt, set_jobs (filter (λ j', job_id j' ≠ job_id j) jobs) (next_job_id w) w)
    | None => (tt, w)
    end.

(** [for x in xs: body(x)]. *)
Fixpoint for_each {A} (xs : list A) (body : A -> M unit) : M unit :=
  match xs with
  | [] => ret tt
  | x :: rest => body x ;; for_each rest body
  end.

Definition remove_jobs_by_name (name : string) : M unit :=
  jobs <- get_jobs_by_name name ;;
  for_each jobs schedule_removal.

Definition no_job_queue : string :=
  "JobQueue недоступен. Убедитесь, что установлен python-telegram-bot версии ≥ 22.".

(** *** Command handlers *)

(** [try: body except Exception as e: handler(e)]. *)
Definition try_except (body : M (outcome unit)) (handler : string -> M unit)
  : M unit :=
  r <- body ;;
  match r with
  | inr _ => ret tt
  | inl e => handler e
  end.

(** The text of a [ValueError] raised by Python itself ([int], unpacking,
    [time]) is abbreviated to this one; a bare [raise ValueError] has the
    empty text. *)
Definition value_error : string := "ValueError".

(** [start]; [chat_name] is the first name, the user name or the id of the
    chat, whichever the update has first. *)
Definition start (chat_id : Z) (chat_name : string) : M unit :=
  add_user chat_id chat_name ;;
  reply_text chat_id
    ("Привет, " ++ chat_name ++ "! Я — бот для отслеживания курсов." ++ nl ++ nl ++
     "Доступные команды:" ++ nl ++
     "/subscribe <SYMBOL> — подписаться на курс (например, /subscribe BTC)" ++ nl ++
     "/unsubscribe <SYMBOL> — отписаться от курса" ++ nl ++
     "/unsubscribe_all — отписаться от всех сразу" ++ nl ++
     "/subscribe_top20 — подписаться на топ-20 криптовалют сразу" ++ nl ++
     "/list — показать текущие подписки" ++ nl ++
     "/rates — показать текущие курсы ваших подписок в долларах" ++ nl ++
     "/settime HH:MM — установить время ежедневных уведомлений" ++ nl ++
     "/autoupdate on — включить автоуведомления" ++ nl ++
     "/autoupdate off — выключить автоуведомления" ++ nl ++
     "/setinterval <минуты> — установить периодические уведомления (каждые N минут)" ++ nl ++
     "/clearinterval — выключить периодические уведомления" ++ nl ++ nl ++
     "Пример: /subscribe USD").

Definition subscribe_cmd (chat_id : Z) (args : list string) : M unit :=
  match args with
  | [] => reply_text chat_id
            "Пожалуйста, укажите тикер: /subscribe USD или /subscribe BTC"
  | a :: _ =>
      let symbol := upper a in
      success <- add_subscription chat_id symbol ;;
      if success : bool
      then reply_text chat_id ("Теперь подписан на " ++ symbol ++ " ✅")
      else reply_text chat_id
             ("Не удалось подписаться (возможно, вы уже подписаны на " ++ symbol ++ ")")
  end.

Definition unsubscribe_cmd (chat_id : Z) (args : list string) : M unit :=
  match args with
  | [] => reply_text chat_id "Укажите тикер для отписки: /unsubscribe BTC"
  | a :: _ =>
      let symbol := upper a in
      success <- remove_subscription chat_id symbol ;;
      if success : bool
      then reply_text chat_id ("Отписались от " ++ symbol ++ " ✅")
      else reply_text chat_id ("Вы не были подписаны на " ++ symbol)
  end.

Definition unsubscribe_all_cmd (chat_id : Z) : M unit :=
  deleted <- clear_subscriptions chat_id ;;
  if 0 <? deleted
  then reply_text chat_id
         ("Вы отписались от всех " ++ str_of_Z deleted ++ " подписок ✅")
  else reply_text chat_id "У вас не было подписок для удаления.".

(** The loop of [subscribe_top20_cmd]: the symbols newly subscribed and
    the symbols for which [add_subscription] returned [False]. *)
Fixpoint subscribe_each (chat_id : Z) (symbols : list string)
  : M (list string * list string) :=
  match symbols with
  | [] => ret ([], [])
  | sym :: rest =>
      ok <- add_subscription chat_id sym ;;
      r <- subscribe_each chat_id rest ;;
      ret (if ok : bool then (sym :: fst r, snd r) else (fst r, sym :: snd r))
  end.

Definition subscribe_top20_cmd (chat_id : Z) : M unit :=
  symbols <- get_top20_symbols ;;
  match symbols with
  | [] => reply_text chat_id "Не удалось получить топ-20. Попробуйте позже."
  | _ =>
      r <- subscribe_each chat_id symbols ;;
      let (added, already) := r : list string * list string in
      let added_part :=
        match added with
        | [] => []
        | _ => ["Подписаны на топ-20:" ++ nl ++ join ", " added]
        end in
      let already_part :=
        match already with
        | [] => []
        | _ => ["Уже были подписки:" ++ nl ++ join ", " already]
        end in
      reply_text chat_id (join (nl ++ nl) (app added_part already_part))
  end.

Definition list_cmd (chat_id : Z) : M unit :=
  subs <- list_subscriptions chat_id ;;
  match subs with
  | [] => reply_text chat_id
            "У вас пока нет подписок. Используйте /subscribe <SYMBOL>"
  | _ => reply_text chat_id ("Ваши подписки:" ++ nl ++ join nl subs)
  end.

Definition rates_cmd (chat_id : Z) : M unit :=
  subs <- list_subscriptions chat_id ;;
  match subs with
  | [] => reply_text chat_id
            "Вы ещё ни на одну валюту не подписаны. Используйте /subscribe <SYMBOL>."
  | _ =>
      now <- (fun w => (clock w, w)) ;;
      lines <- rate_lines subs ;;
      reply_text chat_id (report_text now lines)
  end.

Definition valid_hh_mm (hh mm : Z) : bool :=
  (0 <=? hh) && (hh <? 24) && (0 <=? mm) && (mm <? 60).

Definition settime_cmd (chat_id : Z) (args : list string) : M unit :=
  try_except
    (match args with
     | [] =>
         reply_text chat_id
           "Укажите время в формате HH:MM (например, /settime 15:30)." ;;
         ret (inr tt)
     | t :: _ =>
         match parse_hh_mm t with
         | None => ret (inl value_error)
         | Some (hh, mm) =>
             if negb (valid_hh_mm hh mm) then ret (inl "")
             else
               upsert_schedule chat_id (Some t) false ;;
               reply_text chat_id
                 ("Время ежедневных уведомлений установлено на " ++ t ++
                  ". Чтобы включить, используйте /autoupdate on") ;;
               ret (inr tt)
         end
     end)
    (fun e =>
       report_error "settime_cmd" (Some chat_id) e ;;
       reply_text chat_id
         "Неверный формат времени. Используйте HH:MM в 24-часовом формате.").

(** [time(hour=hh, minute=mm)]. *)
Definition py_time (hh mm : Z) : outcome time_of_day :=
  if valid_hh_mm hh mm then inr {| hour := hh; minute := mm |}
  else inl value_error.

Definition autoupdate_cmd (chat_id : Z) (args : list string) : M unit :=
  try_except
    (match args with
     | [] => reply_text chat_id "Укажите on или off: /autoupdate on" ;; ret (inr tt)
     | a :: _ =>
         let mode := lower a in
         sched <- get_schedule chat_id ;;
         match fst sched with
         | None | Some EmptyString =>
             reply_text chat_id "Сначала установите время через /settime HH:MM" ;;
             ret (inr tt)
         | Some notify_time_str =>
             match parse_hh_mm notify_time_str with
             | None => ret (inl value_error)
             | Some (hh, mm) =>
                 match py_time hh mm with
                 | inl e => ret (inl e)
                 | inr notify_time_obj =>
                     if String.eqb mode "on" then
                       upsert_schedule chat_id (Some notify_time_str) true ;;
                       reply_text chat_id
                         ("Ежедневные уведомления включены. Каждый день в " ++
                          notify_time_str ++ " я пришлю курсы.") ;;
                       if_job_queue
                         (run_daily (Some notify_time_obj) chat_id (daily_name chat_id))
                         (logger_error no_job_queue ;; ret (inr tt))
                     else if String.eqb mode "off" then
                       upsert_schedule chat_id (Some notify_time_str) false ;;
                       reply_text chat_id "Ежедневные уведомления выключены." ;;
                       if_job_queue
                         (remove_jobs_by_name (daily_name chat_id) ;; ret (inr tt))
                         (logger_error no_job_queue ;; ret (inr tt))
                     else
                       reply_text chat_id
                         "Неверный параметр. Используйте /autoupdate on или /autoupdate off" ;;
                       ret (inr tt)
                 end
             end
         end
     end)
    (fun e => report_error "autoupdate_cmd" (Some chat_id) e).

Definition setinterval_cmd (chat_id : Z) (args : list string) : M unit :=
  try_except
    (match args with
     | [] =>
         reply_text chat_id "Укажите интервал в минутах: /setinterval 60" ;;
         ret (inr tt)
     | a :: _ =>
         match py_int a with
         | None => ret (inl value_error)
         | Some minutes =>
             if minutes <=? 0 then ret (inl "")
             else
               upsert_interval chat_id (Some minutes) true ;;
               reply_text chat_id
                 ("Периодические уведомления включены: каждые " ++
                  str_of_Z minutes ++ " минут.") ;;
               if_job_queue
                 (remove_jobs_by_name (interval_name chat_id) ;;
                  match timedelta_minutes minutes with
                  | inl e => ret (inl e)
                  | inr interval =>
                      run_repeating interval chat_id (interval_name chat_id) ;;
                      ret (inr tt)
                  end)
                 (logger_error no_job_queue ;; ret (inr tt))
         end
     end)
    (fun e =>
       report_error "setinterval_cmd" (Some chat_id) e ;;
       reply_text chat_id
         "Неверный интервал. Введите целое положительное число минут.").

Definition clearinterval_cmd (chat_id : Z) : M unit :=
  row <- get_interval chat_id ;;
  if negb (snd row) then
    reply_text chat_id "Периодические уведомления уже выключены."
  else
    upsert_interval chat_id None false ;;
    reply_text chat_id "Периодические уведомления выключены." ;;
    if_job_queue
      (remove_jobs_by_name (interval_name chat_id))
      (logger_error "JobQueue недоступен. Убедитесь, что установлен python-telegram-bот версии ≥ 22.").

(** *** Scheduled delivery *)

(** [int(job.name.split("_")[-1])]. *)
Definition job_name_chat_id (name : string) : option Z :=
  py_int (last_part (split_on "_"%char name)).

Definition send_rates (j : job) : M unit :=
  try_except
    (match job_name_chat_id (job_name j) with
     | None => ret (inl value_error)
     | Some chat_id =>
         subs <- list_subscriptions chat_id ;;
         match subs with
         | [] =>
             sched <- get_schedule chat_id ;;
             upsert_schedule chat_id (fst sched) false ;;
             upsert_interval chat_id None false ;;
             schedule_removal j ;;
             ret (inr tt)
         | _ =>
             now <- (fun w => (clock w, w)) ;;
             lines <- rate_lines subs ;;
             send_message chat_id (report_text now lines) ;;
             ret (inr tt)
         end
     end)
    (fun e => report_error "send_rates" (job_name_chat_id (job_name j)) e).

(** *** Start of the process *)

(** [SELECT chat_id, notify_time FROM schedules WHERE enabled = TRUE]. *)
Definition select_enabled_schedules (w : world)
  : outcome (list (Z * option time_of_day) * world) :=
  inr ((λ kv, (kv.1, kv.2.1)) <$>
         map_to_list (filter (λ kv, kv.2.2 = true) (schedules w)), w).

(** [SELECT chat_id, interval_minutes FROM intervals WHERE enabled = TRUE]. *)
Definition select_enabled_intervals (w : world)
  : outcome (list (Z * Z) * world) :=
  inr ((λ kv, (kv.1, kv.2.1)) <$>
         map_to_list (filter (λ kv, kv.2.2 = true) (intervals w)), w).

Fixpoint restore_daily (rows : list (Z * option time_of_day)) : M (outcome unit) :=
  match rows with
  | [] => ret (inr tt)
  | (chat_id, notify_time_obj) :: rest =>
      r <- if_job_queue
             (run_daily notify_time_obj chat_id (daily_name chat_id))
             (logger_error "JobQueue недоступен при старте ежедневных. Установите python-telegram-bot ≥ 22." ;;
              ret (inr tt)) ;;
      match r with
      | inl e => ret (inl e)
      | inr _ => restore_daily rest
      end
  end.

(** The loop over the interval rows.  The minutes are values of a column
    of the store, and [timedelta] is taken to accept them. *)
Fixpoint restore_intervals (rows : list (Z * Z)) : M unit :=
  match rows with
  | [] => ret tt
  | (chat_id, interval_minutes) :: rest =>
      if_job_queue
        (run_repeating interval_minutes chat_id (interval_name chat_id))
        (logger_error "JobQueue недоступен при старте интервалов. Установите python-telegram-bot ≥ 22.") ;;
      restore_intervals rest
  end.

Definition on_startup : M unit :=
  try_except
    (rows <- sql select_enabled_schedules ;;
     match rows with
     | inl e => ret (inl e)
     | inr rows =>
         r <- restore_daily rows ;;
         match r with
         | inl e => ret (inl e)
         | inr _ =>
             rows_i <- sql select_enabled_intervals ;;
             match rows_i with
             | inl e => ret (inl e)
             | inr rows_i =>
                 restore_intervals rows_i ;;
                 logger_info "Загружены существующие задачи уведомлений." ;;
                 ret (inr tt)
             end
         end
     end)
    (fun e => report_error "on_startup" None e).

(** *** Worlds to run the bot in *)

(** A time input that reads [H:M] texts, as [parse_hh_mm] does, and
    rejects every other text. *)
Definition hh_mm_input (t : string) : option time_of_day :=
  match parse_hh_mm t with
  | Some (hh, mm) =>
      if valid_hh_mm hh mm then Some {| hour := hh; minute := mm |} else None
  | None => None
  end.

(** Texts for the exceptions of the store and of the SDK in the sample
    worlds. *)
Definition sample_error_text (e : foreign_error) : string :=
  match e with
  | TimeTextRejected t => "invalid input syntax for type time: " ++ t
  | TimeNullRejected => "null value in column notify_time"
  | JobWithoutTime => "a daily job needs a time"
  end.

(** A fresh process over an empty store: no rows, no timers, a job queue,
    no failure to come, and a provider without quotes. *)
Definition empty_world : world :=
  {| subscriptions := ∅; schedules := ∅; intervals := ∅; error_logs := [];
     currency_data := λ _, None; notify_time_nullable := true;
     time_input := hh_mm_input; db_faults := []; log_records := [];
     price_conversion := λ _, ErrorStatus; quotes_latest := λ _, ErrorStatus;
     clock := "2025-01-01 09:00"; job_queue := Some []; next_job_id := 0%nat;
     outbox := []; users := ∅; listings_latest := ListingError;
     error_text := sample_error_text |}.

(** The world after a command or a fire. *)
Definition run {A} (c : M A) (w : world) : world := snd (c w).

(** The next SQL statement does not fail. *)
Definition statement_ok (w : world) : Prop := fst (next_fault w) = None.

(** [add_subscription] called for each symbol of a list, in order. *)
Definition add_all (chat_id : Z) (symbols : list string) (w : world) : world :=
  foldl (λ w symbol, run (add_subscription chat_id symbol) w) w symbols.

(** The job [setinterval_cmd] and [on_startup] arm for an interval. *)
Definition interval_job (id : nat) (chat_id minutes : Z) : job :=
  {| job_id := id; job_name := interval_name chat_id; job_chat_id := chat_id;
     job_trigger := Repeating minutes 0 |}.

(** The [enabled] flags of a chat in the store; no row counts as
    disabled. *)
Definition daily_enabled (w : world) (chat_id : Z) : bool :=
  match schedules w !! chat_id with
  | Some (_, enabled) => enabled
  | None => false
  end.

Definition interval_enabled (w : world) (chat_id : Z) : bool :=
  match intervals w !! chat_id with
  | Some (_, enabled) => enabled
  | None => false
  end.

(** A schedule row without a time is there only when the column accepts
    NULL, and is disabled: the one place where the bot writes such a row,
    in [send_rates], writes it with [enabled = False]. *)
Definition schedule_rows_ok (w : world) : Prop :=
  ∀ chat_id enabled,
    schedules w !! chat_id = Some (None, enabled) →
    notify_time_nullable w = true ∧ enabled = false.

(** The store accepts the text [HH:MM] of the time in the chat's schedule
    row. *)
Definition reads_back (w : world) (chat_id : Z) : Prop :=
  ∀ t enabled,
    schedules w !! chat_id = Some (Some t, enabled) →
    is_Some (time_input w (strftime_HM t)).



(** The scenario of a chat that subscribes, arms its daily schedule for
    09:00 and then clears its subscriptions. *)
Definition cleared_chat_world : world :=
  run (unsubscribe_all_cmd 7)
    (run (autoupdate_cmd 7 ["on"])
       (run (settime_cmd 7 ["09:00"])
          (run (subscribe_cmd 7 ["USD"])
             (run (subscribe_cmd 7 ["BTC"]) empty_world)))).

(** A store with the rows [schedules(chat=1, time=08:00, enabled=true)] and
    [intervals(chat=2, minutes=15, enabled=true)], and no timer. *)
Definition restart_world : world :=
  set_intervals {[ 2 := (15, true) ]}
    (set_schedules {[ 1 := (Some {| hour := 8; minute := 0 |}, true) ]}
       empty_world).

(** A process of a chat subscribed to BTC, ETH and EUR, with its interval
    job in the queue: the provider quotes BTC at 110, converts EUR at 1.08
    and has no quote for ETH; the rates of the day before in the store are
    100 for BTC and 1.2 for EUR. *)
Definition report_world : world :=
  {| subscriptions := {[ (7, "BTC"); (7, "ETH"); (7, "EUR"); (8, "USD") ]};
     schedules := ∅; intervals := {[ 7 := (30, true) ]}; error_logs := [];
     currency_data := λ symbol,
       if String.eqb symbol "BTC" then Some (of_Z 100)
       else if String.eqb symbol "EUR" then Some (fdiv (of_Z 6) (of_Z 5))
       else None;
     notify_time_nullable := true; time_input := hh_mm_input;
     db_faults := []; log_records := [];
     price_conversion := λ symbol,
       if String.eqb symbol "EUR" then Price (fdiv (of_Z 27) (of_Z 25))
       else ErrorStatus;
     quotes_latest := λ symbol,
       if String.eqb symbol "BTC" then Price (of_Z 110) else ErrorStatus;
     clock := "2025-01-01 09:00"; job_queue := Some [interval_job 0 7 30];
     next_job_id := 1%nat; outbox := []; users := ∅;
     listings_latest := ListingError; error_text := sample_error_text |}.

(** *** The bot as a state machine *)

(** What the process reacts to: a command of a chat, the job queue running
    one of its jobs, and the start of a new process over the store. *)
Inductive event :=
  | Start (chat_id : Z) (chat_name : string)
  | Subscribe (chat_id : Z) (args : list string)
  | Unsubscribe (chat_id : Z) (args : list string)
  | UnsubscribeAll (chat_id : Z)
  | SubscribeTop20 (chat_id : Z)
  | ListSubscriptions (chat_id : Z)
  | Rates (chat_id : Z)
  | SetTime (chat_id : Z) (args : list string)
  | AutoUpdate (chat_id : Z) (args : list string)
  | SetInterval (chat_id : Z) (args : list string)
  | ClearInterval (chat_id : Z)
  | Fire (j : job)
  | Restart (with_job_queue : bool).

(** A new process over the same store: no timer, no message sent yet. *)
Definition new_process (with_job_queue : bool) (w : world) : world :=
  {| subscriptions := subscriptions w; schedules := schedules w;
     intervals := intervals w;
     error_logs := error_logs w; currency_data := currency_data w;
     notify_time_nullable := notify_time_nullable w;
     time_input := time_input w; db_faults := db_faults w;
     log_records := []; price_conversion := price_conversion w;
     quotes_latest := quotes_latest w; clock := clock w;
     job_queue := if with_job_queue then Some [] else None;
     next_job_id := 0%nat;
     outbox := []; users := users w; listings_latest := listings_latest w;
     error_text := error_text w |}.

(** [main]: the application is built, [on_startup] runs, and only then the
    process polls for commands. *)
Definition main (with_job_queue : bool) : M unit :=
  fun w => on_startup (new_process with_job_queue w).

Definition handle (ev : event) : M unit :=
  match ev with
  | Start chat_id chat_name => start chat_id chat_name
  | Subscribe chat_id args => subscribe_cmd chat_id args
  | Unsubscribe chat_id args => unsubscribe_cmd chat_id args
  | UnsubscribeAll chat_id => unsubscribe_all_cmd chat_id
  | SubscribeTop20 chat_id => subscribe_top20_cmd chat_id
  | ListSubscriptions chat_id => list_cmd chat_id
  | Rates chat_id => rates_cmd chat_id
  | SetTime chat_id args => settime_cmd chat_id args
  | AutoUpdate chat_id args => autoupdate_cmd chat_id args
  | SetInterval chat_id args => setinterval_cmd chat_id args
  | ClearInterval chat_id => clearinterval_cmd chat_id
  | Fire j => send_rates j
  | Restart with_job_queue => main with_job_queue
  end.

(** The queue runs only jobs that it holds. *)
Definition possible (w : world) (ev : event) : Prop :=
  match ev with
  | Fire j => j ∈ default [] (job_queue w)
  | _ => True
  end.

(** The worlds the bot can be in: the first process starts over a store
    without schedule rows, whatever else the store holds and whichever
    statements will fail; [main] runs [on_startup] before any event is
    handled. *)
Inductive reachable : world → Prop :=
  | reachable_start w q : schedules w = ∅ → reachable (run (main q) w)
  | reachable_step w ev :
      reachable w → possible w ev → reachable (run (handle ev) w).

(** A job as the bot arms them: named after its chat and its kind. *)
Definition canonical_job (j : job) : Prop :=
  (job_name j = daily_name (job_chat_id j) ∧ ∃ t, job_trigger j = Daily t) ∨
  (job_name j = interval_name (job_chat_id j) ∧
   ∃ m, job_trigger j = Repeating m 0).

(** The jobs of the queue are canonical and have distinct ids, all of them
    used up. *)
Definition queue_ok (w : world) : Prop :=
  ∀ jobs, job_queue w = Some jobs →
    Forall (λ j, (job_id j < next_job_id w)%nat ∧ canonical_job j) jobs ∧
    NoDup (job_id <$> jobs).

Definition bot_ok (w : world) : Prop := schedule_rows_ok w ∧ queue_ok w.

(** [c] keeps [I]. *)
Definition preserves {A} (I : world → Prop) (c : M A) : Prop :=
  ∀ w, I w → I (run c w).

(** [c] touches neither the timers nor the schedule rows. *)
Definition neutral {A} (c : M A) : Prop :=
  ∀ w, job_queue (run c w) = job_queue w ∧
       next_job_id (run c w) = next_job_id w ∧
       schedules (run c w) = schedules w ∧
       notify_time_nullable (run c w) = notify_time_nullable w.

(** *** Relations between the world before and after *)

(** The process side is untouched: timers, outgoing messages, clock,
    provider and the fixed parts of the store. *)
Definition same_process (w w' : world) : Prop :=
  job_queue w' = job_queue w ∧ next_job_id w' = next_job_id w ∧
  outbox w' = outbox w ∧ clock w' = clock w ∧
  time_input w' = time_input w ∧
  notify_time_nullable w' = notify_time_nullable w ∧
  currency_data w' = currency_data w ∧
  price_conversion w' = price_conversion w ∧
  quotes_latest w' = quotes_latest w.

(** The three tables of the subscription store are untouched. *)
Definition same_tables (w w' : world) : Prop :=
  subscriptions w' = subscriptions w ∧ schedules w' = schedules w ∧
  intervals w' = intervals w.

(** *** More relations between the world before and after *)

(** The tables and the timers of [w'] are those of [w]. *)
Definition same_state (w w' : world) : Prop :=
  same_tables w w' ∧ job_queue w' = job_queue w ∧ next_job_id w' = next_job_id w.

(** Each chat has at most one job under its interval name in the queue. *)
Definition one_interval_job (w : world) : Prop :=
  ∀ chat, (length (fst (get_jobs_by_name (interval_name chat) w)) ≤ 1)%nat.

(** The store of [w'] is that of [w]: the three tables and the failures
    to come. *)
Definition same_store (w w' : world) : Prop :=
  same_tables w w' ∧ db_faults w' = db_faults w.

End Bot.

(** * Facts *)

Import PyText PyFloat Bot.

(** ** Text *)

Section text_facts.

Lemma py_digits_of_uint (d : uint) (b : bool) :
  d ≠ Nil ∨ b = true →
  py_digits b (NilEmpty.string_of_uint d) = Some d.
Proof.
  revert b. induction d; intros b Hb; simpl;
    try (rewrite (IHd true) by (right; reflexivity); reflexivity).
  destruct Hb as [Hb | ->]; [congruence | reflexivity].
Qed.

Lemma int_text_of_uint (d : uint) :
  int_text (NilEmpty.string_of_uint d) = NilEmpty.string_of_uint d.
Proof.
  unfold int_text. induction d; cbn [NilEmpty.string_of_uint int_text_from];
    [reflexivity | ..]; change (is_ascii _) with true; cbv iota; by rewrite IHd.
Qed.

Lemma int_literal_of_uint (d : uint) :
  d ≠ Nil → int_literal (NilEmpty.string_of_uint d) = Some (Z.of_uint d).
Proof.
  intros Hd.
  assert (H : py_digits false (NilEmpty.string_of_uint d) = Some d)
    by (apply py_digits_of_uint; left; exact Hd).
  destruct d; try congruence; unfold int_literal;
    simpl NilEmpty.string_of_uint in *; cbv iota; rewrite H; reflexivity.
Qed.

Lemma py_int_of_uint (d : uint) :
  d ≠ Nil → py_int (NilEmpty.string_of_uint d) = Some (Z.of_uint d).
Proof.
  intros Hd. unfold py_int. rewrite int_text_of_uint.
  by apply int_literal_of_uint.
Qed.

(** [int(str(z)) == z]. *)
Lemma py_int_str_of_Z (z : Z) : py_int (str_of_Z z) = Some z.
Proof.
  destruct z as [| p | p]; cbn [str_of_Z].
  - reflexivity.
  - rewrite py_int_of_uint by apply DecimalPos.Unsigned.to_uint_nonnil.
    unfold Z.of_uint. rewrite DecimalPos.Unsigned.of_to. reflexivity.
  - unfold py_int, int_text. cbn [int_text_from].
    change (is_ascii "-") with true. cbv iota.
    fold (int_text (NilEmpty.string_of_uint (Pos.to_uint p))).
    rewrite int_text_of_uint. unfold int_literal.
    rewrite py_digits_of_uint
      by (left; apply DecimalPos.Unsigned.to_uint_nonnil).
    simpl. unfold Z.of_uint. rewrite DecimalPos.Unsigned.of_to. reflexivity.
Qed.

Lemma has_char_of_uint (c : ascii) (d : uint) :
  digit_of_char c = None → has_char c (NilEmpty.string_of_uint d) = false.
Proof.
  intros Hc.
  induction d; cbn [has_char NilEmpty.string_of_uint]; try reflexivity;
    rewrite IHd;
    match goal with
    | |- Ascii.eqb ?x c || false = false =>
        destruct (Ascii.eqb x c) eqn:E; [| reflexivity];
        apply Ascii.eqb_eq in E; subst c; discriminate Hc
    end.
Qed.

Lemma str_of_Z_no_underscore (z : Z) : has_char "_"%char (str_of_Z z) = false.
Proof.
  destruct z; simpl; try reflexivity; apply has_char_of_uint; reflexivity.
Qed.

Lemma split_on_no_sep (sep : ascii) (s : string) :
  has_char sep s = false → split_on sep s = [s].
Proof.
  induction s as [| c r IH]; simpl; [reflexivity |].
  intros H. apply orb_false_iff in H as [Hc Hr].
  rewrite Hc, (IH Hr). reflexivity.
Qed.

Lemma split_on_nonempty (sep : ascii) (s : string) : split_on sep s ≠ [].
Proof.
  destruct s as [| c r]; simpl; [discriminate |].
  destruct (Ascii.eqb c sep); [discriminate |].
  destruct (split_on sep r); discriminate.
Qed.

Lemma split_on_app (sep : ascii) (p r : string) :
  split_on sep (p ++ String sep r) = (split_on sep p ++ split_on sep r)%list.
Proof.
  induction p as [| c p IH]; simpl.
  - by rewrite Ascii.eqb_refl.
  - rewrite IH. destruct (Ascii.eqb c sep); [reflexivity |].
    destruct (split_on sep p) eqn:E; [by apply split_on_nonempty in E |].
    reflexivity.
Qed.

Lemma last_part_split_app (sep : ascii) (p r : string) :
  last_part (split_on sep (p ++ String sep r)) = last_part (split_on sep r).
Proof.
  rewrite split_on_app. unfold last_part.
  destruct (split_on sep r) as [| h t] eqn:E using rev_ind;
    [by apply split_on_nonempty in E |].
  by rewrite app_assoc, !last_snoc.
Qed.

(** The chat id read back from the name of a job is the one the name was
    made from. *)
Lemma job_name_chat_id_daily (chat_id : Z) :
  job_name_chat_id (daily_name chat_id) = Some chat_id.
Proof.
  unfold job_name_chat_id, daily_name.
  change ("daily_" ++ str_of_Z chat_id)
    with ("daily" ++ String "_"%char (str_of_Z chat_id)).
  rewrite last_part_split_app, split_on_no_sep by apply str_of_Z_no_underscore.
  apply py_int_str_of_Z.
Qed.

Lemma job_name_chat_id_interval (chat_id : Z) :
  job_name_chat_id (interval_name chat_id) = Some chat_id.
Proof.
  unfold job_name_chat_id, interval_name.
  change ("interval_" ++ str_of_Z chat_id)
    with ("interval" ++ String "_"%char (str_of_Z chat_id)).
  rewrite last_part_split_app, split_on_no_sep by apply str_of_Z_no_underscore.
  apply py_int_str_of_Z.
Qed.

(** The text [HH:MM] of a time of day reads back as its hour and minute. *)
Lemma parse_hh_mm_canonical (hh mm : Z) :
  0 <= hh < 24 → 0 <= mm < 60 →
  parse_hh_mm (fmt_02d hh ++ ":" ++ fmt_02d mm) = Some (hh, mm).
Proof.
  intros Hh Hm.
  assert (Hall : forallb (λ h, forallb (λ m,
            bool_decide (parse_hh_mm (fmt_02d h ++ ":" ++ fmt_02d m) = Some (h, m)))
            (seqZ 0 60)) (seqZ 0 24) = true) by (vm_compute; reflexivity).
  rewrite forallb_forall in Hall.
  assert (Hh' : In hh (seqZ 0 24)) by (apply list_elem_of_In, elem_of_seqZ; lia).
  specialize (Hall hh Hh'). rewrite forallb_forall in Hall.
  assert (Hm' : In mm (seqZ 0 60)) by (apply list_elem_of_In, elem_of_seqZ; lia).
  specialize (Hall mm Hm'). by apply bool_decide_eq_true in Hall.
Qed.

Lemma valid_hh_mm_spec (hh mm : Z) :
  valid_hh_mm hh mm = true ↔ 0 <= hh < 24 ∧ 0 <= mm < 60.
Proof. unfold valid_hh_mm. rewrite !andb_true_iff. lia. Qed.

(** [str_of_Z] writes the decimal digits of a natural number, as the
    Standard Library does. *)
Lemma str_of_Z_decimal (k : Z) :
  0 <= k → str_of_Z k = NilZero.string_of_uint (N.to_uint (Z.to_N k)).
Proof.
  destruct k as [| p | p]; [done | | lia]. intros _. cbn.
  unfold NilZero.string_of_uint.
  pose proof (DecimalPos.Unsigned.to_uint_nonnil p) as Hp.
  by destruct (Pos.to_uint p).
Qed.

Lemma join_concat (sep : string) (parts : list string) :
  join sep parts = String.concat sep parts.
Proof.
  induction parts as [| p [| q rest] IH]; [done | done |].
  cbn in *. by rewrite IH.
Qed.

End text_facts.

(** ** The order of [ORDER BY symbol] *)

Section symbol_order.

Lemma ascii_compare_N (a b : ascii) :
  Ascii.compare a b = N.compare (N_of_ascii a) (N_of_ascii b).
Proof. reflexivity. Qed.

Lemma string_compare_lt_trans (a b c : string) :
  String.compare a b = Lt → String.compare b c = Lt → String.compare a c = Lt.
Proof.
  revert b c. induction a as [| x a IH]; intros [| y b] [| z c]; simpl;
    try congruence.
  rewrite !ascii_compare_N.
  destruct (N.compare_spec (N_of_ascii x) (N_of_ascii y)) as [Exy | Lxy | Gxy];
    try congruence;
  destruct (N.compare_spec (N_of_ascii y) (N_of_ascii z)) as [Eyz | Lyz | Gyz];
    try congruence; intros H1 H2.
  - rewrite Exy, Eyz, N.compare_refl. eauto.
  - rewrite Exy. by rewrite (proj2 (N.compare_lt_iff _ _) Lyz).
  - rewrite <- Eyz. by rewrite (proj2 (N.compare_lt_iff _ _) Lxy).
  - by rewrite (proj2 (N.compare_lt_iff _ _) (N.lt_trans _ _ _ Lxy Lyz)).
Qed.

#[global] Instance symbol_le_total : Total symbol_le.
Proof. intros a b. apply String.leb_total. Qed.

#[global] Instance symbol_le_antisymm : AntiSymm (=) symbol_le.
Proof. intros a b. apply String.leb_antisym. Qed.

#[global] Instance symbol_le_trans : Transitive symbol_le.
Proof.
  intros a b c. unfold symbol_le, String.leb.
  destruct (String.compare a b) eqn:Hab; try discriminate;
  destruct (String.compare b c) eqn:Hbc; try discriminate; intros _ _.
  - apply String.compare_eq_iff in Hab, Hbc. subst.
    destruct (String.compare c c) eqn:E; try reflexivity.
    pose proof (String.compare_antisym c c) as H. rewrite E in H. discriminate.
  - apply String.compare_eq_iff in Hab. subst. by rewrite Hbc.
  - apply String.compare_eq_iff in Hbc. subst. by rewrite Hab.
  - by rewrite (string_compare_lt_trans a b c).
Qed.

End symbol_order.

(** ** The monad, and what the functions of the store leave alone *)

(** Unfold the monad and the store layer down to the fields of the world. *)
Ltac exec :=
  unfold run, bind, ret, sql, next_fault, report_error, log_error_to_db,
    logger_error, logger_warning, logger_info, reply_text, send_message,
    try_except, set_subscriptions, set_schedules, set_intervals,
    set_error_logs, set_db_faults, set_log_records, set_jobs, set_outbox,
    set_users in *;
  cbn [subscriptions schedules intervals error_logs currency_data
       notify_time_nullable time_input db_faults log_records price_conversion
       quotes_latest clock job_queue next_job_id outbox users listings_latest
       error_text fst snd] in *.

Ltac exec_all := repeat (exec; try case_match; simplify_eq).


Section frames.

Lemma same_process_refl (w : world) : same_process w w.
Proof. by repeat split. Qed.

Lemma same_process_trans (w1 w2 w3 : world) :
  same_process w1 w2 → same_process w2 w3 → same_process w1 w3.
Proof.
  unfold same_process. intros H1 H2. destruct_and!. repeat split; congruence.
Qed.

Lemma report_error_frame (fn : string) (c : option Z) (e : string) (w : world) :
  same_process w (run (report_error fn c e) w) ∧
  same_tables w (run (report_error fn c e) w).
Proof.
  destruct w. unfold same_process, same_tables. exec_all; by repeat split.
Qed.

Lemma bind_run {A B} (c : M A) (k : A → M B) (w : world) :
  run (bind c k) w = run (k (fst (c w))) (run c w).
Proof. unfold run, bind. by destruct (c w). Qed.

Lemma bind_fst {A B} (c : M A) (k : A → M B) (w : world) :
  fst (bind c k w) = fst (k (fst (c w)) (run c w)).
Proof. unfold run, bind. by destruct (c w). Qed.

Lemma run_ret {A} (a : A) (w : world) : run (ret a) w = w.
Proof. reflexivity. Qed.

Lemma run_send_message (chat : Z) (text : string) (w : world) :
  run (send_message chat text) w =
    {| subscriptions := subscriptions w; schedules := schedules w;
       intervals := intervals w; error_logs := error_logs w;
       currency_data := currency_data w;
       notify_time_nullable := notify_time_nullable w;
       time_input := time_input w; db_faults := db_faults w;
       log_records := log_records w; price_conversion := price_conversion w;
       quotes_latest := quotes_latest w; clock := clock w;
       job_queue := job_queue w; next_job_id := next_job_id w;
       outbox := (outbox w ++ [(chat, text)])%list;
       users := users w; listings_latest := listings_latest w;
     error_text := error_text w |}.
Proof. reflexivity. Qed.

Lemma run_try_except (body : M (outcome unit)) (handler : string → M unit)
    (w : world) :
  run (try_except body handler) w =
    match fst (body w) with
    | inr _ => run body w
    | inl e => run (handler e) (run body w)
    end.
Proof. unfold try_except. rewrite bind_run. by destruct (fst (body w)). Qed.

(** What a store operation whose statement does not fail makes of the
    oracle: the entry is used up. *)
Lemma sql_ok {A} (stmt : world → outcome (A * world)) (w : world) :
  statement_ok w →
  sql stmt w =
    match stmt (run next_fault w) with
    | inl e => (inl e, run next_fault w)
    | inr (a, w') => (inr a, w')
    end.
Proof.
  unfold statement_ok, sql, bind, run. destruct (next_fault w) as [f w'].
  simpl. by intros ->.
Qed.

Lemma next_fault_frame (w : world) :
  same_process w (run next_fault w) ∧ same_tables w (run next_fault w) ∧
  log_records (run next_fault w) = log_records w ∧
  error_logs (run next_fault w) = error_logs w.
Proof.
  destruct w. unfold same_process, same_tables. exec.
  by case_match; repeat split.
Qed.

Lemma same_tables_trans (w1 w2 w3 : world) :
  same_tables w1 w2 → same_tables w2 w3 → same_tables w1 w3.
Proof.
  unfold same_tables. intros H1 H2. destruct_and!. repeat split; congruence.
Qed.

Lemma list_subscriptions_frame (chat : Z) (w : world) :
  same_process w (run (list_subscriptions chat) w) ∧
  same_tables w (run (list_subscriptions chat) w).
Proof.
  destruct w. unfold same_process, same_tables, list_subscriptions, select_symbols.
  exec_all; by repeat split.
Qed.

Lemma get_schedule_frame (chat : Z) (w : world) :
  same_process w (run (get_schedule chat) w) ∧
  same_tables w (run (get_schedule chat) w).
Proof.
  destruct w. unfold same_process, same_tables, get_schedule, select_schedule.
  exec_all; by repeat split.
Qed.

Lemma upsert_schedule_frame (chat : Z) (t : option string) (en : bool)
    (w : world) :
  same_process w (run (upsert_schedule chat t en) w) ∧
  subscriptions (run (upsert_schedule chat t en) w) = subscriptions w ∧
  intervals (run (upsert_schedule chat t en) w) = intervals w.
Proof.
  destruct w. unfold same_process, upsert_schedule, insert_schedule.
  exec_all; by repeat split.
Qed.

Lemma upsert_interval_frame (chat : Z) (m : option Z) (en : bool) (w : world) :
  same_process w (run (upsert_interval chat m en) w).
Proof.
  destruct w. unfold same_process, upsert_interval, write_interval.
  exec_all; by repeat split.
Qed.

Lemma get_exchange_rate_frame (sym : string) (w : world) :
  same_process w (run (get_exchange_rate sym) w) ∧
  same_tables w (run (get_exchange_rate sym) w).
Proof.
  destruct w. unfold same_process, same_tables, get_exchange_rate.
  exec_all; by repeat split.
Qed.

Lemma get_yesterday_rate_frame (sym : string) (w : world) :
  same_process w (run (get_yesterday_rate sym) w) ∧
  same_tables w (run (get_yesterday_rate sym) w).
Proof.
  destruct w. unfold same_process, same_tables, get_yesterday_rate, select_rate.
  exec_all; by repeat split.
Qed.

Lemma rate_lines_frame (subs : list string) (w : world) :
  same_process w (run (rate_lines subs) w) ∧
  same_tables w (run (rate_lines subs) w) ∧
  length (fst (rate_lines subs w)) = length subs.
Proof.
  revert w. induction subs as [| sym subs IH]; intros w.
  - cbn. by repeat split.
  - cbn [rate_lines]. rewrite !bind_fst, !bind_run. cbn [ret fst].
    rewrite run_ret.
    destruct (get_exchange_rate_frame sym w) as [Hp1 Ht1].
    set (w1 := run (get_exchange_rate sym) w) in *.
    destruct (get_yesterday_rate_frame sym w1) as [Hp2 Ht2].
    set (w2 := run (get_yesterday_rate sym) w1) in *.
    destruct (IH w2) as (Hp3 & Ht3 & Hl).
    split; [| split].
    + eauto using same_process_trans.
    + eauto using same_tables_trans.
    + cbn. by rewrite Hl.
Qed.

Lemma list_subscriptions_ok (chat : Z) (w : world) :
  db_faults w = [] →
  fst (list_subscriptions chat w) =
    merge_sort symbol_le
      (elements (filter (λ row, row.1 = chat) (subscriptions w))).*2.
Proof.
  intros Hf. unfold list_subscriptions, select_symbols, sql.
  unfold bind, next_fault. by rewrite Hf.
Qed.

Lemma list_subscriptions_run_ok (chat : Z) (w : world) :
  db_faults w = [] → run (list_subscriptions chat) w = w.
Proof.
  intros Hf. unfold list_subscriptions, select_symbols, sql, run.
  unfold bind, next_fault. by rewrite Hf.
Qed.

Lemma get_schedule_ok (chat : Z) (w : world) :
  db_faults w = [] →
  fst (get_schedule chat w) =
    match schedules w !! chat with
    | Some (Some t, en) => (Some (strftime_HM t), en)
    | _ => (None, false)
    end ∧
  db_faults (run (get_schedule chat) w) = [].
Proof.
  destruct w. cbn. intros ->. unfold get_schedule, select_schedule.
  exec_all; by repeat split.
Qed.

Lemma upsert_schedule_ok (chat : Z) (t : string) (tm : time_of_day)
    (en : bool) (w : world) :
  statement_ok w → time_input w t = Some tm →
  let w' := run (upsert_schedule chat (Some t) en) w in
  schedules w' = <[chat := (Some tm, en)]> (schedules w) ∧
  subscriptions w' = subscriptions w ∧ intervals w' = intervals w ∧
  db_faults w' = db_faults (run next_fault w) ∧
  log_records w' = log_records w ∧ error_logs w' = error_logs w ∧
  same_process w w'.
Proof.
  intros Hok Ht. unfold run at 1, upsert_schedule, bind.
  rewrite sql_ok by done.
  destruct (next_fault_frame w) as (Hp & (Hs & Hd & Hi) & Hl & He).
  remember (run next_fault w) as w0 eqn:E. clear E.
  unfold insert_schedule, same_process in *.
  replace (time_input w0 t) with (Some tm) by (symmetry; destruct_and!; congruence).
  unfold ret, set_schedules; cbn. rewrite Hs, Hd, Hi, Hl, He.
  repeat split; tauto.
Qed.

Lemma upsert_schedule_run_ok (chat : Z) (t : option string) (en : bool)
    (w : world) :
  db_faults w = [] →
  db_faults (run (upsert_schedule chat t en) w) = [] ∧
  schedules (run (upsert_schedule chat t en) w) =
    match insert_schedule chat t en w with
    | inr (_, w') => schedules w'
    | inl _ => schedules w
    end.
Proof.
  destruct w. cbn. intros ->. unfold upsert_schedule, insert_schedule.
  exec_all; by repeat split.
Qed.

Lemma upsert_interval_run_ok (chat : Z) (en : bool) (w : world) :
  db_faults w = [] →
  intervals (run (upsert_interval chat None en) w) =
    alter (λ row, (row.1, en)) chat (intervals w) ∧
  schedules (run (upsert_interval chat None en) w) = schedules w ∧
  subscriptions (run (upsert_interval chat None en) w) = subscriptions w.
Proof.
  destruct w. cbn. intros ->. unfold upsert_interval, write_interval.
  exec_all; by repeat split.
Qed.

End frames.

(** ** The subscription store *)

Section store.

(** C8: when the SQL statement of a store operation fails, the operation
    returns its default value ([False], [0], [[]], [(None, False)], or
    nothing for the two upserts) and does what the [except] block says:
    the tables are as before, the message goes to the logger, and a row is
    written to [error_logs] unless that statement fails as well. *)
Theorem store_failure_safe_default (w : world) (e : string)
    (rest : list (option string)) (chat : Z) (sym : string) (m : option Z)
    (t : option string) (en : bool) :
  db_faults w = Some e :: rest →
  let w0 := set_db_faults rest w in
  let logged name := run (report_error name (Some chat) e) w0 in
  add_subscription chat sym w = (false, logged "add_subscription") ∧
  remove_subscription chat sym w = (false, logged "remove_subscription") ∧
  clear_subscriptions chat w = (0, logged "clear_subscriptions") ∧
  list_subscriptions chat w = ([], logged "list_subscriptions") ∧
  upsert_schedule chat t en w = (tt, logged "upsert_schedule") ∧
  get_schedule chat w = ((None, false), logged "get_schedule") ∧
  upsert_interval chat m en w = (tt, logged "upsert_interval") ∧
  get_interval chat w = ((None, false), logged "get_interval") ∧
  ∀ name,
    let err := name ++ ": " ++ e in
    same_tables w (logged name) ∧ same_process w (logged name) ∧
    match rest with
    | Some e' :: _ =>
        error_logs (logged name) = error_logs w ∧
        log_records (logged name) =
          (log_records w ++
             [LogError err; LogError ("Не удалось записать ошибку в БД: " ++ e')])%list
    | _ =>
        error_logs (logged name) =
          (error_logs w ++ [{| er_function := name; er_chat := Some chat;
                               er_message := err |}])%list ∧
        log_records (logged name) = (log_records w ++ [LogError err])%list
    end.
Proof.
  intros Hf w0 logged. subst logged w0.
  unfold add_subscription, remove_subscription, clear_subscriptions,
    list_subscriptions, upsert_schedule, get_schedule, upsert_interval,
    get_interval.
  unfold bind at 1 3 5 7 9 11 13 15. unfold sql, bind, next_fault.
  rewrite Hf. unfold ret, run. cbn beta iota.
  repeat (split; [by destruct (report_error _ _ _ _) as [[] ?] |]).
  intros name. destruct w. simpl in Hf. subst.
  unfold same_tables, same_process. exec.
  destruct rest as [| [e' |] rest']; cbn; repeat split;
    by rewrite <- ?app_assoc.
Qed.

Lemma store_failure_safe_default_witness :
  let w := set_db_faults [Some "connection refused"] empty_world in
  add_subscription 7 "btc" w =
    (false, run (report_error "add_subscription" (Some 7) "connection refused")
              (set_db_faults [] w)).
Proof.
  intros w.
  exact (proj1 (store_failure_safe_default w "connection refused" [] 7 "btc"
                  None None false eq_refl)).
Defined.

End store.

Section subscriptions.

Lemma add_subscription_upper (chat : Z) (a b : string) :
  upper a = upper b → add_subscription chat a = add_subscription chat b.
Proof. unfold add_subscription. by intros ->. Qed.

(** After an [add_subscription] whose statement did not fail the row is in
    the table, and nothing else has changed there. *)
Lemma add_subscription_ok (chat : Z) (sym : string) (w : world) :
  statement_ok w →
  let (r, w') := add_subscription chat sym w in
  r = bool_decide ((chat, upper sym) ∉ subscriptions w) ∧
  subscriptions w' = {[(chat, upper sym)]} ∪ subscriptions w ∧
  db_faults w' = db_faults (run next_fault w) ∧
  schedules w' = schedules w ∧ intervals w' = intervals w ∧
  same_process w w'.
Proof.
  intros Hok. unfold add_subscription, bind. rewrite sql_ok by done.
  destruct (next_fault_frame w) as (Hp & (Hs & Hd & Hi) & _).
  remember (run next_fault w) as w0 eqn:E. clear E.
  unfold insert_subscription, same_process in *. rewrite Hs.
  destruct (decide ((chat, upper sym) ∈ subscriptions w)) as [Hin | Hin];
    unfold ret, set_subscriptions; cbn.
  - rewrite bool_decide_eq_false_2 by auto.
    rewrite Hs, Hd, Hi. repeat split; try tauto. clear -Hin. set_solver.
  - rewrite bool_decide_eq_true_2 by auto.
    rewrite Hd, Hi. repeat split; tauto.
Qed.

(** Whatever the store does, an [add_subscription] for a row that is there
    returns [False] and leaves the table as it is. *)
Lemma add_subscription_present (chat : Z) (sym : string) (w : world) :
  (chat, upper sym) ∈ subscriptions w →
  let (r, w') := add_subscription chat sym w in
  r = false ∧ subscriptions w' = subscriptions w.
Proof.
  intros Hin. destruct w. unfold add_subscription, insert_subscription.
  exec. repeat (case_match; exec; simplify_eq); try done.
Qed.

(** C5: [add_subscription] stores and looks up the upper-case symbol, so
    two spellings of a symbol make the same call; after a call whose
    statement did not fail the upper-case row is in the table, and a second
    call with any spelling of the symbol returns [False] and leaves the
    subscriptions unchanged. *)
Theorem add_subscription_case_insensitive (w : world) (chat : Z) (a b : string) :
  upper a = upper b →
  statement_ok w →
  add_subscription chat a w = add_subscription chat b w ∧
  let (r1, w1) := add_subscription chat a w in
  let (r2, w2) := add_subscription chat b w1 in
  subscriptions w1 = {[(chat, upper a)]} ∪ subscriptions w ∧
  r2 = false ∧ subscriptions w2 = subscriptions w1.
Proof.
  intros Hab Hok. split; [by rewrite (add_subscription_upper chat a b) |].
  pose proof (add_subscription_ok chat a w Hok) as H1.
  destruct (add_subscription chat a w) as [r1 w1].
  destruct H1 as (_ & Hs & _).
  assert (Hin : (chat, upper b) ∈ subscriptions w1)
    by (rewrite <- Hab, Hs; set_solver).
  pose proof (add_subscription_present chat b w1 Hin) as H2.
  destruct (add_subscription chat b w1) as [r2 w2].
  destruct H2 as [-> ->]. done.
Qed.

Lemma add_subscription_case_insensitive_witness :
  add_subscription 7 "btc" empty_world = add_subscription 7 "BTC" empty_world ∧
  let (r1, w1) := add_subscription 7 "btc" empty_world in
  let (r2, w2) := add_subscription 7 "BTC" w1 in
  subscriptions w1 = {[(7, upper "btc")]} ∪ subscriptions empty_world ∧
  r2 = false ∧ subscriptions w2 = subscriptions w1.
Proof.
  exact (add_subscription_case_insensitive empty_world 7 "btc" "BTC"
           eq_refl eq_refl).
Defined.

Example add_subscription_cyrillic :
  let w1 := run (add_subscription 7 "ётн") empty_world in
  fst (add_subscription 7 "ётн" empty_world) = true ∧
  fst (add_subscription 7 "ЁТН" w1) = false ∧
  elements (subscriptions w1) = [(7, "ЁТН")] ∧
  elements (subscriptions (run (add_subscription 7 "ЁТН") w1)) = [(7, "ЁТН")].
Proof. vm_compute. by repeat split. Qed.

Lemma size_filter_eq_row (row : Z * string) (s : gset (Z * string)) :
  filter (λ r, r = row) s = if decide (row ∈ s) then {[row]} else ∅.
Proof.
  apply set_eq. intros r. rewrite elem_of_filter.
  destruct (decide (row ∈ s)); set_solver.
Qed.

(** C9: [remove_subscription] returns [True] exactly when the row of the
    chat and the upper-case symbol was in the table and is no longer there;
    when the statement does not fail and the row is in the table, the row
    is deleted, the other rows stay and [True] is returned; when the chat
    is not subscribed to the symbol it returns [False] and the
    subscriptions are unchanged. *)
Theorem remove_subscription_iff (w : world) (chat : Z) (sym : string) :
  let row := (chat, upper sym) in
  let (r, w') := remove_subscription chat sym w in
  (r = true ↔ row ∈ subscriptions w ∧ row ∉ subscriptions w') ∧
  (r = true → subscriptions w' = subscriptions w ∖ {[row]}) ∧
  (row ∉ subscriptions w → r = false ∧ subscriptions w' = subscriptions w) ∧
  (statement_ok w → row ∈ subscriptions w →
   r = true ∧ subscriptions w' = subscriptions w ∖ {[row]}).
Proof.
  intros row. subst row. destruct w as [subs ? ? ? ? ? ? faults ? ? ? ? ? ? ? ? ? ?].
  unfold remove_subscription, delete_subscriptions, statement_ok. exec.
  destruct faults as [| [e |] rest]; exec; rewrite ?size_filter_eq_row.
  1, 3: destruct (decide ((chat, upper sym) ∈ subs));
    rewrite ?size_singleton, ?size_empty; cbn;
    (split; [| split; [| split]]); [split | ..]; try done; try set_solver.
  destruct rest as [| [e' |] rest']; cbn; (split; [| split; [| split]]);
    [split | ..]; try done; set_solver.
Qed.

Example remove_subscription_deletes :
  let w := add_all 7 ["btc"; "ётн"] (add_all 8 ["btc"] empty_world) in
  fst (remove_subscription 7 "Btc" w) = true ∧
  fst (list_subscriptions 7 (run (remove_subscription 7 "Btc") w)) = ["ЁТН"] ∧
  fst (list_subscriptions 8 (run (remove_subscription 7 "Btc") w)) = ["BTC"] ∧
  fst (remove_subscription 7 "eth" w) = false.
Proof. vm_compute. by repeat split. Qed.

End subscriptions.

Section listing.

Lemma add_all_ok (chat : Z) (symbols : list string) (w : world) :
  db_faults w = [] →
  subscriptions (add_all chat symbols w) =
    list_to_set ((λ s, (chat, upper s)) <$> symbols) ∪ subscriptions w ∧
  db_faults (add_all chat symbols w) = [].
Proof.
  revert w. induction symbols as [| s symbols IH]; intros w Hf; simpl.
  - split; [set_solver | done].
  - assert (Hok : statement_ok w) by (unfold statement_ok, next_fault; by rewrite Hf).
    pose proof (add_subscription_ok chat s w Hok) as H.
    unfold run. destruct (add_subscription chat s w) as [r w1]. simpl.
    destruct H as (_ & Hs & Hd & _).
    assert (Hf1 : db_faults w1 = [])
      by (rewrite Hd; unfold run, next_fault; by rewrite Hf).
    destruct (IH w1 Hf1) as [IHs IHf]. split; [| done].
    rewrite IHs, Hs. set_solver.
Qed.

Lemma rows_of_symbols (chat : Z) (symbols : list string) :
  (λ s, (chat, upper s)) <$> symbols = (λ u, (chat, u)) <$> (upper <$> symbols).
Proof. induction symbols; csimpl; by f_equal. Qed.

Lemma fmap_snd_pair (chat : Z) (l : list string) :
  ((λ u, (chat, u)) <$> l).*2 = l.
Proof. induction l; csimpl; by f_equal. Qed.

(** C6: starting from a chat without subscriptions and a store that does
    not fail, after [add_subscription] for symbols that differ after
    normalisation, [list_subscriptions] returns the normalised symbols in
    ascending order, and the same list whatever the order of the calls. *)
Theorem list_subscriptions_sorted (w : world) (chat : Z) (symbols : list string) :
  db_faults w = [] →
  (∀ s, (chat, s) ∉ subscriptions w) →
  NoDup (upper <$> symbols) →
  let listed := fst (list_subscriptions chat (add_all chat symbols w)) in
  StronglySorted symbol_le listed ∧
  listed ≡ₚ upper <$> symbols ∧
  ∀ symbols', symbols' ≡ₚ symbols →
    fst (list_subscriptions chat (add_all chat symbols' w)) = listed.
Proof.
  intros Hf Hnone Hnd listed. subst listed.
  destruct (add_all_ok chat symbols w Hf) as [Hs Hf'].
  rewrite list_subscriptions_ok by done. split; [| split].
  - apply StronglySorted_merge_sort; apply _.
  - rewrite merge_sort_Permutation, Hs.
    assert (Hflt : filter (λ row : Z * string, row.1 = chat)
              (list_to_set ((λ s, (chat, upper s)) <$> symbols) ∪ subscriptions w)
            = list_to_set ((λ s, (chat, upper s)) <$> symbols)).
    { apply set_eq. intros [c s]. rewrite elem_of_filter, elem_of_union,
        !elem_of_list_to_set, !list_elem_of_fmap. simpl. split.
      - intros [-> [H | H]]; [done | by apply Hnone in H].
      - intros (x & [= -> ->] & Hx). split; [done |]. left. eauto. }
    rewrite Hflt, (rows_of_symbols chat symbols).
    rewrite elements_list_to_set
      by (apply NoDup_fmap_2; [by intros ?? [=] | done]).
    by rewrite fmap_snd_pair.
  - intros symbols' Hperm.
    destruct (add_all_ok chat symbols' w Hf) as [Hs' Hf''].
    rewrite list_subscriptions_ok by done.
    assert (Hset : (list_to_set ((λ s, (chat, upper s)) <$> symbols')
                      : gset (Z * string))
                   = list_to_set ((λ s, (chat, upper s)) <$> symbols)).
    { apply set_eq. intros row. rewrite !elem_of_list_to_set.
      by rewrite Hperm. }
    by rewrite Hs', Hs, Hset.
Qed.

Lemma list_subscriptions_sorted_witness :
  let listed :=
    fst (list_subscriptions 7 (add_all 7 ["eth"; "BTC"; "usd"] empty_world)) in
  StronglySorted symbol_le listed ∧
  listed ≡ₚ upper <$> ["eth"; "BTC"; "usd"] ∧
  ∀ symbols', symbols' ≡ₚ ["eth"; "BTC"; "usd"] →
    fst (list_subscriptions 7 (add_all 7 symbols' empty_world)) = listed.
Proof.
  apply (list_subscriptions_sorted empty_world 7 ["eth"; "BTC"; "usd"]).
  - reflexivity.
  - intros s. apply not_elem_of_empty.
  - vm_compute. repeat constructor; set_solver.
Defined.

Example list_subscriptions_order :
  fst (list_subscriptions 7 (add_all 7 ["eth"; "BTC"; "usd"] empty_world))
  = ["BTC"; "ETH"; "USD"].
Proof. vm_compute. reflexivity. Qed.

Example list_subscriptions_upper_case :
  fst (list_subscriptions 7 (add_all 7 ["ётн"; "straße"; "btc"] empty_world))
  = ["BTC"; "STRASSE"; "ЁТН"].
Proof. vm_compute. reflexivity. Qed.

End listing.

Section daily_time.

(** X29: for a time of day given as [HH:MM] that the store reads as such,
    and when the statement does not fail, [settime_cmd] leaves the schedule
    row of the chat with that time and [enabled = False], whatever the row
    was before; the rows of other chats and the job queue are as before. *)
Theorem settime_disables (w : world) (chat hh mm : Z) :
  0 <= hh < 24 → 0 <= mm < 60 →
  let t := fmt_02d hh ++ ":" ++ fmt_02d mm in
  time_input w t = Some {| hour := hh; minute := mm |} →
  statement_ok w →
  let w' := run (settime_cmd chat [t]) w in
  schedules w' !! chat = Some (Some {| hour := hh; minute := mm |}, false) ∧
  (∀ other, other ≠ chat → schedules w' !! other = schedules w !! other) ∧
  job_queue w' = job_queue w.
Proof.
  intros Hh Hm t Ht Hok w'. subst w'.
  pose proof (parse_hh_mm_canonical hh mm Hh Hm) as Hparse. fold t in Hparse.
  destruct (upsert_schedule_ok chat t _ false w Hok Ht)
    as (Hs & _ & _ & _ & _ & _ & Hp).
  unfold settime_cmd. rewrite Hparse.
  rewrite (proj2 (valid_hh_mm_spec hh mm)) by done. cbn [negb].
  rewrite run_try_except, !bind_fst, !bind_run. cbn [ret fst].
  unfold reply_text. rewrite run_ret, run_send_message. cbn [schedules job_queue].
  rewrite Hs. split; [by rewrite lookup_insert_eq |]. split.
  - intros other Hne. by rewrite lookup_insert_ne.
  - apply Hp.
Qed.

Lemma settime_disables_witness :
  let w := run (autoupdate_cmd 7 ["on"]) (run (settime_cmd 7 ["08:15"]) empty_world) in
  let w' := run (settime_cmd 7 ["09:30"]) w in
  schedules w !! 7 = Some (Some {| hour := 8; minute := 15 |}, true) ∧
  schedules w' !! 7 = Some (Some {| hour := 9; minute := 30 |}, false).
Proof.
  intros w w'. split; [vm_compute; reflexivity |].
  refine (proj1 (settime_disables w 7 9 30 _ _ _ _)).
  - lia.
  - lia.
  - reflexivity.
  - reflexivity.
Defined.

(** C10, the input that shows the defect: a chat subscribes, sets its
    time to 08:15 and turns the daily report on, which arms its daily job;
    then it sets the time to 09:30.  The row of the chat is now
    [(09:30, enabled = False)], but the job armed for 08:15 is still in the
    queue, and when the queue runs it the report goes out to the chat and
    the job stays: the daily report is not off.  [/autoupdate off] in the
    place of the second [/settime] removes the job, and a new process over
    the store arms none. *)
Theorem settime_keeps_daily_timer :
  let armed := {| job_id := 0; job_name := "daily_7"; job_chat_id := 7;
                  job_trigger := Daily {| hour := 8; minute := 15 |} |} in
  let w1 := run (autoupdate_cmd 7 ["on"])
              (run (settime_cmd 7 ["08:15"])
                 (run (subscribe_cmd 7 ["BTC"]) empty_world)) in
  let w2 := run (settime_cmd 7 ["09:30"]) w1 in
  let report := "Курсы на 2025-01-01 09:00:" ++ String "010"%char "" ++
                "❓BTC — нет текущих данных" in
  schedules w1 !! 7 = Some (Some {| hour := 8; minute := 15 |}, true) ∧
  job_queue w1 = Some [armed] ∧
  schedules w2 !! 7 = Some (Some {| hour := 9; minute := 30 |}, false) ∧
  job_queue w2 = Some [armed] ∧
  outbox (run (send_rates armed) w2) = (outbox w2 ++ [(7, report)])%list ∧
  job_queue (run (send_rates armed) w2) = Some [armed] ∧
  job_queue (run (autoupdate_cmd 7 ["off"]) w1) = Some [] ∧
  job_queue (run (main true) w2) = Some [].
Proof. vm_compute. by repeat split. Qed.

End daily_time.

(** ** Timers *)

Section timers.

Lemma if_job_queue_some {A} (present absent : M A) (w : world) :
  is_Some (job_queue w) → if_job_queue present absent w = present w.
Proof. unfold if_job_queue. by intros [jobs ->]. Qed.

Lemma run_if_job_queue_some {A} (present absent : M A) (w : world) :
  is_Some (job_queue w) → run (if_job_queue present absent) w = run present w.
Proof. unfold run. intros H. by rewrite if_job_queue_some. Qed.

Lemma filter_all {A} (P : A → Prop) `{!∀ x, Decision (P x)} (l : list A) :
  Forall P l → filter P l = l.
Proof.
  induction 1 as [| x l Hx _ IH]; [done |].
  by rewrite filter_cons_True, IH.
Qed.

Lemma filter_none {A} (P : A → Prop) `{!∀ x, Decision (P x)} (l : list A) :
  Forall (λ x, ¬ P x) l → filter P l = [].
Proof.
  induction 1 as [| x l Hx _ IH]; [done |].
  by rewrite filter_cons_False.
Qed.

(** What a loop of [schedule_removal] over [gone] leaves of the queue. *)
Lemma for_each_schedule_removal (gone jobs : list job) (w : world) :
  job_queue w = Some jobs →
  let w' := run (for_each gone schedule_removal) w in
  job_queue w' = Some (filter (λ j, job_id j ∉ job_id <$> gone) jobs) ∧
  next_job_id w' = next_job_id w ∧ outbox w' = outbox w ∧
  same_tables w w' ∧ db_faults w' = db_faults w.
Proof.
  revert jobs w. induction gone as [| g gone IH]; intros jobs w Hq; cbn.
  - rewrite Hq. repeat split. f_equal. symmetry. apply filter_all.
    apply Forall_forall. intros j _. apply not_elem_of_nil.
  - rewrite bind_run.
    set (w1 := run (schedule_removal g) w).
    assert (Hq1 : job_queue w1 = Some (filter (λ j', job_id j' ≠ job_id g) jobs))
      by (subst w1; unfold run, schedule_removal; by rewrite Hq).
    assert (Hf1 : next_job_id w1 = next_job_id w ∧ outbox w1 = outbox w ∧
                  same_tables w w1 ∧ db_faults w1 = db_faults w)
      by (subst w1; unfold run, schedule_removal, same_tables; by rewrite Hq).
    destruct (IH _ w1 Hq1) as (IHq & IHn & IHo & IHt & IHf).
    destruct Hf1 as (Hn & Ho & Ht & Hf). unfold same_tables in *.
    rewrite IHq, IHn, IHo, IHf. destruct_and!. repeat split; try congruence.
    f_equal. rewrite list_filter_filter. apply list_filter_iff.
    intros j. clear. set_solver.
Qed.

Lemma get_jobs_by_name_some (name : string) (jobs : list job) (w : world) :
  job_queue w = Some jobs →
  fst (get_jobs_by_name name w) = filter (λ j, job_name j = name) jobs.
Proof. unfold get_jobs_by_name. by intros ->. Qed.

Lemma remove_jobs_by_name_run (name : string) (jobs : list job) (w : world) :
  job_queue w = Some jobs →
  let w' := run (remove_jobs_by_name name) w in
  job_queue w' =
    Some (filter (λ j, job_id j ∉ job_id <$> filter (λ j, job_name j = name) jobs)
            jobs) ∧
  next_job_id w' = next_job_id w ∧ outbox w' = outbox w ∧
  same_tables w w' ∧ db_faults w' = db_faults w.
Proof.
  intros Hq. unfold remove_jobs_by_name. cbn zeta. rewrite bind_run.
  change (run (get_jobs_by_name name) w) with w.
  rewrite (get_jobs_by_name_some name jobs w Hq).
  by apply for_each_schedule_removal.
Qed.

(** No job with the name survives the removal of the jobs of that name. *)
Lemma removed_by_name (name : string) (jobs : list job) :
  Forall (λ j, job_name j ≠ name)
    (filter (λ j, job_id j ∉ job_id <$> filter (λ j, job_name j = name) jobs) jobs).
Proof.
  apply Forall_forall. intros j Hj. apply list_elem_of_filter in Hj as [Hid Hin].
  intros Hname. apply Hid. apply list_elem_of_fmap. exists j. split; [done |].
  by apply list_elem_of_filter.
Qed.

Lemma filter_ext_in {A} (P Q : A → Prop) `{!∀ x, Decision (P x)}
    `{!∀ x, Decision (Q x)} (l : list A) :
  (∀ x, x ∈ l → P x ↔ Q x) → filter P l = filter Q l.
Proof.
  induction l as [| x l IH]; intros Hext; [done |].
  rewrite !filter_cons, IH by (intros y Hy; apply Hext; by right).
  pose proof (Hext x ltac:(by left)) as Hx.
  destruct (decide (P x)), (decide (Q x)); try done; exfalso; tauto.
Qed.

(** When the ids of the queue are distinct, removing the jobs of a name
    keeps every job of another name. *)
Lemma kept_by_name (name : string) (jobs : list job) :
  NoDup (job_id <$> jobs) →
  filter (λ j, job_id j ∉ job_id <$> filter (λ j, job_name j = name) jobs) jobs
  = filter (λ j, job_name j ≠ name) jobs.
Proof.
  intros Hnd. apply filter_ext_in. intros j Hj. split.
  - intros Hid Hname. apply Hid, list_elem_of_fmap. exists j.
    split; [done |]. by apply list_elem_of_filter.
  - intros Hname Hid. apply list_elem_of_fmap in Hid as (j' & Hid & Hj').
    apply list_elem_of_filter in Hj' as [Hname' Hj'].
    assert (j = j'); [| congruence].
    apply list_elem_of_lookup in Hj as [i Hi], Hj' as [i' Hi'].
    assert (i = i'); [| congruence].
    eapply NoDup_lookup; [exact Hnd | |]; rewrite list_lookup_fmap.
    + by rewrite Hi.
    + rewrite Hi'. cbn. by rewrite Hid.
Qed.

Lemma timedelta_minutes_ok (minutes : Z) :
  0 < minutes → minutes < 1440000000000 → timedelta_minutes minutes = inr minutes.
Proof.
  intros Hpos Hlt. unfold timedelta_minutes. cbv zeta.
  assert (H1 : 0 <= minutes / 1440) by (apply Z.div_pos; lia).
  assert (H2 : minutes / 1440 < 1000000000)
    by (apply Z.div_lt_upper_bound; lia).
  replace (-999999999 <=? minutes / 1440) with true
    by (symmetry; apply Z.leb_le; lia).
  replace (minutes / 1440 <=? 999999999) with true
    by (symmetry; apply Z.leb_le; lia).
  reflexivity.
Qed.

Lemma timedelta_minutes_overflow (minutes : Z) :
  1440000000000 <= minutes → ∃ e, timedelta_minutes minutes = inl e.
Proof.
  intros Hge. unfold timedelta_minutes. cbv zeta.
  assert (H : 1000000000 <= minutes / 1440)
    by (apply Z.div_le_lower_bound; lia).
  replace (minutes / 1440 <=? 999999999) with false
    by (symmetry; apply Z.leb_gt; lia).
  rewrite andb_false_r. case_match; eauto.
Qed.

(** The queue and the replies of [setinterval_cmd] with a positive number
    of minutes, whatever the store does: the jobs of the chat's interval
    name are removed, and a job is armed when [timedelta] accepts the
    minutes. *)
Lemma setinterval_queue (w : world) (chat : Z) (a : string) (minutes : Z)
    (jobs : list job) :
  py_int a = Some minutes → 0 < minutes → job_queue w = Some jobs →
  let w' := run (setinterval_cmd chat [a]) w in
  let kept :=
    filter (λ j, job_id j ∉
                 job_id <$> filter (λ j, job_name j = interval_name chat) jobs)
      jobs in
  let confirmed := "Периодические уведомления включены: каждые " ++
                   str_of_Z minutes ++ " минут." in
  let hint := "Неверный интервал. Введите целое положительное число минут." in
  match timedelta_minutes minutes with
  | inr _ =>
      job_queue w' = Some (kept ++ [interval_job (next_job_id w) chat minutes])%list ∧
      next_job_id w' = S (next_job_id w) ∧
      outbox w' = (outbox w ++ [(chat, confirmed)])%list
  | inl _ =>
      job_queue w' = Some kept ∧ next_job_id w' = next_job_id w ∧
      outbox w' = (outbox w ++ [(chat, confirmed); (chat, hint)])%list
  end.
Proof.
  intros Hint Hpos Hq w' kept confirmed hint. subst w'.
  unfold setinterval_cmd. rewrite Hint.
  replace (minutes <=? 0) with false by (symmetry; apply Z.leb_gt; lia).
  set (w1 := run (upsert_interval chat (Some minutes) true) w).
  pose proof (upsert_interval_frame chat (Some minutes) true w) as Hp.
  fold w1 in Hp. destruct Hp as (Hq1 & Hn1 & Ho1 & _).
  rewrite run_try_except, !bind_fst, !bind_run. fold w1.
  unfold reply_text. rewrite run_send_message.
  match goal with |- context [if_job_queue _ _ ?w] => set (w2 := w) end.
  assert (Hq2 : job_queue w2 = Some jobs) by (subst w2; cbn; congruence).
  assert (Hn2 : next_job_id w2 = next_job_id w) by (subst w2; cbn; congruence).
  assert (Ho2 : outbox w2 = (outbox w ++ [(chat, confirmed)])%list)
    by (subst w2 confirmed; cbn; congruence).
  rewrite if_job_queue_some, !run_if_job_queue_some by (rewrite Hq2; eauto).
  rewrite !bind_fst, !bind_run.
  destruct (remove_jobs_by_name_run (interval_name chat) jobs w2 Hq2)
    as (Hq3 & Hn3 & Ho3 & _).
  set (w3 := run (remove_jobs_by_name (interval_name chat)) w2) in *.
  destruct (timedelta_minutes minutes) as [e | interval] eqn:Htd.
  - cbn [ret fst]. rewrite run_ret, bind_run.
    destruct (report_error_frame "setinterval_cmd" (Some chat) e w3)
      as [(Hq4 & Hn4 & Ho4 & _) _].
    set (w4 := run (report_error "setinterval_cmd" (Some chat) e) w3) in *.
    rewrite run_send_message. cbn [job_queue next_job_id outbox].
    rewrite Hq4, Hn4, Ho4, Hq3, Hn3, Ho3, Hn2, Ho2, <- app_assoc. done.
  - assert (interval = minutes) as ->.
    { unfold timedelta_minutes in Htd. by repeat case_match; simplify_eq. }
    rewrite !bind_fst, !bind_run. cbn [ret fst]. rewrite run_ret.
    unfold run_repeating, add_job, run. rewrite Hq3. cbn.
    rewrite Hn3, Hn2, Ho3, Ho2. done.
Qed.

Lemma setinterval_arms (w : world) (chat : Z) (a : string) (minutes : Z)
    (jobs : list job) :
  py_int a = Some minutes → 0 < minutes → minutes < 1440000000000 →
  job_queue w = Some jobs →
  let w' := run (setinterval_cmd chat [a]) w in
  let kept :=
    filter (λ j, job_id j ∉
                 job_id <$> filter (λ j, job_name j = interval_name chat) jobs)
      jobs in
  job_queue w' = Some (kept ++ [interval_job (next_job_id w) chat minutes])%list ∧
  next_job_id w' = S (next_job_id w).
Proof.
  intros Hint Hpos Hlt Hq.
  pose proof (setinterval_queue w chat a minutes jobs Hint Hpos Hq) as H.
  cbv zeta in H. rewrite timedelta_minutes_ok in H by done.
  by destruct H as (? & ? & _).
Qed.

(** C3: with a job queue, [setinterval_cmd] with a positive number of
    minutes that [timedelta] accepts (below 1440000000000) removes the
    interval jobs of the chat and arms one new job that runs first with no
    delay and then every [minutes] minutes: afterwards the queue holds
    exactly that one job under the chat's interval name.  After
    [/setinterval 30] and [/setinterval 10] the one job left under the
    name runs every 10 minutes. *)
Theorem setinterval_one_timer (w : world) (chat : Z) (a : string) (minutes : Z)
    (jobs : list job) :
  py_int a = Some minutes → 0 < minutes → minutes < 1440000000000 →
  job_queue w = Some jobs →
  let w' := run (setinterval_cmd chat [a]) w in
  let armed := interval_job (next_job_id w) chat minutes in
  (∃ kept, job_queue w' = Some (kept ++ [armed])%list ∧
           Forall (λ j, j ∈ jobs ∧ job_name j ≠ interval_name chat) kept ∧
           (NoDup (job_id <$> jobs) →
            kept = filter (λ j, job_name j ≠ interval_name chat) jobs)) ∧
  fst (get_jobs_by_name (interval_name chat) w') = [armed] ∧
  fst (get_jobs_by_name (interval_name chat)
         (run (setinterval_cmd chat ["10"]) (run (setinterval_cmd chat ["30"]) w)))
  = [interval_job (S (next_job_id w)) chat 10].
Proof.
  intros Hint Hpos Hlt Hq w' armed.
  destruct (setinterval_arms w chat a minutes jobs Hint Hpos Hlt Hq) as [Hq' Hn'].
  fold w' in Hq', Hn'. fold armed in Hq'.
  assert (Hby : ∀ (w0 : world) kept0 j0,
            job_queue w0 = Some (kept0 ++ [j0])%list →
            Forall (λ j, job_name j ≠ interval_name chat) kept0 →
            job_name j0 = interval_name chat →
            fst (get_jobs_by_name (interval_name chat) w0) = [j0]).
  { intros w0 kept0 j0 H0 Hk Hj. rewrite (get_jobs_by_name_some _ _ _ H0).
    rewrite filter_app, (filter_none _ kept0), filter_cons_True by done.
    done. }
  split; [| split].
  - eexists. split; [exact Hq' |]. split.
    + apply Forall_forall. intros j Hj. split.
      * by apply list_elem_of_filter in Hj as [_ ?].
      * revert j Hj. apply Forall_forall, removed_by_name.
    + apply kept_by_name.
  - eapply Hby; [exact Hq' | apply removed_by_name | done].
  - destruct (setinterval_arms w chat "30" 30 jobs eq_refl eq_refl eq_refl Hq)
      as [Hq30 Hn30].
    destruct (setinterval_arms _ chat "10" 10 _ eq_refl eq_refl eq_refl Hq30)
      as [Hq10 Hn10].
    rewrite Hn30 in Hq10.
    eapply Hby; [exact Hq10 | apply removed_by_name | done].
Qed.

Lemma setinterval_one_timer_witness :
  let w := run (setinterval_cmd 7 ["30"]) empty_world in
  fst (get_jobs_by_name (interval_name 7) (run (setinterval_cmd 7 ["10"]) w))
  = [interval_job 1 7 10].
Proof.
  intros w.
  exact (proj1 (proj2 (setinterval_one_timer w 7 "10" 10
                         [interval_job 0 7 30] eq_refl eq_refl eq_refl eq_refl))).
Defined.

(** C3, where the claim as written fails: 1440000000000 minutes are a
    positive number of minutes, and [setinterval_cmd] with them removes the
    interval job of the chat and arms none, because [timedelta] does not
    accept them. *)
Lemma setinterval_overflow_no_timer :
  let w := run (setinterval_cmd 7 ["30"]) empty_world in
  let w' := run (setinterval_cmd 7 ["1440000000000"]) w in
  py_int "1440000000000" = Some 1440000000000 ∧ 0 < 1440000000000 ∧
  job_queue w = Some [interval_job 0 7 30] ∧
  fst (get_jobs_by_name (interval_name 7) w') = [] ∧
  fst (get_jobs_by_name (interval_name 7) w') ≠
    [interval_job (next_job_id w) 7 1440000000000].
Proof. vm_compute. by repeat split. Qed.

Lemma strftime_HM_nonempty (t : time_of_day) : strftime_HM t ≠ "".
Proof.
  unfold strftime_HM. destruct (fmt_02d (hour t)); discriminate.
Qed.

(** Whatever daily jobs the chat has, [/autoupdate on] for a chat with a
    stored time keeps them all and arms one more. *)
Lemma autoupdate_on_appends (w : world) (chat : Z) (t : time_of_day) (en : bool)
    (jobs : list job) :
  db_faults w = [] → job_queue w = Some jobs →
  schedules w !! chat = Some (Some t, en) →
  valid_hh_mm (hour t) (minute t) = true →
  job_queue (run (autoupdate_cmd chat ["on"]) w) =
    Some (jobs ++ [{| job_id := next_job_id w; job_name := daily_name chat;
                      job_chat_id := chat; job_trigger := Daily t |}])%list.
Proof.
  intros Hf Hq Hrow Hvalid. unfold autoupdate_cmd.
  change (lower "on") with "on". cbv zeta.
  rewrite run_try_except, !bind_fst, !bind_run.
  destruct (get_schedule_ok chat w Hf) as [Hr _]. rewrite Hrow in Hr.
  destruct (get_schedule_frame chat w) as [(Hq1 & Hn1 & _) _].
  set (w1 := run (get_schedule chat) w) in *. rewrite Hr. cbn [fst].
  pose proof (strftime_HM_nonempty t) as Hne.
  apply valid_hh_mm_spec in Hvalid as Hrange.
  pose proof (parse_hh_mm_canonical (hour t) (minute t)
                (proj1 Hrange) (proj2 Hrange)) as Hparse.
  fold (strftime_HM t) in Hparse.
  destruct (strftime_HM t) as [| c r] eqn:Etext; [done |].
  rewrite Hparse. unfold py_time. rewrite Hvalid.
  change (String.eqb "on" "on") with true. cbv iota.
  rewrite !bind_fst, !bind_run. unfold reply_text.
  destruct (upsert_schedule_frame chat (Some (String c r)) true w1)
    as [(Hq2 & Hn2 & _) _].
  set (w2 := run (upsert_schedule chat _ true) w1) in *.
  rewrite !run_send_message.
  match goal with |- context [if_job_queue _ _ ?w0] => set (w3 := w0) end.
  assert (Hq3 : job_queue w3 = Some jobs) by (subst w3; cbn; congruence).
  assert (Hn3 : next_job_id w3 = next_job_id w) by (subst w3; cbn; congruence).
  rewrite if_job_queue_some, !run_if_job_queue_some by (rewrite Hq3; eauto).
  unfold run_daily. rewrite !bind_fst, !bind_run. cbn [ret fst]. rewrite run_ret.
  unfold run, add_job. rewrite Hq3, Hn3. cbn. by destruct t.
Qed.

(** C1, the input that shows the defect: [/settime 09:00] and then
    [/autoupdate on] twice leave two daily jobs for the chat in the queue;
    the command arms a job without removing the one that is there. *)
Theorem autoupdate_on_twice_two_timers :
  let w := run (autoupdate_cmd 7 ["on"])
             (run (autoupdate_cmd 7 ["on"])
                (run (settime_cmd 7 ["09:00"]) empty_world)) in
  fst (get_jobs_by_name (daily_name 7) w) =
    [ {| job_id := 0; job_name := "daily_7"; job_chat_id := 7;
         job_trigger := Daily {| hour := 9; minute := 0 |} |};
      {| job_id := 1; job_name := "daily_7"; job_chat_id := 7;
         job_trigger := Daily {| hour := 9; minute := 0 |} |} ].
Proof. vm_compute. reflexivity. Qed.

End timers.

(** ** Scheduled delivery *)

Section delivery.

Lemma schedule_removal_run (j : job) (w : world) :
  let w' := run (schedule_removal j) w in
  job_queue w' = filter (λ j', job_id j' ≠ job_id j) <$> job_queue w ∧
  outbox w' = outbox w ∧ same_tables w w'.
Proof.
  unfold run, schedule_removal, same_tables.
  destruct (job_queue w) eqn:E; cbn; by rewrite ?E.
Qed.

(** The world when [send_rates] has found no subscription and has written
    to the store, before it removes its job. *)
Lemma cleanup_frame (chat : Z) (w : world) :
  let w' :=
    run (sched <- get_schedule chat ;;
         upsert_schedule chat (fst sched) false ;;
         upsert_interval chat None false)
      (run (list_subscriptions chat) w) in
  job_queue w' = job_queue w ∧ outbox w' = outbox w.
Proof.
  cbn zeta. rewrite !bind_run.
  destruct (list_subscriptions_frame chat w) as [H1 _].
  set (w1 := run (list_subscriptions chat) w) in *.
  destruct (get_schedule_frame chat w1) as [H2 _].
  set (w2 := run (get_schedule chat) w1) in *.
  destruct (upsert_schedule_frame chat (fst (fst (get_schedule chat w1))) false w2)
    as [H3 _].
  set (w3 := run (upsert_schedule chat _ false) w2) in *.
  pose proof (upsert_interval_frame chat None false w3) as H4.
  unfold same_process in *. destruct_and!. split; congruence.
Qed.

Lemma cleanup_disables (chat : Z) (w : world) :
  db_faults w = [] → schedule_rows_ok w → reads_back w chat →
  let w' :=
    run (sched <- get_schedule chat ;;
         upsert_schedule chat (fst sched) false ;;
         upsert_interval chat None false) w in
  daily_enabled w' chat = false ∧ interval_enabled w' chat = false.
Proof.
  intros Hf Hrows Hback. cbn zeta. rewrite !bind_run.
  destruct (get_schedule_ok chat w Hf) as [Hr Hf2].
  destruct (get_schedule_frame chat w) as [Hp2 Ht2].
  set (w2 := run (get_schedule chat) w) in *.
  destruct (upsert_schedule_run_ok chat (fst (fst (get_schedule chat w))) false w2 Hf2)
    as [Hf3 Hs3].
  destruct (upsert_schedule_frame chat (fst (fst (get_schedule chat w))) false w2)
    as (_ & _ & Hi3).
  set (w3 := run (upsert_schedule chat _ false) w2) in *.
  destruct (upsert_interval_run_ok chat false w3 Hf3) as (Hi4 & Hs4 & _).
  unfold daily_enabled, interval_enabled. rewrite Hi4, Hs4, Hs3.
  destruct Ht2 as (_ & Hs2 & Hi2). destruct Hp2 as (_ & _ & _ & _ & Hti & Hnn & _).
  split.
  - rewrite Hr. unfold insert_schedule. rewrite Hti, Hnn, Hs2.
    destruct (schedules w !! chat) as [[[t |] en] |] eqn:Hrow; cbn [fst].
    + destruct (Hback t en Hrow) as [tm Htm]. rewrite Htm. cbn.
      by rewrite lookup_insert_eq.
    + destruct (Hrows chat en Hrow) as [-> ->]. cbn. by rewrite lookup_insert_eq.
    + destruct (notify_time_nullable w); cbn.
      * by rewrite lookup_insert_eq.
      * by rewrite Hrow.
  - rewrite lookup_alter_eq. by destruct (intervals w3 !! chat) as [[m en] |].
Qed.

Lemma get_exchange_rate_ok (sym : string) (w : world) :
  db_faults w = [] →
  db_faults (run (get_exchange_rate sym) w) = [] ∧
  same_process w (run (get_exchange_rate sym) w).
Proof.
  intros Hf. split; [| apply get_exchange_rate_frame].
  destruct w. cbn in Hf. subst. unfold get_exchange_rate. repeat exec.
  by repeat (case_match; repeat exec).
Qed.

Lemma get_yesterday_rate_ok (sym : string) (w : world) :
  db_faults w = [] →
  fst (get_yesterday_rate sym w) = currency_data w (upper sym) ∧
  run (get_yesterday_rate sym) w = w.
Proof.
  destruct w. cbn. intros ->. unfold get_yesterday_rate, select_rate.
  by repeat exec.
Qed.

Lemma get_exchange_rate_reads (sym : string) (w w' : world) :
  same_process w w' →
  fst (get_exchange_rate sym w') = fst (get_exchange_rate sym w).
Proof.
  intros (_ & _ & _ & _ & _ & _ & _ & Hpc & Hq).
  unfold get_exchange_rate. cbv zeta. rewrite Hpc, Hq.
  destruct (if bool_decide (upper sym ∈ fiat_list)
            then price_conversion w (upper sym)
            else quotes_latest w (upper sym)) as [e | | p]; try done.
  by rewrite !bind_fst.
Qed.

(** What [get_exchange_rate] returns: the price of the provider's reply,
    from the conversion endpoint for a fiat symbol and from the quotes
    endpoint for any other. *)
Lemma get_exchange_rate_price (sym : string) (w : world) :
  fst (get_exchange_rate sym w) =
    match (if bool_decide (upper sym ∈ ["USD"; "EUR"; "RUB"; "GBP"; "JPY"; "CNY"])
           then price_conversion w (upper sym)
           else quotes_latest w (upper sym)) with
    | Price p => Some p
    | _ => None
    end.
Proof.
  unfold get_exchange_rate. cbv zeta.
  change fiat_list with ["USD"; "EUR"; "RUB"; "GBP"; "JPY"; "CNY"].
  destruct (if bool_decide _ then _ else _) as [e | | p]; try done;
    by rewrite !bind_fst.
Qed.

Lemma get_yesterday_rate_prior (sym : string) (w : world) :
  fst (get_yesterday_rate sym w) = None ∨
  fst (get_yesterday_rate sym w) = currency_data w (upper sym).
Proof.
  destruct w. unfold get_yesterday_rate, select_rate.
  exec_all; auto.
Qed.

(** The lines of a report, one per symbol and in the order of the
    symbols: the line of the provider's price and of the rate of the day
    before in the store, or of no rate when the statement that reads it
    fails. *)
Lemma rate_lines_content (w : world) (subs : list string) (w1 : world) :
  same_process w w1 →
  let current sym :=
    match (if bool_decide (upper sym ∈ ["USD"; "EUR"; "RUB"; "GBP"; "JPY"; "CNY"])
           then price_conversion w (upper sym)
           else quotes_latest w (upper sym)) with
    | Price p => Some p
    | _ => None
    end in
  Forall2 (λ sym line,
             ∃ prior, (prior = None ∨ prior = currency_data w (upper sym)) ∧
                      line = rate_line sym (current sym) prior)
    subs (fst (rate_lines subs w1)) ∧
  (db_faults w1 = [] →
   fst (rate_lines subs w1) =
     (λ sym, rate_line sym (current sym) (currency_data w (upper sym))) <$> subs).
Proof.
  intros Hp current. revert w1 Hp.
  induction subs as [| sym subs IH]; intros w1 Hp1; [by split; [constructor |] |].
  cbn [rate_lines]. rewrite !bind_fst, ?bind_run. cbn [ret fst].
  destruct (get_exchange_rate_frame sym w1) as [Hp2 _].
  set (w2 := run (get_exchange_rate sym) w1) in *.
  destruct (get_yesterday_rate_frame sym w2) as [Hp3 _].
  set (w3 := run (get_yesterday_rate sym) w2) in *.
  assert (Hw2 : same_process w w2) by eauto using same_process_trans.
  assert (Hw3 : same_process w w3) by eauto using same_process_trans.
  destruct (IH w3 Hw3) as [Hall Hok].
  assert (Hc : fst (get_exchange_rate sym w1) = current sym).
  { rewrite get_exchange_rate_price. subst current. cbv beta.
    destruct Hp1 as (_ & _ & _ & _ & _ & _ & _ & -> & ->). done. }
  assert (Hcd : currency_data w2 = currency_data w)
    by (by destruct Hw2 as (_ & _ & _ & _ & _ & _ & -> & _)).
  rewrite Hc. split.
  - constructor; [| exact Hall].
    exists (fst (get_yesterday_rate sym w2)). split; [| done].
    rewrite <- Hcd. apply get_yesterday_rate_prior.
  - intros Hf1.
    destruct (get_exchange_rate_ok sym w1 Hf1) as [Hf2 _]. fold w2 in Hf2.
    destruct (get_yesterday_rate_ok sym w2 Hf2) as [Hy Hrun].
    rewrite fmap_cons, Hy, Hcd. f_equal. apply Hok. subst w3. by rewrite Hrun.
Qed.

(** A fire of [send_rates] for a job whose name ends in the chat id. *)
Lemma send_rates_run (w : world) (j : job) (chat : Z) :
  job_name_chat_id (job_name j) = Some chat →
  let subs := fst (list_subscriptions chat w) in
  let w' := run (send_rates j) w in
  (subs = [] →
     outbox w' = outbox w ∧
     job_queue w' = filter (λ j', job_id j' ≠ job_id j) <$> job_queue w ∧
     (db_faults w = [] → schedule_rows_ok w → reads_back w chat →
      daily_enabled w' chat = false ∧ interval_enabled w' chat = false)) ∧
  (subs ≠ [] →
     let lines := fst (rate_lines subs (run (list_subscriptions chat) w)) in
     outbox w' = (outbox w ++ [(chat, report_text (clock w) lines)])%list ∧
     job_queue w' = job_queue w ∧ same_tables w w').
Proof.
  intros Hname subs w'. subst w'. unfold send_rates. rewrite Hname.
  rewrite run_try_except, !bind_fst, !bind_run. fold subs.
  set (w1 := run (list_subscriptions chat) w).
  split.
  - intros ->. rewrite !bind_fst, !bind_run. cbn [ret fst]. rewrite run_ret.
    match goal with
    | |- context [run (schedule_removal j) ?w0] => set (w4 := w0)
    end.
    assert (H4 : w4 = run (sched <- get_schedule chat ;;
                           upsert_schedule chat (fst sched) false ;;
                           upsert_interval chat None false) w1)
      by (by rewrite !bind_run).
    destruct (schedule_removal_run j w4) as (Hq & Ho & Ht).
    destruct (cleanup_frame chat w) as [Hq4 Ho4]. fold w1 in Hq4, Ho4.
    rewrite <- H4 in Hq4, Ho4.
    split; [by rewrite Ho |]. split; [by rewrite Hq, Hq4 |].
    intros Hf Hrows Hback.
    assert (Hw1 : w1 = w) by (by apply list_subscriptions_run_ok).
    rewrite Hw1 in H4.
    destruct (cleanup_disables chat w Hf Hrows Hback) as [Hd Hi].
    rewrite <- H4 in Hd, Hi. destruct Ht as (_ & Hs & Hiv).
    unfold daily_enabled, interval_enabled in *. by rewrite Hs, Hiv.
  - intros Hsubs. cbv zeta.
    destruct (list_subscriptions_frame chat w) as [Hp1 Ht1]. fold w1 in Hp1, Ht1.
    destruct subs as [| s subs'] eqn:Esubs; [done |]. rewrite <- Esubs.
    rewrite !bind_fst, !bind_run. cbn [ret fst]. rewrite !run_ret.
    change (run (λ w0 : world, (clock w0, w0)) w1) with w1.
    destruct (rate_lines_frame subs w1) as (Hp2 & Ht2 & Hl).
    set (w2 := run (rate_lines subs) w1) in *.
    rewrite run_send_message. cbn.
    unfold same_process, same_tables in *.
    cbn [subscriptions schedules intervals]. destruct_and!.
    repeat split; congruence.
Qed.

(** C2: a fire of [send_rates] for the daily or the interval job of a
    chat.  When [list_subscriptions] returns nothing, no message goes out
    and the firing job leaves the queue; and when the store does not fail
    (and its rows are as the bot writes them) both [enabled] flags of the
    chat are off afterwards.  When it returns symbols, one message goes
    out, to the chat, and timers and tables are as before; the message is
    the header with the date and time, a colon, and under it one line per
    symbol in the order of the list, each the line [rate_line] makes of
    the provider's current price of the symbol and of its rate of the day
    before in the store, or of no such rate when the statement that reads
    it fails.  When the store does not fail, the list is the sorted
    symbols of the rows of the chat. *)
Theorem send_rates_fire (w : world) (j : job) (chat : Z) :
  job_name j = daily_name chat ∨ job_name j = interval_name chat →
  let subs := fst (list_subscriptions chat w) in
  let w' := run (send_rates j) w in
  let newline := String "010"%char "" in
  let current sym :=
    match (if bool_decide (upper sym ∈ ["USD"; "EUR"; "RUB"; "GBP"; "JPY"; "CNY"])
           then price_conversion w (upper sym)
           else quotes_latest w (upper sym)) with
    | Price p => Some p
    | _ => None
    end in
  (subs = [] →
     outbox w' = outbox w ∧
     job_queue w' = filter (λ j', job_id j' ≠ job_id j) <$> job_queue w ∧
     (db_faults w = [] → schedule_rows_ok w → reads_back w chat →
      daily_enabled w' chat = false ∧ interval_enabled w' chat = false)) ∧
  (subs ≠ [] →
     ∃ lines,
       let text :=
         "Курсы на " ++ clock w ++ ":" ++ newline ++ String.concat newline lines in
       outbox w' = (outbox w ++ [(chat, text)])%list ∧
       job_queue w' = job_queue w ∧ same_tables w w' ∧
       Forall2 (λ sym line,
                  ∃ prior, (prior = None ∨ prior = currency_data w (upper sym)) ∧
                           line = rate_line sym (current sym) prior)
         subs lines ∧
       (db_faults w = [] →
        lines =
          (λ sym, rate_line sym (current sym) (currency_data w (upper sym)))
            <$> subs)) ∧
  (db_faults w = [] →
   subs = merge_sort symbol_le
            (elements (filter (λ row, row.1 = chat) (subscriptions w))).*2).
Proof.
  intros Hname subs w' newline current.
  assert (Hid : job_name_chat_id (job_name j) = Some chat).
  { destruct Hname as [-> | ->];
      [apply job_name_chat_id_daily | apply job_name_chat_id_interval]. }
  destruct (send_rates_run w j chat Hid) as [Hnone Hsome].
  split; [exact Hnone |]. split; [| apply list_subscriptions_ok].
  intros Hsubs. destruct (Hsome Hsubs) as (Ho & Hq & Ht).
  destruct (list_subscriptions_frame chat w) as [Hp1 _].
  destruct (rate_lines_content w subs _ Hp1) as [Hall Hok].
  eexists. split; [| split; [exact Hq | split; [exact Ht | split; [exact Hall |]]]].
  - cbv zeta. rewrite <- join_concat. exact Ho.
  - intros Hf. apply Hok. by rewrite list_subscriptions_run_ok.
Qed.

Lemma send_rates_fire_witness :
  (let w := cleared_chat_world in
   let j := {| job_id := 0; job_name := daily_name 7; job_chat_id := 7;
               job_trigger := Daily {| hour := 9; minute := 0 |} |} in
   let w' := run (send_rates j) w in
   outbox w' = outbox w ∧
   job_queue w' = filter (λ j', job_id j' ≠ job_id j) <$> job_queue w ∧
   daily_enabled w' 7 = false ∧ interval_enabled w' 7 = false) ∧
  (let w := report_world in
   let w' := run (send_rates (interval_job 0 7 30)) w in
   let newline := String "010"%char "" in
   let text :=
     "Курсы на 2025-01-01 09:00:" ++ newline ++
     "🟢BTC +10.00%  $110.00" ++ newline ++
     "❓ETH — нет текущих данных" ++ newline ++
     "🔻Евро -10.00%  $1.08" in
   outbox w' = [(7, text)] ∧ job_queue w' = job_queue w ∧ same_tables w w').
Proof.
  split.
  - intros w j w'.
    destruct (proj1 (send_rates_fire w j 7 (or_introl eq_refl)) eq_refl)
      as (Ho & Hq & Hd).
    split; [exact Ho |]. split; [exact Hq |]. apply Hd.
    + reflexivity.
    + intros c en H.
      assert (Hs : schedules w = {[ 7 := (Some {| hour := 9; minute := 0 |}, true) ]})
        by (vm_compute; reflexivity).
      rewrite Hs in H. apply lookup_singleton_Some in H as [_ [=]].
    + intros t en H.
      assert (Hs : schedules w !! 7 = Some (Some {| hour := 9; minute := 0 |}, true))
        by (vm_compute; reflexivity).
      rewrite Hs in H. injection H as <- <-. by eexists.
  - intros w w' newline text.
    destruct (send_rates_fire w (interval_job 0 7 30) 7 (or_intror eq_refl))
      as (_ & Hsome & _).
    destruct Hsome as (lines & Ho & Hq & Ht & _ & Hl); [vm_compute; discriminate |].
    rewrite (Hl eq_refl) in Ho.
    split; [| split; [exact Hq | exact Ht]].
    etrans; [exact Ho |]. vm_compute. reflexivity.
Defined.

Example cleared_chat_fire :
  let j := {| job_id := 0; job_name := daily_name 7; job_chat_id := 7;
              job_trigger := Daily {| hour := 9; minute := 0 |} |} in
  job_queue cleared_chat_world = Some [j] ∧
  daily_enabled cleared_chat_world 7 = true ∧
  let w' := run (send_rates j) cleared_chat_world in
  job_queue w' = Some [] ∧ daily_enabled w' 7 = false ∧
  outbox w' = outbox cleared_chat_world.
Proof. vm_compute. by repeat split. Qed.

End delivery.

(** ** Start of the process *)

Section startup.

Lemma add_job_run (name : string) (chat : Z) (trig : trigger) (jobs : list job)
    (w : world) :
  job_queue w = Some jobs →
  let w' := run (add_job name chat trig) w in
  job_queue w' =
    Some (jobs ++ [{| job_id := next_job_id w; job_name := name;
                      job_chat_id := chat; job_trigger := trig |}])%list ∧
  same_tables w w' ∧ db_faults w' = db_faults w.
Proof. unfold run, add_job, same_tables. intros ->. by cbn. Qed.






Example restart_two_timers :
  job_queue (run on_startup restart_world) =
    Some [ {| job_id := 0; job_name := "daily_1"; job_chat_id := 1;
              job_trigger := Daily {| hour := 8; minute := 0 |} |};
           {| job_id := 1; job_name := "interval_2"; job_chat_id := 2;
              job_trigger := Repeating 15 0 |} ].
Proof. vm_compute. reflexivity. Qed.

End startup.

(** ** Report lines *)

Section report_lines.

(** [round_hundredths] is the nearest number of hundredths, and the even
    one of the two when the float is halfway. *)
Lemma round_hundredths_nearest (m : positive) (e : Z) :
  (0 <= e → round_hundredths m e = 100 * (Zpos m * 2 ^ e)) ∧
  (e < 0 →
   let d := 2 ^ (- e) in
   let n := round_hundredths m e in
   Z.abs (2 * (100 * Zpos m - n * d)) <= d ∧
   (Z.abs (2 * (100 * Zpos m - n * d)) = d → Z.even n = true)).
Proof.
  unfold round_hundredths. split.
  - intros He. rewrite (proj2 (Z.leb_le 0 e)) by done. lia.
  - intros He. rewrite (proj2 (Z.leb_gt 0 e)) by done. cbn zeta.
    assert (Hd : 0 < 2 ^ (- e)) by (apply Z.pow_pos_nonneg; lia).
    set (d := 2 ^ (- e)) in *.
    pose proof (Z.div_mod (Zpos m * 100) d ltac:(lia)) as Hdm.
    pose proof (Z.mod_pos_bound (Zpos m * 100) d Hd) as Hr.
    set (q := (Zpos m * 100) / d) in *. set (r := (Zpos m * 100) mod d) in *.
    destruct (Z.ltb_spec (2 * r) d) as [H1 | H1];
      [| destruct (Z.ltb_spec d (2 * r)) as [H2 | H2];
         [| destruct (Z.even q) eqn:Hev]].
    + split; [nia | intros; nia].
    + split; [nia | intros; nia].
    + split; [nia | done].
    + split; [nia | intros _].
      rewrite Z.even_add, Hev. reflexivity.
Qed.

Lemma gt0_sign (x : spec_float) :
  gt0 x = true → lt0 x = false ∧ sign_bit x = false.
Proof. by destruct x as [[] | [] | | [] m e]. Qed.

Lemma lt0_sign (x : spec_float) :
  lt0 x = true → gt0 x = false ∧ sign_bit x = true.
Proof. by destruct x as [[] | [] | | [] m e]. Qed.

Lemma eq0_zero (x : spec_float) :
  eq0 x = true → gt0 x = false ∧ lt0 x = false ∧ magnitude false x = "0.00".
Proof.
  destruct x as [[] | [] | | [] m e]; try discriminate; intros _;
    by vm_compute.
Qed.

Lemma round_hundredths_nonneg (m : positive) (e : Z) : 0 <= round_hundredths m e.
Proof.
  unfold round_hundredths. destruct (Z.leb_spec 0 e) as [He | He].
  - assert (0 < 2 ^ e) by (apply Z.pow_pos_nonneg; lia). nia.
  - assert (Hd : 0 < 2 ^ (- e)) by (apply Z.pow_pos_nonneg; lia).
    pose proof (Z.div_pos (Zpos m * 100) (2 ^ (- e)) ltac:(lia) Hd).
    repeat case_match; lia.
Qed.

(** C4: a line of the report.  Without a current price it is the no-data
    line.  With one, it is the marker, the name, the percentage and the
    price.  With a prior price that is absent or zero the percentage is
    [0.00%] with the neutral marker, whatever the current price.  With a
    prior price that is present and not zero, the percentage is the float
    [(current - prior) / prior * 100] of binary64 arithmetic: the marker
    is the up one when it is positive, the down one when it is negative
    and the neutral one otherwise; its text is [+] when it is positive,
    then its two-decimal text and [%].  The two-decimal text of a finite
    float [m * 2^e] with sign is [-] when negative and then the decimal
    digits of [n / 100], a point and the two digits of [n mod 100], where
    [n] is the number of hundredths nearest to [m * 2^e], the even one of
    the two when it is halfway; a zero is [0.00] or [-0.00].  From 100 to
    110 the line shows [+10.00%] with the up marker, from 100 to 90
    [-10.00%] with the down marker, from 3 to 4 [+33.33%], from 200 to 150
    [-25.00%], from 800 to 801 [+0.12%] (0.125, halfway), from 5 to 5
    [0.00%]. *)
Theorem report_line_percent (sym : string) (c : spec_float) :
  let name := (symbol_name sym).1 in
  let zero := S754_zero false in
  let hundred := binary_normalize 53 1024 100 0 false in
  let decimal (k : Z) := NilZero.string_of_uint (N.to_uint (Z.to_N k)) in
  (∀ y, rate_line sym None y = "❓" ++ name ++ " — нет текущих данных") ∧
  (∀ y, rate_line sym (Some c) y =
        (trend c y).1 ++ name ++ " " ++ (trend c y).2 ++ "  " ++
        replace_char ","%char " "%char
          ((symbol_name sym).2 ++ format_grouped_2f c)) ∧
  trend c None = ("⏺", "0.00%") ∧
  (∀ p, SFeqb p zero = true → trend c (Some p) = ("⏺", "0.00%")) ∧
  (∀ p, SFeqb p zero = false →
     let pct := SFmul 53 1024 (SFdiv 53 1024 (SFsub 53 1024 c p) p) hundred in
     ∃ digits,
       trend c (Some p) =
         (if SFltb zero pct then "🟢" else if SFltb pct zero then "🔻" else "⏺",
          (if SFltb zero pct then "+" else "") ++ digits ++ "%") ∧
       match pct with
       | S754_zero s => digits = if s then "-0.00" else "0.00"
       | S754_finite s m e =>
           ∃ n, 0 <= n ∧
             (0 <= e → n = 100 * (Zpos m * 2 ^ e)) ∧
             (e < 0 →
              Z.abs (2 * (100 * Zpos m - n * 2 ^ (- e))) <= 2 ^ (- e) ∧
              (Z.abs (2 * (100 * Zpos m - n * 2 ^ (- e))) = 2 ^ (- e) →
               Z.even n = true)) ∧
             digits =
               (if s then "-" else "") ++ decimal (n / 100) ++ "." ++
               (if (n mod 100 <? 10)%Z then "0" else "") ++ decimal (n mod 100)
       | S754_infinity s => digits = if s then "-inf" else "inf"
       | S754_nan => digits = "nan"
       end) ∧
  trend (of_Z 110) (Some (of_Z 100)) = ("🟢", "+10.00%") ∧
  trend (of_Z 90) (Some (of_Z 100)) = ("🔻", "-10.00%") ∧
  trend (of_Z 4) (Some (of_Z 3)) = ("🟢", "+33.33%") ∧
  trend (of_Z 150) (Some (of_Z 200)) = ("🔻", "-25.00%") ∧
  trend (of_Z 801) (Some (of_Z 800)) = ("🟢", "+0.12%") ∧
  trend (of_Z 5) (Some (of_Z 5)) = ("⏺", "0.00%") ∧
  trend (of_Z 110) (Some (of_Z 0)) = ("⏺", "0.00%") ∧
  trend (of_Z 110) None = ("⏺", "0.00%").
Proof.
  intros name zero hundred decimal.
  split; [| split; [| split; [| split; [| split]]]].
  - intros y. unfold rate_line, name. by destruct (symbol_name sym).
  - intros y. unfold rate_line, name. destruct (symbol_name sym) as [nm sign].
    by destruct (trend c y).
  - reflexivity.
  - intros p Hp. unfold trend, eq0, fzero. fold zero. by rewrite Hp.
  - intros p Hp pct. exists (format_2f pct). split.
    + unfold trend, eq0, fzero. fold zero. rewrite Hp. reflexivity.
    + destruct pct as [[] | [] | | s m e] eqn:E; try reflexivity.
      exists (round_hundredths m e).
      pose proof (round_hundredths_nonneg m e) as Hn.
      destruct (round_hundredths_nearest m e) as [Hge Hlt].
      refine (conj Hn (conj Hge (conj Hlt _))).
      unfold format_2f, fixed2, magnitude, hundredths, sign_bit, fmt_02d, decimal.
      rewrite <- !str_of_Z_decimal; [by destruct (_ <? 10)%Z | ..].
      * apply Z.mod_pos_bound. lia.
      * apply Z.div_pos; lia.
  - vm_compute. by repeat split.
Qed.

Example rate_line_btc :
  rate_line "btc" None None = "❓btc — нет текущих данных" ∧
  rate_line "BTC" (Some (of_Z 1234567)) (Some (of_Z 1000000))
  = "🟢BTC +23.46%  $1 234 567.00".
Proof. vm_compute. by split. Qed.

End report_lines.

(** ** Invariants of the reachable worlds *)

Section invariants.

Lemma neutral_ret {A} (a : A) : neutral (ret a).
Proof. by intros w. Qed.

Lemma neutral_bind {A B} (c : M A) (k : A → M B) :
  neutral c → (∀ a, neutral (k a)) → neutral (bind c k).
Proof.
  intros Hc Hk w. rewrite bind_run.
  destruct (Hc w) as (H1 & H2 & H3 & H4).
  destruct (Hk (fst (c w)) (run c w)) as (K1 & K2 & K3 & K4).
  repeat split; congruence.
Qed.

Lemma neutral_sql {A} (stmt : world → outcome (A * world)) :
  (∀ w a w', stmt w = inr (a, w') →
     job_queue w' = job_queue w ∧ next_job_id w' = next_job_id w ∧
     schedules w' = schedules w ∧
     notify_time_nullable w' = notify_time_nullable w) →
  neutral (sql stmt).
Proof.
  intros Hstmt w. unfold run, sql, bind, next_fault.
  destruct (db_faults w) as [| [e |] rest] eqn:E.
  - destruct (stmt w) as [e' | [a w']] eqn:Es; cbn; [done |].
    by apply (Hstmt w a w').
  - done.
  - destruct (stmt (set_db_faults rest w)) as [e' | [a w']] eqn:Es; cbn;
      [done |].
    by destruct (Hstmt _ a w' Es) as (-> & -> & -> & ->).
Qed.

Lemma neutral_report_error (fn : string) (c : option Z) (e : string) :
  neutral (report_error fn c e).
Proof.
  intros w. destruct (report_error_frame fn c e w) as [Hp Ht].
  unfold same_process, same_tables in *. by destruct_and!.
Qed.

Lemma neutral_log_error_to_db (fn : string) (c : option Z) (e : string) :
  neutral (log_error_to_db fn c e).
Proof.
  intros w. destruct w. unfold log_error_to_db. exec.
  by repeat (case_match; exec; simplify_eq).
Qed.

Lemma neutral_send_message (chat : Z) (text : string) :
  neutral (send_message chat text).
Proof. by intros w. Qed.

Lemma neutral_logger_error (msg : string) : neutral (logger_error msg).
Proof. by intros w. Qed.

Lemma neutral_logger_warning (msg : string) : neutral (logger_warning msg).
Proof. by intros w. Qed.

Lemma neutral_logger_info (msg : string) : neutral (logger_info msg).
Proof. by intros w. Qed.

Lemma neutral_read {A} (f : world → A) : neutral (λ w, (f w, w)).
Proof. by intros w. Qed.

Lemma neutral_get_jobs_by_name (name : string) : neutral (get_jobs_by_name name).
Proof. by intros w. Qed.

Lemma neutral_if_job_queue {A} (present absent : M A) :
  neutral present → neutral absent → neutral (if_job_queue present absent).
Proof.
  intros Hp Ha w. unfold run, if_job_queue.
  destruct (job_queue w) eqn:E; rewrite <- E; [apply Hp | apply Ha].
Qed.

End invariants.

Create HintDb bot_neutral.

#[local] Hint Resolve neutral_ret neutral_report_error neutral_log_error_to_db
  neutral_send_message
  neutral_logger_error neutral_logger_warning neutral_logger_info neutral_read
  neutral_get_jobs_by_name : bot_neutral.

Ltac unfold_statement :=
  unfold insert_user, insert_subscription, delete_subscriptions, select_symbols,
    select_schedule, write_interval, select_interval, select_rate,
    select_enabled_schedules, select_enabled_intervals, set_users,
    set_subscriptions, set_intervals, set_error_logs in *.

(** Decompose a computation into its steps. *)
Ltac neutral_steps :=
  repeat first
    [ progress cbv zeta
    | solve [eauto with bot_neutral]
    | match goal with
      | |- neutral (sql _) =>
          apply neutral_sql;
          let H := fresh in
          intros ??? H; unfold_statement; repeat case_match;
          simplify_eq; by cbn
      | |- neutral (if_job_queue _ _) => apply neutral_if_job_queue
      | |- neutral (bind _ _) => apply neutral_bind; [| intros ?]
      | |- neutral (match ?x with _ => _ end) => destruct x
      | |- neutral (if ?b then _ else _) => destruct b
      | |- neutral (let (_, _) := ?x in _) => destruct x
      end ].

Section neutral_functions.

Lemma neutral_add_user (chat : Z) (name : string) : neutral (add_user chat name).
Proof. unfold add_user. neutral_steps. Qed.

Lemma neutral_add_subscription (chat : Z) (sym : string) :
  neutral (add_subscription chat sym).
Proof. unfold add_subscription. neutral_steps. Qed.

Lemma neutral_remove_subscription (chat : Z) (sym : string) :
  neutral (remove_subscription chat sym).
Proof. unfold remove_subscription. neutral_steps. Qed.

Lemma neutral_clear_subscriptions (chat : Z) : neutral (clear_subscriptions chat).
Proof. unfold clear_subscriptions. neutral_steps. Qed.

Lemma neutral_list_subscriptions (chat : Z) : neutral (list_subscriptions chat).
Proof. unfold list_subscriptions. neutral_steps. Qed.

Lemma neutral_get_schedule (chat : Z) : neutral (get_schedule chat).
Proof. unfold get_schedule. neutral_steps. Qed.

Lemma neutral_upsert_interval (chat : Z) (m : option Z) (en : bool) :
  neutral (upsert_interval chat m en).
Proof. unfold upsert_interval. neutral_steps. Qed.

Lemma neutral_get_interval (chat : Z) : neutral (get_interval chat).
Proof. unfold get_interval. neutral_steps. Qed.

Lemma neutral_get_yesterday_rate (sym : string) : neutral (get_yesterday_rate sym).
Proof. unfold get_yesterday_rate. neutral_steps. Qed.

Lemma neutral_get_exchange_rate (sym : string) : neutral (get_exchange_rate sym).
Proof.
  intros w. unfold run, get_exchange_rate. cbv zeta.
  destruct (if bool_decide (upper sym ∈ fiat_list)
            then price_conversion w (upper sym)
            else quotes_latest w (upper sym)) as [e | | p]; try done;
    match goal with
    | |- context [bind ?c ?k w] =>
        assert (Hn : neutral (bind c k)) by neutral_steps; exact (Hn w)
    end.
Qed.

Lemma neutral_get_top20_symbols : neutral get_top20_symbols.
Proof.
  intros w. unfold run, get_top20_symbols.
  destruct (listings_latest w) as [e | | [| sym rest]]; try done;
    match goal with
    | |- context [bind ?c ?k w] =>
        assert (Hn : neutral (bind c k)) by neutral_steps; exact (Hn w)
    end.
Qed.

End neutral_functions.

#[local] Hint Resolve neutral_add_user
  neutral_add_subscription neutral_remove_subscription
  neutral_clear_subscriptions neutral_list_subscriptions neutral_get_schedule
  neutral_upsert_interval neutral_get_interval neutral_get_yesterday_rate
  neutral_get_exchange_rate neutral_get_top20_symbols : bot_neutral.

Section preservation.

Lemma bot_ok_ext (w w' : world) :
  job_queue w' = job_queue w → next_job_id w' = next_job_id w →
  schedules w' = schedules w →
  notify_time_nullable w' = notify_time_nullable w →
  bot_ok w → bot_ok w'.
Proof.
  unfold bot_ok, schedule_rows_ok, queue_ok. intros -> -> -> ->. done.
Qed.

Lemma preserves_neutral {A} (c : M A) : neutral c → preserves bot_ok c.
Proof.
  intros Hc w. destruct (Hc w) as (H1 & H2 & H3 & H4). by apply bot_ok_ext.
Qed.

Lemma preserves_ret {A} (I : world → Prop) (a : A) : preserves I (ret a).
Proof. by intros w. Qed.

Lemma preserves_bind {A B} (I : world → Prop) (c : M A) (k : A → M B) :
  preserves I c → (∀ a, preserves I (k a)) → preserves I (bind c k).
Proof. intros Hc Hk w Hw. rewrite bind_run. by apply Hk, Hc. Qed.

Lemma preserves_if_job_queue {A} (I : world → Prop) (present absent : M A) :
  preserves I present → preserves I absent →
  preserves I (if_job_queue present absent).
Proof.
  intros Hp Ha w. unfold run, if_job_queue.
  destruct (job_queue w); [apply Hp | apply Ha].
Qed.

Lemma preserves_for_each {A} (I : world → Prop) (xs : list A)
    (body : A → M unit) :
  (∀ x, preserves I (body x)) → preserves I (for_each xs body).
Proof.
  intros Hbody. induction xs as [| x xs IH]; cbn [for_each].
  - apply preserves_ret.
  - apply preserves_bind; [apply Hbody | intros _; apply IH].
Qed.

(** [upsert_schedule] writes a row without a time only when the column
    accepts NULL; the bot calls it so with [enabled = False] only. *)
Lemma preserves_upsert_schedule (chat : Z) (t : option string) (en : bool) :
  (t = None → en = false) → preserves bot_ok (upsert_schedule chat t en).
Proof.
  intros Ht w [Hrows Hq].
  destruct (upsert_schedule_frame chat t en w) as [(Hj & Hn & _ & _ & _ & Hnull & _) _].
  split.
  - assert (Hs : schedules (run (upsert_schedule chat t en) w) = schedules w ∨
                 ∃ ot, schedules (run (upsert_schedule chat t en) w)
                         = <[chat := (ot, en)]> (schedules w) ∧
                       (ot = None → t = None ∧ notify_time_nullable w = true)).
    { clear. destruct w. unfold upsert_schedule, insert_schedule.
      exec_all; eauto; right; eexists; (split; [reflexivity |]); done. }
    intros c e. rewrite Hnull. destruct Hs as [-> | (ot & -> & Hot)]; [apply Hrows |].
    destruct (decide (c = chat)) as [-> | Hne].
    + rewrite lookup_insert_eq. intros [= -> ->].
      destruct (Hot eq_refl) as [Ht' ->]. auto.
    + rewrite lookup_insert_ne by done. apply Hrows.
  - intros jobs. rewrite Hj, Hn. apply Hq.
Qed.

Lemma preserves_add_job (name : string) (chat : Z) (trig : trigger) :
  canonical_job {| job_id := 0%nat; job_name := name; job_chat_id := chat;
                   job_trigger := trig |} →
  preserves bot_ok (add_job name chat trig).
Proof.
  intros Hcan w [Hrows Hq]. unfold run, add_job.
  destruct (job_queue w) as [jobs |] eqn:E; [| by split].
  destruct (Hq jobs E) as [Hall Hnd]. split; [done |].
  intros jobs' [= <-]. cbn. split.
  - apply Forall_app. split.
    + eapply Forall_impl; [exact Hall |]. intros j [Hlt Hc]. split; [lia | done].
    + apply Forall_singleton. split; [cbn; lia | exact Hcan].
  - rewrite fmap_app. apply NoDup_app. split; [done |]. split.
    + intros id Hid ->%list_elem_of_singleton.
      apply list_elem_of_fmap in Hid as (j & Hid & Hj). cbn in Hid.
      rewrite Forall_forall in Hall. destruct (Hall j Hj). lia.
    + apply NoDup_singleton.
Qed.

Lemma NoDup_fmap_filter {A B} (f : A → B) (P : A → Prop)
    `{!∀ x, Decision (P x)} (l : list A) :
  NoDup (f <$> l) → NoDup (f <$> filter P l).
Proof.
  induction l as [| x l IH]; [done |]. rewrite fmap_cons, NoDup_cons.
  intros [Hx Hl]. rewrite filter_cons. destruct (decide (P x)); [| by apply IH].
  rewrite fmap_cons. apply NoDup_cons. split; [| by apply IH].
  intros (y & Hy & Hin)%list_elem_of_fmap. apply Hx, list_elem_of_fmap.
  exists y. split; [done |]. by apply list_elem_of_filter in Hin as [_ ?].
Qed.

Lemma preserves_schedule_removal (j : job) : preserves bot_ok (schedule_removal j).
Proof.
  intros w [Hrows Hq]. unfold run, schedule_removal.
  destruct (job_queue w) as [jobs |] eqn:E; [| by split].
  destruct (Hq jobs E) as [Hall Hnd]. split; [done |].
  intros jobs' [= <-]. cbn. split.
  - apply Forall_forall. intros j' [_ Hin]%list_elem_of_filter.
    by apply (proj1 (Forall_forall _ _) Hall).
  - by apply NoDup_fmap_filter.
Qed.

End preservation.

Create HintDb bot_preserves.

#[local] Hint Resolve preserves_ret preserves_schedule_removal : bot_preserves.

Ltac preserve_steps :=
  repeat first
    [ progress cbv zeta
    | solve [apply preserves_neutral; neutral_steps]
    | solve [eauto with bot_preserves]
    | match goal with
      | |- preserves _ (upsert_schedule _ _ _) =>
          apply preserves_upsert_schedule; solve [done | intros [=]]
      | |- preserves _ (add_job _ _ _) =>
          apply preserves_add_job; solve [left; cbn; eauto | right; cbn; eauto]
      | |- preserves _ (for_each _ _) => apply preserves_for_each; intros ?
      | |- preserves _ (if_job_queue _ _) => apply preserves_if_job_queue
      | |- preserves _ (bind _ _) => apply preserves_bind; [| intros ?]
      | |- preserves _ (match ?x with _ => _ end) => destruct x
      | |- preserves _ (if ?b then _ else _) => destruct b
      | |- preserves _ (let (_, _) := ?x in _) => destruct x
      end ].

Section reachable_worlds.

Lemma preserves_restore_daily (rows : list (Z * option time_of_day)) :
  preserves bot_ok (restore_daily rows).
Proof.
  induction rows as [| [chat ot] rows IH]; cbn [restore_daily].
  - apply preserves_ret.
  - unfold run_daily. preserve_steps.
Qed.

Lemma preserves_restore_intervals (rows : list (Z * Z)) :
  preserves bot_ok (restore_intervals rows).
Proof.
  induction rows as [| [chat m] rows IH]; cbn [restore_intervals].
  - apply preserves_ret.
  - unfold run_repeating. preserve_steps.
Qed.

Lemma preserves_on_startup : preserves bot_ok on_startup.
Proof.
  unfold on_startup, try_except.
  pose proof preserves_restore_daily. pose proof preserves_restore_intervals.
  preserve_steps; eauto.
Qed.

Lemma neutral_rate_lines (subs : list string) : neutral (rate_lines subs).
Proof.
  induction subs as [| sym subs IH]; cbn [rate_lines]; neutral_steps.
Qed.

Lemma neutral_subscribe_each (chat : Z) (symbols : list string) :
  neutral (subscribe_each chat symbols).
Proof.
  induction symbols as [| sym symbols IH]; cbn [subscribe_each]; neutral_steps.
Qed.

Lemma preserves_handle (ev : event) : preserves bot_ok (handle ev).
Proof.
  pose proof neutral_rate_lines. pose proof neutral_subscribe_each.
  destruct ev; cbn [handle].
  - unfold start. preserve_steps.
  - unfold subscribe_cmd. preserve_steps.
  - unfold unsubscribe_cmd. preserve_steps.
  - unfold unsubscribe_all_cmd. preserve_steps.
  - unfold subscribe_top20_cmd. preserve_steps.
  - unfold list_cmd. preserve_steps.
  - unfold rates_cmd. preserve_steps.
  - unfold settime_cmd, try_except. preserve_steps.
  - unfold autoupdate_cmd, try_except, run_daily, remove_jobs_by_name.
    preserve_steps.
  - unfold setinterval_cmd, try_except, run_repeating, remove_jobs_by_name.
    preserve_steps.
  - unfold clearinterval_cmd, remove_jobs_by_name. preserve_steps.
  - unfold send_rates, try_except. preserve_steps.
  - intros w Hw. unfold main, run. apply preserves_on_startup.
    destruct Hw as [Hrows _]. split; [exact Hrows |].
    intros jobs. cbn. destruct with_job_queue; [| done].
    intros [= <-]. split; constructor.
Qed.

(** In every world the bot can be in, a schedule row without a time is
    disabled, and the jobs of the queue are named after their chat and
    kind and have distinct ids. *)
Lemma reachable_ok (w : world) : reachable w → bot_ok w.
Proof.
  induction 1 as [w q Hempty | w ev _ IH _].
  - unfold main, run. apply preserves_on_startup. split.
    + intros c en. cbn. by rewrite Hempty, lookup_empty.
    + intros jobs. cbn. destruct q; [| done]. intros [= <-]. split; constructor.
  - by apply preserves_handle.
Qed.

End reachable_worlds.

Section reachable_facts.

(** What the theorems about a fire and about the start of the process ask
    of the world holds in every world the bot can be in. *)
Lemma reachable_fire (w : world) (j : job) :
  reachable w → possible w (Fire j) →
  (job_name j = daily_name (job_chat_id j) ∨
   job_name j = interval_name (job_chat_id j)) ∧
  schedule_rows_ok w ∧
  (∀ chat, schedules w !! chat ≠ Some (None, true)) ∧
  (∀ jobs, job_queue w = Some jobs → NoDup (job_id <$> jobs)).
Proof.
  intros Hw Hj. destruct (reachable_ok w Hw) as [Hrows Hq]. cbn in Hj.
  split; [| split; [done | split]].
  - destruct (job_queue w) as [jobs |] eqn:E; [| by apply not_elem_of_nil in Hj].
    destruct (Hq jobs E) as [Hall _]. rewrite Forall_forall in Hall.
    destruct (Hall j Hj) as [_ [[Hn _] | [Hn _]]]; auto.
  - intros chat H. by destruct (Hrows chat true H) as [_ [=]].
  - intros jobs E. by destruct (Hq jobs E).
Qed.

End reachable_facts.

(** ** More of the subscription store *)

Section more_store.

Lemma statement_ok_nil (w : world) : db_faults w = [] → statement_ok w.
Proof. unfold statement_ok, next_fault. by intros ->. Qed.

Lemma next_fault_nil (w : world) : db_faults w = [] → run next_fault w = w.
Proof. unfold run, next_fault. by intros ->. Qed.

Lemma list_subscriptions_statement_ok (chat : Z) (w : world) :
  statement_ok w →
  fst (list_subscriptions chat w) =
    merge_sort symbol_le
      (elements (filter (λ row, row.1 = chat) (subscriptions w))).*2.
Proof.
  intros Hok. unfold list_subscriptions, bind. rewrite sql_ok by done.
  destruct (next_fault_frame w) as (_ & (Hs & _) & _).
  unfold select_symbols. by rewrite Hs.
Qed.

Lemma length_list_subscriptions (chat : Z) (w : world) :
  statement_ok w →
  length (fst (list_subscriptions chat w)) =
    size (filter (λ row, row.1 = chat) (subscriptions w)).
Proof.
  intros Hok. rewrite list_subscriptions_statement_ok by done.
  rewrite merge_sort_Permutation, length_fmap. reflexivity.
Qed.

Lemma clear_subscriptions_ok (chat : Z) (w : world) :
  statement_ok w →
  let w' := run (clear_subscriptions chat) w in
  fst (clear_subscriptions chat w) =
    Z.of_nat (size (filter (λ row, row.1 = chat) (subscriptions w))) ∧
  subscriptions w' =
    subscriptions w ∖ filter (λ row, row.1 = chat) (subscriptions w) ∧
  db_faults w' = db_faults (run next_fault w) ∧
  schedules w' = schedules w ∧ intervals w' = intervals w ∧
  same_process w w'.
Proof.
  intros Hok. unfold run at 1, clear_subscriptions, bind. rewrite sql_ok by done.
  destruct (next_fault_frame w) as (Hp & (Hs & Hd & Hi) & _).
  remember (run next_fault w) as w0 eqn:E. clear E.
  unfold delete_subscriptions, same_process in *. cbn. rewrite Hs, Hd, Hi.
  repeat split; tauto.
Qed.

(** X1: [clear_subscriptions], when its statement does not fail, returns
    the number of symbols that [list_subscriptions] listed for the chat and
    leaves no row of the chat; the rows of the other chats, the schedules,
    the intervals and the timers are as before, and a second call that does
    not fail returns 0. *)
Theorem clear_subscriptions_empties (w : world) (chat : Z) :
  statement_ok w →
  let n := fst (clear_subscriptions chat w) in
  let w' := run (clear_subscriptions chat) w in
  n = Z.of_nat (length (fst (list_subscriptions chat w))) ∧
  (∀ s, (chat, s) ∉ subscriptions w') ∧
  (∀ c s, c ≠ chat → (c, s) ∈ subscriptions w' ↔ (c, s) ∈ subscriptions w) ∧
  (statement_ok w' → fst (clear_subscriptions chat w') = 0) ∧
  schedules w' = schedules w ∧ intervals w' = intervals w ∧
  job_queue w' = job_queue w.
Proof.
  intros Hok n w'. subst n w'.
  destruct (clear_subscriptions_ok chat w Hok) as (Hn & Hs & _ & Hd & Hi & Hp).
  rewrite length_list_subscriptions by done.
  split; [done |]. split; [| split; [| split]].
  - intros s. rewrite Hs. set_solver.
  - intros c s Hne. rewrite Hs. set_solver.
  - intros Hok'.
    destruct (clear_subscriptions_ok chat _ Hok') as (Hn' & _). rewrite Hn', Hs.
    replace (filter _ _) with (∅ : gset (Z * string)); [done |].
    symmetry. apply set_eq. intros [c s]. set_solver.
  - repeat split; try done. apply Hp.
Qed.

Lemma clear_subscriptions_empties_witness :
  let w := add_all 7 ["btc"; "eth"] (add_all 8 ["usd"] empty_world) in
  fst (clear_subscriptions 7 w) = Z.of_nat (length (fst (list_subscriptions 7 w))) ∧
  ∀ s, (7, s) ∉ subscriptions (run (clear_subscriptions 7) w).
Proof.
  intros w.
  destruct (clear_subscriptions_empties w 7 eq_refl) as (H1 & H2 & _).
  split; [exact H1 | exact H2].
Defined.

Example clear_subscriptions_two :
  let w := add_all 7 ["btc"; "eth"] (add_all 8 ["usd"] empty_world) in
  fst (clear_subscriptions 7 w) = 2 ∧
  fst (list_subscriptions 8 (run (clear_subscriptions 7) w)) = ["USD"].
Proof. vm_compute. by split. Qed.

(** X2: with a store that does not fail, [unsubscribe_all_cmd] sends one
    reply, the count of the removed subscriptions or the text for a chat
    that had none, and the chat has no subscription afterwards; it touches
    neither the schedule and interval rows nor the timers of the chat. *)
Theorem unsubscribe_all_keeps_timers (w : world) (chat : Z) :
  db_faults w = [] →
  let n := length (fst (list_subscriptions chat w)) in
  let w' := run (unsubscribe_all_cmd chat) w in
  let text :=
    match n with
    | O => "У вас не было подписок для удаления."
    | _ => "Вы отписались от всех " ++ str_of_Z (Z.of_nat n) ++ " подписок ✅"
    end in
  outbox w' = (outbox w ++ [(chat, text)])%list ∧
  fst (list_subscriptions chat w') = [] ∧
  schedules w' = schedules w ∧ intervals w' = intervals w ∧
  job_queue w' = job_queue w.
Proof.
  intros Hf n w' text. subst w' text.
  pose proof (statement_ok_nil w Hf) as Hok.
  destruct (clear_subscriptions_ok chat w Hok) as (Hn & Hs & Hdb & Hd & Hi & Hp).
  rewrite next_fault_nil in Hdb by done.
  unfold unsubscribe_all_cmd. rewrite bind_run.
  set (w1 := run (clear_subscriptions chat) w) in *.
  assert (Hlen : fst (clear_subscriptions chat w) = Z.of_nat n)
    by (subst n; by rewrite length_list_subscriptions).
  rewrite Hlen.
  assert (Hrun : ∀ text, run (reply_text chat text) w1
                         = run (send_message chat text) w1) by done.
  assert (Hw' : run (if 0 <? Z.of_nat n
                     then reply_text chat
                            ("Вы отписались от всех " ++ str_of_Z (Z.of_nat n) ++
                             " подписок ✅")
                     else reply_text chat "У вас не было подписок для удаления.") w1
                = run (send_message chat
                         match n with
                         | O => "У вас не было подписок для удаления."
                         | _ => "Вы отписались от всех " ++ str_of_Z (Z.of_nat n) ++
                                " подписок ✅"
                         end) w1).
  { destruct n as [| k]; [done |].
    replace (0 <? Z.of_nat (S k)) with true by (symmetry; apply Z.ltb_lt; lia).
    done. }
  rewrite Hw', run_send_message. cbn [outbox schedules intervals job_queue].
  destruct Hp as (Hq & _ & Ho & _). rewrite Ho.
  split; [done |]. split; [| by rewrite Hd, Hi, Hq].
  rewrite list_subscriptions_ok by (cbn; congruence). cbn [subscriptions].
  rewrite Hs.
  replace (filter _ _) with (∅ : gset (Z * string)); [done |].
  symmetry. apply set_eq. intros [c s]. set_solver.
Qed.

Lemma unsubscribe_all_keeps_timers_witness :
  let w' := run (unsubscribe_all_cmd 7) cleared_chat_world in
  fst (list_subscriptions 7 w') = [] ∧
  schedules w' = schedules cleared_chat_world ∧
  job_queue w' = job_queue cleared_chat_world.
Proof.
  intros w'.
  destruct (unsubscribe_all_keeps_timers cleared_chat_world 7 eq_refl)
    as (_ & H1 & H2 & _ & H3).
  split; [exact H1 |]. split; [exact H2 | exact H3].
Defined.

End more_store.

Section round_trips.

(** X3: with a store that does not fail, subscribing a chat to a symbol
    it does not have and then unsubscribing it from any spelling of that
    symbol returns [True] twice and leaves the world as it was; so does
    unsubscribing from a symbol the chat has and subscribing again. *)
Theorem add_remove_round_trip (w : world) (chat : Z) (a b : string) :
  db_faults w = [] → upper a = upper b →
  ((chat, upper a) ∉ subscriptions w →
   let (r1, w1) := add_subscription chat a w in
   let (r2, w2) := remove_subscription chat b w1 in
   r1 = true ∧ r2 = true ∧ w2 = w) ∧
  ((chat, upper a) ∈ subscriptions w →
   let (r1, w1) := remove_subscription chat a w in
   let (r2, w2) := add_subscription chat b w1 in
   r1 = true ∧ r2 = true ∧ w2 = w).
Proof.
  intros Hf Hab.
  destruct w as [subs ? ? ? ? ? ? faults ? ? ? ? ? ? ? ? ? ?]. cbn in Hf. subst faults.
  unfold add_subscription, remove_subscription, insert_subscription,
    delete_subscriptions. rewrite <- Hab. repeat exec. split; intros Hin.
  - rewrite decide_False by done. repeat exec.
    rewrite size_filter_eq_row, decide_True by set_solver.
    rewrite size_singleton. repeat split. f_equal.
    apply set_eq. intros row. destruct (decide (row = (chat, upper a))); set_solver.
  - rewrite size_filter_eq_row.
    destruct (decide ((chat, upper a) ∈ subs)) as [_ | ?]; [| done].
    rewrite size_singleton. repeat exec. rewrite decide_False by set_solver. repeat exec. repeat split. f_equal.
    apply set_eq. intros row. destruct (decide (row = (chat, upper a))); set_solver.
Qed.

Lemma add_remove_round_trip_witness :
  let (r1, w1) := add_subscription 7 "btc" empty_world in
  let (r2, w2) := remove_subscription 7 "BTC" w1 in
  r1 = true ∧ r2 = true ∧ w2 = empty_world.
Proof.
  apply (proj1 (add_remove_round_trip empty_world 7 "btc" "BTC" eq_refl eq_refl)).
  apply not_elem_of_empty.
Defined.

(** X4: [start] always answers the chat with one message, the greeting
    that carries the chat's name, and changes neither the subscription
    store nor the timers.  The first [start] of a chat whose statement
    does not fail records the name; a chat that is recorded keeps the
    name it has, whatever name a later [start] carries. *)
Theorem start_registers_once (w : world) (chat : Z) (name : string) :
  let w' := run (start chat name) w in
  (∃ rest, let text := "Привет, " ++ name ++ rest in
           outbox w' = (outbox w ++ [(chat, text)])%list) ∧
  same_tables w w' ∧ job_queue w' = job_queue w ∧
  (users w !! chat = None → statement_ok w → users w' !! chat = Some name) ∧
  (is_Some (users w !! chat) → users w' = users w) ∧
  (∀ other, other ≠ chat → users w' !! other = users w !! other).
Proof.
  cbn zeta. unfold start. rewrite bind_run. unfold reply_text.
  rewrite run_send_message. cbn [outbox job_queue users].
  assert (H : let w1 := run (add_user chat name) w in
              outbox w1 = outbox w ∧ same_tables w w1 ∧
              job_queue w1 = job_queue w ∧
              (users w !! chat = None → statement_ok w →
               users w1 !! chat = Some name) ∧
              (is_Some (users w !! chat) → users w1 = users w) ∧
              (∀ other, other ≠ chat → users w1 !! other = users w !! other)).
  { destruct w as [? ? ? ? ? ? ? faults ? ? ? ? ? ? ? us ? ?].
    unfold same_tables, statement_ok, add_user, insert_user. exec.
    destruct faults as [| [e |] rest]; exec;
      destruct (us !! chat) as [old |] eqn:Hrow; exec;
      repeat split; try done; try (by intros [? [=]]);
      try (intros; by rewrite lookup_insert_eq);
      try (intros; by rewrite lookup_insert_ne);
      destruct rest as [| [e' |] rest']; exec; try done. }
  cbn zeta in H. destruct H as (Ho & Ht & Hq & Hnew & Hold & Hother).
  split; [| done]. rewrite Ho. eexists. reflexivity.
Qed.

Lemma start_registers_once_witness :
  let w := run (start 7 "Ann") empty_world in
  users w !! 7 = Some "Ann" ∧ users (run (start 7 "Bob") w) = users w.
Proof.
  intros w. split.
  - exact (proj1 (proj2 (proj2 (proj2 (start_registers_once empty_world 7 "Ann"))))
             eq_refl eq_refl).
  - refine (proj1 (proj2 (proj2 (proj2 (proj2 (start_registers_once w 7 "Bob"))))) _).
    exists "Ann". reflexivity.
Defined.

Lemma get_interval_ok (chat : Z) (w : world) :
  db_faults w = [] →
  fst (get_interval chat w) =
    match intervals w !! chat with
    | Some (m, en) => (Some m, en)
    | None => (None, false)
    end ∧
  run (get_interval chat) w = w.
Proof.
  destruct w. cbn. intros ->. unfold get_interval, select_interval.
  exec_all; by repeat split.
Qed.

Lemma upsert_interval_ok (chat : Z) (m : option Z) (en : bool) (w : world) :
  db_faults w = [] →
  let w' := run (upsert_interval chat m en) w in
  intervals w' =
    match m with
    | Some minutes => <[chat := (minutes, en)]> (intervals w)
    | None => alter (λ row, (row.1, en)) chat (intervals w)
    end ∧
  schedules w' = schedules w ∧ subscriptions w' = subscriptions w ∧
  db_faults w' = [] ∧ log_records w' = log_records w ∧
  error_logs w' = error_logs w ∧ same_process w w'.
Proof.
  destruct w. cbn. intros ->. unfold upsert_interval, write_interval, same_process.
  exec_all; by repeat split.
Qed.

(** X5: with a store that does not fail, [get_interval] after
    [upsert_interval] with a number of minutes returns these minutes and
    the flag that was written, whatever the row of the chat was; the rows
    of the other chats read as before. *)
Theorem interval_round_trip (w : world) (chat minutes : Z) (en : bool) :
  db_faults w = [] →
  let w' := run (upsert_interval chat (Some minutes) en) w in
  fst (get_interval chat w') = (Some minutes, en) ∧
  ∀ other, other ≠ chat →
    fst (get_interval other w') = fst (get_interval other w).
Proof.
  intros Hf w'. subst w'.
  destruct (upsert_interval_ok chat (Some minutes) en w Hf)
    as (Hi & _ & _ & Hf' & _).
  split.
  - rewrite (proj1 (get_interval_ok chat _ Hf')), Hi. by rewrite lookup_insert_eq.
  - intros other Hne.
    rewrite (proj1 (get_interval_ok other _ Hf')), (proj1 (get_interval_ok other _ Hf)).
    by rewrite Hi, lookup_insert_ne.
Qed.

Lemma interval_round_trip_witness :
  fst (get_interval 7 (run (upsert_interval 7 (Some 15) true) empty_world))
  = (Some 15, true).
Proof. exact (proj1 (interval_round_trip empty_world 7 15 true eq_refl)). Defined.

(** X6: [upsert_interval] without a number of minutes is an [UPDATE] of
    the flag only: with a store that does not fail, a chat that has an
    interval row keeps its minutes and gets the flag, and a chat that has
    no row still has none, so [get_interval] returns [(None, False)] even
    after the flag was written as [True]. *)
Theorem upsert_interval_flag_only (w : world) (chat : Z) (en : bool) :
  db_faults w = [] →
  let w' := run (upsert_interval chat None en) w in
  fst (get_interval chat w') =
    match fst (get_interval chat w) with
    | (Some minutes, _) => (Some minutes, en)
    | (None, _) => (None, false)
    end ∧
  (intervals w !! chat = None → intervals w' = intervals w) ∧
  ∀ other, other ≠ chat → intervals w' !! other = intervals w !! other.
Proof.
  intros Hf w'. subst w'.
  destruct (upsert_interval_ok chat None en w Hf) as (Hi & _ & _ & Hf' & _).
  rewrite (proj1 (get_interval_ok chat _ Hf')), (proj1 (get_interval_ok chat _ Hf)).
  rewrite Hi. split; [| split].
  - rewrite lookup_alter_eq. by destruct (intervals w !! chat) as [[m e] |].
  - intros Hnone. apply map_eq. intros c.
    destruct (decide (c = chat)) as [-> | Hne].
    + by rewrite lookup_alter_eq, Hnone.
    + by rewrite lookup_alter_ne.
  - intros other Hne. by rewrite lookup_alter_ne.
Qed.

Lemma upsert_interval_flag_only_witness :
  fst (get_interval 7 (run (upsert_interval 7 None true) empty_world))
  = (None, false) ∧
  fst (get_interval 7 (run (upsert_interval 7 None false)
                         (run (upsert_interval 7 (Some 15) true) empty_world)))
  = (Some 15, false).
Proof.
  split.
  - exact (proj1 (upsert_interval_flag_only empty_world 7 true eq_refl)).
  - exact (proj1 (upsert_interval_flag_only
                    (run (upsert_interval 7 (Some 15) true) empty_world) 7 false
                    eq_refl)).
Defined.

(** X7: with a store that does not fail, [get_schedule] after
    [upsert_schedule] returns the flag that was written and the time as
    the store read it, printed as [HH:MM]; when the store rejects the text
    of the time the row is not written, [get_schedule] returns what it
    returned before and [error_logs] has a row with the text of the
    driver's exception after the name of the function. *)
Theorem schedule_round_trip (w : world) (chat : Z) (t : string) (en : bool) :
  db_faults w = [] →
  let w' := run (upsert_schedule chat (Some t) en) w in
  match time_input w t with
  | Some tm => fst (get_schedule chat w') = (Some (strftime_HM tm), en)
  | None =>
      fst (get_schedule chat w') = fst (get_schedule chat w) ∧
      error_logs w' =
        (error_logs w ++
         [{| er_function := "upsert_schedule"; er_chat := Some chat;
             er_message := String.append "upsert_schedule: "
               (error_text w (TimeTextRejected t)) |}])%list
  end.
Proof.
  intros Hf w'. subst w'.
  destruct (upsert_schedule_run_ok chat (Some t) en w Hf) as [Hf' Hs].
  rewrite (proj1 (get_schedule_ok chat _ Hf')), Hs. unfold insert_schedule.
  destruct (time_input w t) as [tm |] eqn:Ht.
  - cbn. by rewrite lookup_insert_eq.
  - rewrite (proj1 (get_schedule_ok chat _ Hf)). split; [done |].
    destruct w. cbn in *. subst. unfold upsert_schedule, insert_schedule.
    repeat exec. rewrite Ht. repeat exec. done.
Qed.

Lemma schedule_round_trip_witness :
  fst (get_schedule 7 (run (upsert_schedule 7 (Some "9:5") true) empty_world))
  = (Some "09:05", true).
Proof. exact (schedule_round_trip empty_world 7 "9:5" true eq_refl). Defined.

End round_trips.

(** ** Commands that leave the store and the timers alone *)

Section quiet_steps.

Lemma same_state_refl (w : world) : same_state w w.
Proof. by repeat split. Qed.

Lemma same_state_frame {A} (c : M A) (w0 : world) :
  (∀ w, same_process w (run c w) ∧ same_tables w (run c w)) →
  preserves (same_state w0) c.
Proof.
  intros Hc w Hw. destruct (Hc w) as [Hp Ht].
  unfold same_state, same_process, same_tables in *. destruct_and!.
  repeat split; congruence.
Qed.

Lemma get_interval_frame (chat : Z) (w : world) :
  same_process w (run (get_interval chat) w) ∧
  same_tables w (run (get_interval chat) w).
Proof.
  destruct w. unfold same_process, same_tables, get_interval, select_interval.
  exec_all; by repeat split.
Qed.

Lemma state_send_message (w0 : world) (chat : Z) (text : string) :
  preserves (same_state w0) (send_message chat text).
Proof. by intros w. Qed.

Lemma state_logger_error (w0 : world) (msg : string) :
  preserves (same_state w0) (logger_error msg).
Proof. by intros w. Qed.

Lemma state_read {A} (w0 : world) (f : world → A) :
  preserves (same_state w0) (λ w, (f w, w)).
Proof. by intros w. Qed.

Lemma state_report_error (w0 : world) (fn : string) (c : option Z) (e : string) :
  preserves (same_state w0) (report_error fn c e).
Proof. apply same_state_frame. intros w. apply report_error_frame. Qed.

Lemma state_list_subscriptions (w0 : world) (chat : Z) :
  preserves (same_state w0) (list_subscriptions chat).
Proof. apply same_state_frame. intros w. apply list_subscriptions_frame. Qed.

Lemma state_get_schedule (w0 : world) (chat : Z) :
  preserves (same_state w0) (get_schedule chat).
Proof. apply same_state_frame. intros w. apply get_schedule_frame. Qed.

Lemma state_get_interval (w0 : world) (chat : Z) :
  preserves (same_state w0) (get_interval chat).
Proof. apply same_state_frame. intros w. apply get_interval_frame. Qed.

Lemma state_rate_lines (w0 : world) (subs : list string) :
  preserves (same_state w0) (rate_lines subs).
Proof.
  apply same_state_frame. intros w.
  destruct (rate_lines_frame subs w) as (? & ? & _). done.
Qed.

End quiet_steps.

Create HintDb bot_state.

#[local] Hint Resolve preserves_ret state_send_message state_logger_error
  state_read state_report_error state_list_subscriptions state_get_schedule
  state_get_interval state_rate_lines : bot_state.

Ltac state_steps :=
  repeat first
    [ progress cbv zeta
    | solve [eauto with bot_state]
    | match goal with
      | |- preserves _ (bind _ _) => apply preserves_bind; [| intros ?]
      | |- preserves _ (match ?x with _ => _ end) => destruct x
      | |- preserves _ (if ?b then _ else _) => destruct b
      | |- preserves _ (let (_, _) := ?x in _) => destruct x
      end ].

Section quiet_commands.

(** X8: [list_cmd] and [rates_cmd] only read: whatever the store and the
    provider do, the subscriptions, the schedules, the intervals and the
    timers are as before, and the chat gets exactly one message. *)
Theorem listing_commands_read_only (w : world) (chat : Z) :
  (same_state w (run (list_cmd chat) w) ∧
   ∃ text, outbox (run (list_cmd chat) w) = (outbox w ++ [(chat, text)])%list) ∧
  (same_state w (run (rates_cmd chat) w) ∧
   ∃ text, outbox (run (rates_cmd chat) w) = (outbox w ++ [(chat, text)])%list).
Proof.
  split; split.
  - assert (H : preserves (same_state w) (list_cmd chat))
      by (unfold list_cmd; state_steps).
    apply H, same_state_refl.
  - unfold list_cmd. rewrite bind_run.
    destruct (list_subscriptions_frame chat w) as [(_ & _ & Ho & _) _].
    destruct (fst (list_subscriptions chat w)); unfold reply_text;
      rewrite run_send_message; cbn [outbox]; rewrite Ho; eauto.
  - assert (H : preserves (same_state w) (rates_cmd chat))
      by (unfold rates_cmd; state_steps).
    apply H, same_state_refl.
  - unfold rates_cmd. rewrite bind_run.
    destruct (list_subscriptions_frame chat w) as [(_ & _ & Ho & _) _].
    set (w1 := run (list_subscriptions chat) w) in *.
    destruct (fst (list_subscriptions chat w)) as [| s subs]; unfold reply_text.
    + rewrite run_send_message; cbn [outbox]; rewrite Ho; eauto.
    + rewrite !bind_run. change (run (λ w0 : world, (clock w0, w0)) w1) with w1.
      destruct (rate_lines_frame (s :: subs) w1) as ((_ & _ & Ho2 & _) & _).
      rewrite run_send_message; cbn [outbox]. rewrite Ho2, Ho. eauto.
Qed.

Lemma get_interval_enabled (chat : Z) (w : world) :
  snd (fst (get_interval chat w)) = true →
  interval_enabled w chat = true ∧ statement_ok w.
Proof.
  destruct w. unfold get_interval, select_interval, interval_enabled, statement_ok.
  exec_all; by repeat split.
Qed.

(** X9: [clearinterval_cmd] for a chat whose interval row is missing or
    disabled, or whose row cannot be read because the statement fails,
    answers that the notifications are already off and does nothing else:
    the tables are as before and no job leaves the queue, not even an
    interval job of the chat. *)
Theorem clearinterval_already_off (w : world) (chat : Z) :
  interval_enabled w chat = false ∨ ¬ statement_ok w →
  let w' := run (clearinterval_cmd chat) w in
  outbox w' =
    (outbox w ++ [(chat, "Периодические уведомления уже выключены.")])%list ∧
  same_state w w'.
Proof.
  intros Hoff w'. subst w'. unfold clearinterval_cmd. rewrite bind_run.
  assert (Hflag : snd (fst (get_interval chat w)) = false).
  { destruct (snd (fst (get_interval chat w))) eqn:E; [| done].
    apply get_interval_enabled in E as [E1 E2].
    destruct Hoff as [Hoff | Hoff]; [congruence | done]. }
  rewrite Hflag. cbn [negb]. unfold reply_text. rewrite run_send_message.
  destruct (get_interval_frame chat w) as [Hp Ht].
  unfold same_state, same_process, same_tables in *. cbn. destruct_and!.
  repeat split; congruence.
Qed.

Lemma clearinterval_already_off_witness :
  let w := set_db_faults [Some "connection refused"]
             (run (setinterval_cmd 7 ["30"]) empty_world) in
  interval_enabled w 7 = true ∧
  job_queue (run (clearinterval_cmd 7) w) = Some [interval_job 0 7 30].
Proof.
  intros w. split; [reflexivity |].
  refine (proj1 (proj2 (proj2 (clearinterval_already_off w 7 _)))).
  right. discriminate.
Defined.

Lemma alter_present {V} (f : V → V) (k : Z) (v : V) (m : gmap Z V) :
  m !! k = Some v → alter f k m = <[k := f v]> m.
Proof.
  intros Hk. apply map_eq. intros i. destruct (decide (i = k)) as [-> | Hne].
  - by rewrite lookup_alter_eq, lookup_insert_eq, Hk.
  - by rewrite lookup_alter_ne, lookup_insert_ne.
Qed.

(** What is left of a queue when the jobs of a name are removed from it. *)
Lemma remove_jobs_by_name_leaves (name : string) (jobs : list job) (w : world) :
  job_queue w = Some jobs →
  let w' := run (remove_jobs_by_name name) w in
  fst (get_jobs_by_name name w') = [] ∧
  ∃ kept, job_queue w' = Some kept ∧
    Forall (λ j, j ∈ jobs ∧ job_name j ≠ name) kept ∧
    (NoDup (job_id <$> jobs) → kept = filter (λ j, job_name j ≠ name) jobs).
Proof.
  intros Hq. destruct (remove_jobs_by_name_run name jobs w Hq) as (Hq' & _).
  cbn zeta. split.
  - rewrite (get_jobs_by_name_some _ _ _ Hq').
    apply filter_none. eapply Forall_impl; [apply removed_by_name |].
    intros j Hj. cbn in Hj. done.
  - eexists. split; [exact Hq' |]. split.
    + apply Forall_forall. intros j Hj. split.
      * by apply list_elem_of_filter in Hj as [_ ?].
      * revert j Hj. apply Forall_forall, removed_by_name.
    + apply kept_by_name.
Qed.

(** X10: with a job queue and a store that does not fail,
    [clearinterval_cmd] for a chat whose interval row is enabled writes
    [enabled = False] and keeps the minutes of the row, answers that the
    notifications are off, and removes every job named after the chat's
    interval; the other jobs stay, and the schedules and subscriptions are
    as before. *)
Theorem clearinterval_disarms (w : world) (chat minutes : Z) (jobs : list job) :
  db_faults w = [] → intervals w !! chat = Some (minutes, true) →
  job_queue w = Some jobs →
  let w' := run (clearinterval_cmd chat) w in
  intervals w' = <[chat := (minutes, false)]> (intervals w) ∧
  fst (get_jobs_by_name (interval_name chat) w') = [] ∧
  (∃ kept, job_queue w' = Some kept ∧
     Forall (λ j, j ∈ jobs ∧ job_name j ≠ interval_name chat) kept ∧
     (NoDup (job_id <$> jobs) →
      kept = filter (λ j, job_name j ≠ interval_name chat) jobs)) ∧
  outbox w' = (outbox w ++ [(chat, "Периодические уведомления выключены.")])%list ∧
  schedules w' = schedules w ∧ subscriptions w' = subscriptions w.
Proof.
  intros Hf Hrow Hq w'. subst w'. unfold clearinterval_cmd. rewrite bind_run.
  destruct (get_interval_ok chat w Hf) as [Hr Hw]. rewrite Hr, Hw, Hrow.
  cbn [snd negb]. rewrite !bind_run.
  destruct (upsert_interval_ok chat None false w Hf)
    as (Hi & Hs & Hsub & _ & _ & _ & Hp).
  set (w1 := run (upsert_interval chat None false) w) in *.
  unfold reply_text. rewrite run_send_message.
  match goal with |- context [run (if_job_queue _ _) ?w0] => set (w2 := w0) end.
  destruct Hp as (Hq1 & _ & Ho1 & _).
  assert (Hq2 : job_queue w2 = Some jobs) by (subst w2; cbn; congruence).
  rewrite run_if_job_queue_some by (rewrite Hq2; eauto).
  destruct (remove_jobs_by_name_run (interval_name chat) jobs w2 Hq2)
    as (_ & _ & Ho3 & (Hsub3 & Hs3 & Hi3) & _).
  destruct (remove_jobs_by_name_leaves (interval_name chat) jobs w2 Hq2)
    as [Hnone Hkept].
  set (w3 := run (remove_jobs_by_name (interval_name chat)) w2) in *.
  rewrite Hi3, Hs3, Hsub3, Ho3. subst w2. cbn [intervals schedules subscriptions outbox].
  rewrite Hi, Hs, Hsub, Ho1, (alter_present _ chat (minutes, true)) by done.
  done.
Qed.

Lemma clearinterval_disarms_witness :
  let w := run (setinterval_cmd 7 ["30"]) empty_world in
  let w' := run (clearinterval_cmd 7) w in
  intervals w' = <[7 := (30, false)]> (intervals w) ∧
  fst (get_jobs_by_name (interval_name 7) w') = [].
Proof.
  intros w w'.
  destruct (clearinterval_disarms w 7 30 [interval_job 0 7 30]
              eq_refl eq_refl eq_refl) as (H1 & H2 & _).
  split; [exact H1 | exact H2].
Defined.

End quiet_commands.

Section daily_commands.

Lemma get_schedule_time (chat : Z) (s : string) (w : world) :
  fst (fst (get_schedule chat w)) = Some s →
  ∃ t en, schedules w !! chat = Some (Some t, en) ∧ s = strftime_HM t.
Proof.
  destruct w. unfold get_schedule, select_schedule.
  exec_all; intros; simplify_eq; eauto.
Qed.

(** X11: [autoupdate_cmd] for a chat without a stored time (no schedule
    row, or a row without a time) answers that the time has to be set
    first, whatever the mode asked for, and does nothing else: the tables
    and the timers are as before. *)
Theorem autoupdate_needs_time (w : world) (chat : Z) (a : string)
    (rest : list string) :
  (∀ t en, schedules w !! chat ≠ Some (Some t, en)) →
  let w' := run (autoupdate_cmd chat (a :: rest)) w in
  outbox w' =
    (outbox w ++ [(chat, "Сначала установите время через /settime HH:MM")])%list ∧
  same_state w w'.
Proof.
  intros Hrow w'. subst w'. unfold autoupdate_cmd. cbv zeta.
  rewrite run_try_except, !bind_fst, !bind_run.
  destruct (get_schedule_frame chat w) as [Hp Ht].
  assert (Hnone : fst (fst (get_schedule chat w)) = None).
  { destruct (fst (fst (get_schedule chat w))) as [s |] eqn:E; [| done].
    apply get_schedule_time in E as (t & en & E & _). by apply Hrow in E. }
  set (w1 := run (get_schedule chat) w) in *. rewrite Hnone.
  rewrite !bind_fst, !bind_run. cbn [ret fst]. rewrite run_ret.
  unfold reply_text. rewrite run_send_message.
  unfold same_state, same_process, same_tables in *. cbn. destruct_and!.
  repeat split; congruence.
Qed.

Lemma autoupdate_needs_time_witness :
  outbox (run (autoupdate_cmd 7 ["on"]) empty_world) =
    [(7, "Сначала установите время через /settime HH:MM")] ∧
  job_queue (run (autoupdate_cmd 7 ["on"]) empty_world) = Some [].
Proof.
  assert (H : ∀ t en, schedules empty_world !! 7 ≠ Some (Some t, en))
    by (intros t en; cbn; rewrite lookup_empty; discriminate).
  destruct (autoupdate_needs_time empty_world 7 "on" [] H) as (H1 & _ & H2 & _).
  split; [exact H1 | exact H2].
Defined.

(** X12: [autoupdate_cmd] changes the store or the timers only for the
    modes [on] and [off], read without regard to case: with any other
    argument, or with none, the tables and the timers are as before,
    whatever the store holds. *)
Theorem autoupdate_other_mode (w : world) (chat : Z) (args : list string) :
  (∀ a rest, args = a :: rest → lower a ≠ "on" ∧ lower a ≠ "off") →
  same_state w (run (autoupdate_cmd chat args) w).
Proof.
  intros Hmode.
  assert (H : preserves (same_state w) (autoupdate_cmd chat args)).
  { unfold autoupdate_cmd, try_except. destruct args as [| a rest]; [state_steps |].
    destruct (Hmode a rest eq_refl) as [Hon Hoff].
    apply String.eqb_neq in Hon, Hoff. cbv zeta.
    apply preserves_bind; [| intros ?; state_steps].
    apply preserves_bind; [state_steps | intros sched].
    destruct (fst sched) as [[| c s] |]; [state_steps | | state_steps].
    destruct (parse_hh_mm (String c s)) as [[hh mm] |]; [| state_steps].
    destruct (py_time hh mm); [state_steps |].
    rewrite Hon, Hoff. state_steps. }
  apply H, same_state_refl.
Qed.

Lemma autoupdate_other_mode_witness :
  let w := run (autoupdate_cmd 7 ["on"]) (run (settime_cmd 7 ["09:00"]) empty_world) in
  same_state w (run (autoupdate_cmd 7 ["toggle"]) w).
Proof.
  intros w. apply (autoupdate_other_mode w 7 ["toggle"]).
  intros a rest [= <- <-]. split; discriminate.
Defined.

(** X13: with a job queue and a store that does not fail,
    [autoupdate_cmd] with the mode [off], in any letter case, for a chat
    with a stored time answers that the notifications are off and removes
    every job named after the chat's daily schedule, however many there
    are; the other jobs stay.  When the store reads the stored time back,
    the row of the chat is disabled. *)
Theorem autoupdate_off_disarms (w : world) (chat : Z) (a : string)
    (rest : list string) (t : time_of_day) (en : bool) (jobs : list job) :
  lower a = "off" → db_faults w = [] → job_queue w = Some jobs →
  schedules w !! chat = Some (Some t, en) →
  valid_hh_mm (hour t) (minute t) = true →
  let w' := run (autoupdate_cmd chat (a :: rest)) w in
  fst (get_jobs_by_name (daily_name chat) w') = [] ∧
  (∃ kept, job_queue w' = Some kept ∧
     Forall (λ j, j ∈ jobs ∧ job_name j ≠ daily_name chat) kept ∧
     (NoDup (job_id <$> jobs) →
      kept = filter (λ j, job_name j ≠ daily_name chat) jobs)) ∧
  outbox w' = (outbox w ++ [(chat, "Ежедневные уведомления выключены.")])%list ∧
  (∀ tm, time_input w (strftime_HM t) = Some tm →
         schedules w' = <[chat := (Some tm, false)]> (schedules w)) ∧
  intervals w' = intervals w ∧ subscriptions w' = subscriptions w.
Proof.
  intros Hmode Hf Hq Hrow Hvalid w'. subst w'. unfold autoupdate_cmd.
  cbv zeta. rewrite Hmode.
  rewrite run_try_except, !bind_fst, !bind_run.
  destruct (get_schedule_ok chat w Hf) as [Hr Hf1]. rewrite Hrow in Hr.
  destruct (get_schedule_frame chat w)
    as [(Hq1 & Hn1 & Ho1 & _ & Hti1 & _) (Hsub1 & Hs1 & Hi1)].
  set (w1 := run (get_schedule chat) w) in *. rewrite Hr. cbn [fst].
  pose proof (strftime_HM_nonempty t) as Hne.
  apply valid_hh_mm_spec in Hvalid as Hrange.
  pose proof (parse_hh_mm_canonical (hour t) (minute t)
                (proj1 Hrange) (proj2 Hrange)) as Hparse.
  fold (strftime_HM t) in Hparse.
  destruct (strftime_HM t) as [| c r] eqn:Etext; [done |].
  rewrite Hparse. unfold py_time. rewrite Hvalid.
  change (String.eqb "off" "on") with false.
  change (String.eqb "off" "off") with true. cbv iota.
  rewrite !bind_fst, !bind_run. unfold reply_text.
  destruct (upsert_schedule_frame chat (Some (String c r)) false w1)
    as ((Hq2 & Hn2 & Ho2 & _) & Hsub2 & Hi2).
  destruct (upsert_schedule_run_ok chat (Some (String c r)) false w1 Hf1)
    as [_ Hs2].
  set (w2 := run (upsert_schedule chat _ false) w1) in *.
  rewrite !run_send_message.
  match goal with |- context [if_job_queue _ _ ?w0] => set (w3 := w0) end.
  assert (Hq3 : job_queue w3 = Some jobs) by (subst w3; cbn; congruence).
  rewrite if_job_queue_some, !run_if_job_queue_some by (rewrite Hq3; eauto).
  rewrite !bind_fst, !bind_run. cbn [ret fst]. rewrite run_ret.
  destruct (remove_jobs_by_name_run (daily_name chat) jobs w3 Hq3)
    as (_ & _ & Ho4 & (Hsub4 & Hs4 & Hi4) & _).
  destruct (remove_jobs_by_name_leaves (daily_name chat) jobs w3 Hq3)
    as [Hnone Hkept].
  set (w4 := run (remove_jobs_by_name (daily_name chat)) w3) in *.
  split; [done |]. split; [done |].
  rewrite Ho4, Hs4, Hi4, Hsub4. subst w3.
  cbn [outbox schedules intervals subscriptions].
  rewrite Ho2, Ho1, Hi2, Hi1, Hsub2, Hsub1. split; [done |]. split; [| done].
  intros tm Htm. rewrite Hs2. unfold insert_schedule. rewrite Hti1, Htm. cbn.
  by rewrite Hs1.
Qed.

Lemma autoupdate_off_disarms_witness :
  let at_nine := {| hour := 9; minute := 0 |} in
  let daily id := {| job_id := id; job_name := daily_name 7; job_chat_id := 7;
                     job_trigger := Daily at_nine |} in
  let w := set_jobs [daily 0%nat; interval_job 1 7 30; daily 2%nat] 3
             (set_schedules {[ 7 := (Some at_nine, true) ]} empty_world) in
  let w' := run (autoupdate_cmd 7 ["OFF"]) w in
  fst (get_jobs_by_name (daily_name 7) w') = [] ∧
  schedules w' = <[7 := (Some at_nine, false)]> (schedules w).
Proof.
  intros at_nine daily w w'.
  destruct (autoupdate_off_disarms w 7 "OFF" [] at_nine true
              [daily 0%nat; interval_job 1 7 30; daily 2%nat]
              eq_refl eq_refl eq_refl eq_refl eq_refl) as (H1 & _ & _ & H2 & _).
  split; [exact H1 | exact (H2 at_nine eq_refl)].
Defined.

End daily_commands.

Section rejected_arguments.

(** X14: [settime_cmd] with a text that is not two integers around one
    colon, or whose hour or minute is out of range, writes nothing to the
    schedules and touches no timer: it logs the failure and answers with
    the format hint. *)
Theorem settime_rejects (w : world) (chat : Z) (t : string) (rest : list string) :
  (∀ hh mm, parse_hh_mm t = Some (hh, mm) → valid_hh_mm hh mm = false) →
  let w' := run (settime_cmd chat (t :: rest)) w in
  let hint := "Неверный формат времени. Используйте HH:MM в 24-часовом формате." in
  (∃ e, w' = run (reply_text chat hint)
                (run (report_error "settime_cmd" (Some chat) e) w)) ∧
  outbox w' = (outbox w ++ [(chat, hint)])%list ∧
  same_state w w'.
Proof.
  intros Hbad w' hint. subst w' hint. unfold settime_cmd. cbv beta iota.
  destruct (parse_hh_mm t) as [[hh mm] |] eqn:E;
    [rewrite (Hbad hh mm eq_refl); cbn [negb] |];
    rewrite run_try_except; cbn [ret fst]; rewrite run_ret, !bind_run;
    match goal with
    | |- context [report_error _ _ ?e] =>
        destruct (report_error_frame "settime_cmd" (Some chat) e w) as [Hp Ht]
    end;
    (split; [by eexists |]); unfold reply_text; rewrite run_send_message;
    unfold same_state, same_process, same_tables in *; cbn; destruct_and!;
    repeat split; congruence.
Qed.

Lemma settime_rejects_witness :
  let w := run (settime_cmd 7 ["09:00"]) empty_world in
  same_state w (run (settime_cmd 7 ["24:00"]) w) ∧
  same_state w (run (settime_cmd 7 ["9h30"]) w).
Proof.
  intros w. split.
  - refine (proj2 (proj2 (settime_rejects w 7 "24:00" [] _))).
    intros hh mm H. vm_compute in H. injection H as <- <-. reflexivity.
  - refine (proj2 (proj2 (settime_rejects w 7 "9h30" [] _))).
    intros hh mm H. vm_compute in H. discriminate H.
Defined.

(** X15: [setinterval_cmd] with an argument that is not an integer, or
    with an integer that is not positive, writes nothing to the intervals
    and neither removes nor arms a timer: it logs the failure and answers
    with the hint. *)
Theorem setinterval_rejects (w : world) (chat : Z) (a : string)
    (rest : list string) :
  (∀ minutes, py_int a = Some minutes → minutes <= 0) →
  let w' := run (setinterval_cmd chat (a :: rest)) w in
  let hint := "Неверный интервал. Введите целое положительное число минут." in
  (∃ e, w' = run (reply_text chat hint)
                (run (report_error "setinterval_cmd" (Some chat) e) w)) ∧
  outbox w' = (outbox w ++ [(chat, hint)])%list ∧
  same_state w w'.
Proof.
  intros Hbad w' hint. subst w' hint. unfold setinterval_cmd. cbv beta iota.
  destruct (py_int a) as [minutes |] eqn:E;
    [rewrite (proj2 (Z.leb_le minutes 0)) by auto |];
    rewrite run_try_except; cbn [ret fst]; rewrite run_ret, !bind_run;
    match goal with
    | |- context [report_error _ _ ?e] =>
        destruct (report_error_frame "setinterval_cmd" (Some chat) e w) as [Hp Ht]
    end;
    (split; [by eexists |]); unfold reply_text; rewrite run_send_message;
    unfold same_state, same_process, same_tables in *; cbn; destruct_and!;
    repeat split; congruence.
Qed.

Lemma setinterval_rejects_witness :
  let w := run (setinterval_cmd 7 ["30"]) empty_world in
  same_state w (run (setinterval_cmd 7 ["0"]) w) ∧
  same_state w (run (setinterval_cmd 7 ["-5"]) w) ∧
  same_state w (run (setinterval_cmd 7 ["1.5"]) w).
Proof.
  intros w. split; [| split].
  - refine (proj2 (proj2 (setinterval_rejects w 7 "0" [] _))).
    intros m H. vm_compute in H. injection H as <-. lia.
  - refine (proj2 (proj2 (setinterval_rejects w 7 "-5" [] _))).
    intros m H. vm_compute in H. injection H as <-. lia.
  - refine (proj2 (proj2 (setinterval_rejects w 7 "1.5" [] _))).
    intros m H. vm_compute in H. discriminate H.
Defined.

End rejected_arguments.

(** ** Reports, the listing, and the names of the jobs *)

Section reports.

(** X16: for a chat with subscriptions, [rates_cmd] and a fire of
    [send_rates] for a job named after the chat do the same: the world
    after the one is the world after the other, with the same report sent
    to the chat. *)
Theorem rates_cmd_as_send_rates (w : world) (j : job) (chat : Z) :
  job_name_chat_id (job_name j) = Some chat →
  fst (list_subscriptions chat w) ≠ [] →
  run (send_rates j) w = run (rates_cmd chat) w.
Proof.
  intros Hname Hsubs. unfold send_rates, rates_cmd. rewrite Hname.
  rewrite run_try_except, !bind_fst, !bind_run.
  destruct (fst (list_subscriptions chat w)) as [| s subs]; [done |].
  rewrite !bind_fst, !bind_run. cbn [ret fst]. by rewrite run_ret.
Qed.

Lemma rates_cmd_as_send_rates_witness :
  let w := run (subscribe_cmd 7 ["btc"]) empty_world in
  run (send_rates (interval_job 0 7 30)) w = run (rates_cmd 7) w.
Proof.
  intros w. apply (rates_cmd_as_send_rates w (interval_job 0 7 30) 7).
  - reflexivity.
  - vm_compute. discriminate.
Defined.

(** X17: with a store that does not fail, the lines of a report are made
    one symbol at a time and in the order of the subscriptions: each line
    is the line of what [get_exchange_rate] and [get_yesterday_rate]
    return for its symbol in the world before the report, so a symbol the
    provider fails for gets the no-data line and the other lines do not
    change. *)
Theorem report_lines_independent (w : world) (subs : list string) :
  db_faults w = [] →
  fst (rate_lines subs w) =
    (λ sym, rate_line sym (fst (get_exchange_rate sym w))
              (fst (get_yesterday_rate sym w))) <$> subs ∧
  ∀ sym, fst (get_exchange_rate sym w) = None →
    rate_line sym (fst (get_exchange_rate sym w)) (fst (get_yesterday_rate sym w))
    = no_data_mark ++ fst (symbol_name sym) ++ " — нет текущих данных".
Proof.
  intros Hf. split.
  - assert (H : ∀ w1, db_faults w1 = [] → same_process w w1 →
                fst (rate_lines subs w1) =
                  (λ sym, rate_line sym (fst (get_exchange_rate sym w))
                            (fst (get_yesterday_rate sym w))) <$> subs).
    { induction subs as [| sym subs IH]; intros w1 Hf1 Hp1; [done |].
      cbn [rate_lines]. rewrite !bind_fst, ?bind_run. cbn [ret fst].
      destruct (get_exchange_rate_ok sym w1 Hf1) as [Hf2 Hp2].
      set (w2 := run (get_exchange_rate sym) w1) in *.
      destruct (get_yesterday_rate_ok sym w2 Hf2) as [Hy Hw2]. rewrite Hw2, Hy.
      rewrite (get_exchange_rate_reads sym w w1 Hp1), fmap_cons.
      rewrite (proj1 (get_yesterday_rate_ok sym w Hf)).
      assert (Hp : same_process w w2) by eauto using same_process_trans.
      rewrite (IH w2 Hf2 Hp). f_equal. f_equal.
      destruct Hp as (_ & _ & _ & _ & _ & _ & -> & _). done. }
    apply H; [done | apply same_process_refl].
  - intros sym ->. unfold rate_line. by destruct (symbol_name sym).
Qed.

Lemma report_lines_independent_witness :
  fst (rate_lines ["BTC"; "USD"] empty_world) =
    (λ sym, rate_line sym (fst (get_exchange_rate sym empty_world))
              (fst (get_yesterday_rate sym empty_world))) <$> ["BTC"; "USD"].
Proof.
  exact (proj1 (report_lines_independent empty_world ["BTC"; "USD"] eq_refl)).
Defined.

End reports.

Section top20.

Lemma get_top20_symbols_frame (w : world) :
  same_process w (run get_top20_symbols w) ∧
  same_tables w (run get_top20_symbols w) ∧
  (db_faults w = [] → db_faults (run get_top20_symbols w) = []) ∧
  fst (get_top20_symbols w) =
    match listings_latest w with
    | Listing symbols => symbols
    | _ => []
    end.
Proof.
  destruct w. unfold same_process, same_tables, get_top20_symbols. repeat exec.
  repeat (case_match; repeat exec); simplify_eq; repeat split; try done;
    intros ?; by simplify_eq.
Qed.

(** X18: when the request for the listing raises, or answers with an
    error status or with no asset, [subscribe_top20_cmd] subscribes the
    chat to nothing: it answers that the listing could not be fetched and
    the tables and the timers are as before. *)
Theorem subscribe_top20_unavailable (w : world) (chat : Z) :
  (∀ sym rest, listings_latest w ≠ Listing (sym :: rest)) →
  let w' := run (subscribe_top20_cmd chat) w in
  outbox w' =
    (outbox w ++ [(chat, "Не удалось получить топ-20. Попробуйте позже.")])%list ∧
  same_state w w'.
Proof.
  intros Hbad w'. subst w'. unfold subscribe_top20_cmd. rewrite bind_run.
  destruct (get_top20_symbols_frame w) as (Hp & Ht & _ & Hr).
  assert (Hnone : fst (get_top20_symbols w) = []).
  { rewrite Hr. destruct (listings_latest w) as [e | | [| sym rest]] eqn:E; try done.
    by destruct (Hbad sym rest). }
  rewrite Hnone. unfold reply_text. rewrite run_send_message.
  unfold same_state, same_process, same_tables in *. cbn. destruct_and!.
  repeat split; congruence.
Qed.

Lemma subscribe_top20_unavailable_witness :
  same_state empty_world (run (subscribe_top20_cmd 7) empty_world).
Proof.
  refine (proj2 (subscribe_top20_unavailable empty_world 7 _)).
  intros sym rest. discriminate.
Defined.

Lemma subscribe_each_run (chat : Z) (symbols : list string) (w : world) :
  run (subscribe_each chat symbols) w = add_all chat symbols w.
Proof.
  revert w. induction symbols as [| sym symbols IH]; intros w; [done |].
  change (add_all chat (sym :: symbols) w)
    with (add_all chat symbols (run (add_subscription chat sym) w)).
  cbn [subscribe_each]. rewrite !bind_run, run_ret. apply IH.
Qed.

Lemma add_all_frame (chat : Z) (symbols : list string) (w : world) :
  same_process w (add_all chat symbols w) ∧
  schedules (add_all chat symbols w) = schedules w ∧
  intervals (add_all chat symbols w) = intervals w.
Proof.
  revert w. induction symbols as [| sym symbols IH]; intros w.
  - cbn. split; [apply same_process_refl | done].
  - change (add_all chat (sym :: symbols) w)
      with (add_all chat symbols (run (add_subscription chat sym) w)).
    assert (H1 : same_process w (run (add_subscription chat sym) w) ∧
                 schedules (run (add_subscription chat sym) w) = schedules w ∧
                 intervals (run (add_subscription chat sym) w) = intervals w).
    { destruct w. unfold same_process, add_subscription, insert_subscription.
      exec_all; by repeat split. }
    destruct H1 as (Hp & Hs & Hi).
    destruct (IH (run (add_subscription chat sym) w)) as (Hp' & Hs' & Hi').
    split; [eauto using same_process_trans |]. split; congruence.
Qed.

(** X19: with a store that does not fail, [subscribe_top20_cmd] for a
    listing with assets subscribes the chat to the upper-case symbol of
    every listed asset and keeps the subscriptions that were there; the
    chat gets one message, and the schedules, the intervals and the timers
    are as before. *)
Theorem subscribe_top20_adds (w : world) (chat : Z) (symbols : list string) :
  db_faults w = [] → listings_latest w = Listing symbols → symbols ≠ [] →
  let w' := run (subscribe_top20_cmd chat) w in
  subscriptions w' =
    list_to_set ((λ s, (chat, upper s)) <$> symbols) ∪ subscriptions w ∧
  (∃ text, outbox w' = (outbox w ++ [(chat, text)])%list) ∧
  schedules w' = schedules w ∧ intervals w' = intervals w ∧
  job_queue w' = job_queue w.
Proof.
  intros Hf Hl Hne w'. subst w'. unfold subscribe_top20_cmd. rewrite bind_run.
  destruct (get_top20_symbols_frame w) as (Hp & (Hsub & Hs & Hi) & Hf1 & Hr).
  rewrite Hl in Hr. rewrite Hr. specialize (Hf1 Hf).
  set (w1 := run get_top20_symbols w) in *.
  destruct symbols as [| sym rest]; [done |].
  rewrite bind_run, subscribe_each_run.
  destruct (add_all_ok chat (sym :: rest) w1 Hf1) as [Hsub2 _].
  destruct (add_all_frame chat (sym :: rest) w1) as (Hp2 & Hs2 & Hi2).
  set (w2 := add_all chat (sym :: rest) w1) in *.
  destruct (fst (subscribe_each chat (sym :: rest) w1)) as [added already].
  unfold reply_text. rewrite run_send_message.
  cbn [subscriptions outbox schedules intervals job_queue].
  rewrite Hsub2, Hsub, Hs2, Hs, Hi2, Hi.
  unfold same_process in *. destruct_and!.
  repeat split; try congruence. eexists. f_equal. congruence.
Qed.

Lemma subscribe_top20_adds_witness :
  let w := {| subscriptions := {[ (7, "BTC") ]}; schedules := ∅; intervals := ∅;
              error_logs := []; currency_data := λ _, None;
              notify_time_nullable := true; time_input := hh_mm_input;
              db_faults := []; log_records := [];
              price_conversion := λ _, ErrorStatus;
              quotes_latest := λ _, ErrorStatus; clock := "2025-01-01 09:00";
              job_queue := Some []; next_job_id := 0%nat; outbox := [];
              users := ∅; listings_latest := Listing ["BTC"; "eth"];
              error_text := sample_error_text |} in
  subscriptions (run (subscribe_top20_cmd 7) w) =
    list_to_set ((λ s, (7, upper s)) <$> ["BTC"; "eth"]) ∪ subscriptions w.
Proof.
  intros w.
  refine (proj1 (subscribe_top20_adds w 7 ["BTC"; "eth"] eq_refl eq_refl _)).
  discriminate.
Defined.

End top20.

Section job_names.

(** X20: the name of a job identifies its chat and its kind: the integer
    read from the end of [daily_<chat>] and of [interval_<chat>], as
    [send_rates] reads it, is the chat id, also a negative one; different
    chats have different names, and no daily name is an interval name. *)
Theorem job_names_identify_chat (chat other : Z) :
  job_name_chat_id (daily_name chat) = Some chat ∧
  job_name_chat_id (interval_name chat) = Some chat ∧
  (daily_name chat = daily_name other → chat = other) ∧
  (interval_name chat = interval_name other → chat = other) ∧
  daily_name chat ≠ interval_name other.
Proof.
  split; [apply job_name_chat_id_daily |].
  split; [apply job_name_chat_id_interval |].
  split; [| split].
  - intros H. apply (f_equal job_name_chat_id) in H.
    rewrite !job_name_chat_id_daily in H. congruence.
  - intros H. apply (f_equal job_name_chat_id) in H.
    rewrite !job_name_chat_id_interval in H. congruence.
  - discriminate.
Qed.

End job_names.

(** ** What the commands answer when the store fails *)

Section replies.

Lemma add_subscription_failed (chat : Z) (sym : string) (w : world) :
  ¬ statement_ok w →
  fst (add_subscription chat sym w) = false ∧
  same_tables w (run (add_subscription chat sym) w) ∧
  same_process w (run (add_subscription chat sym) w).
Proof.
  intros Hbad. destruct w as [? ? ? ? ? ? ? faults ? ? ? ? ? ? ? ? ? ?].
  unfold statement_ok, same_tables, same_process, add_subscription,
    insert_subscription in *.
  repeat exec. destruct faults as [| [e |] rest]; repeat exec; try done.
  destruct rest as [| [e' |] rest']; repeat exec; by repeat split.
Qed.

Lemma add_subscription_run (chat : Z) (sym : string) (w : world) :
  same_process w (run (add_subscription chat sym) w) ∧
  ((chat, upper sym) ∈ subscriptions w →
   fst (add_subscription chat sym w) = false ∧
   subscriptions (run (add_subscription chat sym) w) = subscriptions w) ∧
  (statement_ok w → (chat, upper sym) ∉ subscriptions w →
   fst (add_subscription chat sym w) = true ∧
   subscriptions (run (add_subscription chat sym) w)
   = {[(chat, upper sym)]} ∪ subscriptions w).
Proof.
  split; [| split].
  - destruct w. unfold same_process, add_subscription, insert_subscription.
    exec_all; by repeat split.
  - intros Hin. pose proof (add_subscription_present chat sym w Hin) as H.
    unfold run. by destruct (add_subscription chat sym w).
  - intros Hok Hnew. pose proof (add_subscription_ok chat sym w Hok) as H.
    unfold run. destruct (add_subscription chat sym w) as [r w1].
    destruct H as (-> & Hs & _). by rewrite bool_decide_eq_true_2.
Qed.

(** X21: [subscribe_cmd] puts its first argument in upper case, and
    [add_subscription] does so once more.  When the statement does not
    fail and the chat does not have the symbol, the row is added and the
    answer confirms the symbol; when the chat has the symbol, and also
    when the statement fails, no row is added and the answer is the one
    that suggests the chat is subscribed already. *)
Theorem subscribe_cmd_reply (w : world) (chat : Z) (a : string)
    (rest : list string) :
  let sym := upper a in
  let row := (chat, upper sym) in
  let w' := run (subscribe_cmd chat (a :: rest)) w in
  let confirmed := "Теперь подписан на " ++ sym ++ " ✅" in
  let refused :=
    "Не удалось подписаться (возможно, вы уже подписаны на " ++ sym ++ ")" in
  (statement_ok w → row ∉ subscriptions w →
   subscriptions w' = {[row]} ∪ subscriptions w ∧
   outbox w' = (outbox w ++ [(chat, confirmed)])%list) ∧
  (row ∈ subscriptions w ∨ ¬ statement_ok w →
   subscriptions w' = subscriptions w ∧
   outbox w' = (outbox w ++ [(chat, refused)])%list).
Proof.
  intros sym row w' confirmed refused. subst row w' confirmed refused.
  unfold subscribe_cmd. cbv zeta. fold sym. rewrite bind_run.
  destruct (add_subscription_run chat sym w) as ((_ & _ & Ho & _) & Hold & Hnew).
  unfold reply_text. split.
  - intros Hok Hrow. destruct (Hnew Hok Hrow) as [-> Hs].
    rewrite run_send_message. cbn [subscriptions outbox]. by rewrite Hs, Ho.
  - intros [Hin | Hbad].
    + destruct (Hold Hin) as [-> Hs].
      rewrite run_send_message. cbn [subscriptions outbox]. by rewrite Hs, Ho.
    + destruct (add_subscription_failed chat sym w Hbad)
        as (-> & (Hs & _) & _).
      rewrite run_send_message. cbn [subscriptions outbox]. by rewrite Hs, Ho.
Qed.

Lemma subscribe_cmd_reply_witness :
  let w := run (subscribe_cmd 7 ["ётн"]) empty_world in
  subscriptions w = {[(7, upper (upper "ётн"))]} ∪ subscriptions empty_world ∧
  subscriptions (run (subscribe_cmd 7 ["ЁТН"]) w) = subscriptions w.
Proof.
  intros w. split.
  - refine (proj1 (proj1 (subscribe_cmd_reply empty_world 7 "ётн" []) eq_refl _)).
    apply not_elem_of_empty.
  - refine (proj1 (proj2 (subscribe_cmd_reply w 7 "ЁТН" []) _)).
    left. vm_compute. set_solver.
Defined.

Example subscribe_cmd_cyrillic :
  outbox (run (subscribe_cmd 7 ["ётн"]) empty_world)
  = [(7, "Теперь подписан на ЁТН ✅")].
Proof. vm_compute. reflexivity. Qed.

Lemma upsert_failed {A} (stmt : world → outcome (A * world)) (w : world) :
  ¬ statement_ok w →
  ∃ e, fst (sql stmt w) = inl e ∧ same_tables w (run (sql stmt) w) ∧
       same_process w (run (sql stmt) w).
Proof.
  intros Hbad. destruct w as [? ? ? ? ? ? ? faults ? ? ? ? ? ? ? ? ? ?].
  unfold statement_ok, same_tables, same_process in *. repeat exec.
  destruct faults as [| [e |] rest]; repeat exec; try done.
  exists e. by repeat split.
Qed.

(** X22: [settime_cmd] and [setinterval_cmd] do not learn that their
    write to the store failed.  When the statement fails, [settime_cmd]
    with a time in range still answers that the time is set, and
    [setinterval_cmd] with a positive number of minutes that [timedelta]
    accepts (below 1440000000000) still answers that the notifications are
    on and arms the interval job of the chat, while the schedules and the
    intervals are as before. *)
Theorem confirmation_without_row (w : world) (chat : Z) :
  ¬ statement_ok w →
  (∀ t hh mm, parse_hh_mm t = Some (hh, mm) → valid_hh_mm hh mm = true →
     let w' := run (settime_cmd chat [t]) w in
     same_tables w w' ∧
     let text := "Время ежедневных уведомлений установлено на " ++ t ++
                 ". Чтобы включить, используйте /autoupdate on" in
     outbox w' = (outbox w ++ [(chat, text)])%list) ∧
  (∀ a minutes jobs, py_int a = Some minutes → 0 < minutes →
     minutes < 1440000000000 → job_queue w = Some jobs →
     let w' := run (setinterval_cmd chat [a]) w in
     same_tables w w' ∧
     fst (get_jobs_by_name (interval_name chat) w')
     = [interval_job (next_job_id w) chat minutes] ∧
     let text := "Периодические уведомления включены: каждые " ++
                 str_of_Z minutes ++ " минут." in
     outbox w' = (outbox w ++ [(chat, text)])%list).
Proof.
  intros Hbad.
  assert (Hrep : ∀ fn e w0, same_tables w w0 → same_process w w0 →
            same_tables w (run (report_error fn (Some chat) e) w0) ∧
            same_process w (run (report_error fn (Some chat) e) w0)).
  { intros fn e w0 Ht Hp. destruct (report_error_frame fn (Some chat) e w0).
    eauto using same_tables_trans, same_process_trans. }
  split.
  - intros t hh mm Hparse Hvalid. cbn zeta. unfold settime_cmd.
    rewrite Hparse, Hvalid. cbn [negb].
    rewrite run_try_except, !bind_fst, !bind_run. cbn [ret fst]. rewrite run_ret.
    assert (H : same_tables w (run (upsert_schedule chat (Some t) false) w) ∧
                same_process w (run (upsert_schedule chat (Some t) false) w)).
    { unfold upsert_schedule. rewrite bind_run.
      destruct (upsert_failed (insert_schedule chat (Some t) false) w Hbad)
        as (e & -> & Ht & Hp). by apply Hrep. }
    destruct H as [Ht Hp]. unfold reply_text. rewrite run_send_message.
    unfold same_tables, same_process in *. cbn. destruct_and!.
    repeat split; congruence.
  - intros a minutes jobs Hint Hpos Hlt Hq. cbn zeta.
    destruct (setinterval_arms w chat a minutes jobs Hint Hpos Hlt Hq) as [Hq' _].
    split; [| split].
    + unfold setinterval_cmd. rewrite Hint.
      replace (minutes <=? 0) with false by (symmetry; apply Z.leb_gt; lia).
      rewrite (timedelta_minutes_ok minutes) by done.
      rewrite run_try_except, !bind_fst, !bind_run.
      assert (H : same_tables w (run (upsert_interval chat (Some minutes) true) w) ∧
                  same_process w (run (upsert_interval chat (Some minutes) true) w)).
      { unfold upsert_interval. rewrite bind_run.
        destruct (upsert_failed (write_interval chat (Some minutes) true) w Hbad)
          as (e & -> & Ht & Hp). by apply Hrep. }
      destruct H as [Ht Hp].
      set (w1 := run (upsert_interval chat (Some minutes) true) w) in *.
      unfold reply_text. rewrite run_send_message.
      match goal with |- context [if_job_queue _ _ ?w0] => set (w2 := w0) end.
      assert (Hq2 : job_queue w2 = Some jobs)
        by (subst w2; cbn; destruct Hp as (-> & _); done).
      rewrite if_job_queue_some, !run_if_job_queue_some by (rewrite Hq2; eauto).
      rewrite !bind_fst, !bind_run. cbn [ret fst]. rewrite run_ret.
      destruct (remove_jobs_by_name_run (interval_name chat) jobs w2 Hq2)
        as (Hq3 & _ & _ & Ht3 & _).
      set (w3 := run (remove_jobs_by_name (interval_name chat)) w2) in *.
      destruct (add_job_run (interval_name chat) chat (Repeating minutes 0) _ w3 Hq3)
        as (_ & Ht4 & _).
      unfold run_repeating.
      assert (Ht2 : same_tables w w2) by (subst w2; exact Ht).
      eauto using same_tables_trans.
    + rewrite (get_jobs_by_name_some _ _ _ Hq').
      rewrite filter_app, (filter_none _ (filter _ jobs)), filter_cons_True;
        [done | done |].
      eapply Forall_impl; [apply removed_by_name |]. intros j Hj. cbn in Hj. done.
    + unfold setinterval_cmd. rewrite Hint.
      replace (minutes <=? 0) with false by (symmetry; apply Z.leb_gt; lia).
      rewrite (timedelta_minutes_ok minutes) by done.
      rewrite run_try_except, !bind_fst, !bind_run.
      pose proof (upsert_interval_frame chat (Some minutes) true w) as Hp.
      set (w1 := run (upsert_interval chat (Some minutes) true) w) in *.
      unfold reply_text. rewrite run_send_message.
      match goal with |- context [if_job_queue _ _ ?w0] => set (w2 := w0) end.
      assert (Hq2 : job_queue w2 = Some jobs)
        by (subst w2; cbn; destruct Hp as (-> & _); done).
      rewrite if_job_queue_some, !run_if_job_queue_some by (rewrite Hq2; eauto).
      rewrite !bind_fst, !bind_run. cbn [ret fst]. rewrite run_ret.
      destruct (remove_jobs_by_name_run (interval_name chat) jobs w2 Hq2)
        as (Hq3 & _ & Ho3 & _).
      set (w3 := run (remove_jobs_by_name (interval_name chat)) w2) in *.
      unfold run_repeating, run at 1, add_job. rewrite Hq3. cbn [snd outbox set_jobs].
      rewrite Ho3. subst w2. cbn [outbox]. destruct Hp as (_ & _ & -> & _). done.
Qed.

End replies.

(** ** The interval timers of the reachable worlds *)

Section interval_timers.

Lemma interval_name_inj (chat other : Z) :
  interval_name chat = interval_name other → chat = other.
Proof.
  intros H. apply (f_equal job_name_chat_id) in H.
  rewrite !job_name_chat_id_interval in H. congruence.
Qed.

Lemma jobs_by_name_queue (name : string) (w w' : world) :
  job_queue w' = job_queue w →
  fst (get_jobs_by_name name w') = fst (get_jobs_by_name name w).
Proof. unfold get_jobs_by_name. cbn. by intros ->. Qed.

Lemma jobs_by_name_neutral {A} (name : string) (c : M A) (w : world) :
  neutral c →
  fst (get_jobs_by_name name (run c w)) = fst (get_jobs_by_name name w).
Proof. intros Hc. apply jobs_by_name_queue, Hc. Qed.

Lemma add_job_by_name (name n : string) (chat : Z) (trig : trigger) (w : world) :
  ∃ armed,
    fst (get_jobs_by_name n (run (add_job name chat trig) w)) =
      (fst (get_jobs_by_name n w) ++ armed)%list ∧
    (length armed ≤ 1)%nat ∧ (name ≠ n → armed = []).
Proof.
  unfold get_jobs_by_name, run, add_job.
  destruct (job_queue w) as [jobs |] eqn:Hq; cbn; rewrite ?Hq; cbn.
  - rewrite filter_app, filter_cons. cbn.
    destruct (decide (name = n)); eexists; (split; [reflexivity |]); cbn;
      split; try lia; done.
  - exists []. split; [done |]. split; [cbn; lia | done].
Qed.

Lemma filter_filter_length {A} (P Q : A → Prop) `{!∀ x, Decision (P x)}
    `{!∀ x, Decision (Q x)} (l : list A) :
  (length (filter P (filter Q l)) ≤ length (filter P l))%nat.
Proof.
  induction l as [| x l IH]; [done |]. rewrite !filter_cons.
  destruct (decide (Q x)), (decide (P x)); rewrite ?filter_cons;
    try destruct (decide (P x)); cbn; try done; lia.
Qed.

Lemma schedule_removal_by_name (n : string) (j : job) (w : world) :
  (length (fst (get_jobs_by_name n (run (schedule_removal j) w))) ≤
   length (fst (get_jobs_by_name n w)))%nat.
Proof.
  unfold get_jobs_by_name, run, schedule_removal.
  destruct (job_queue w) as [jobs |] eqn:Hq; cbn; rewrite ?Hq; cbn; [| done].
  apply filter_filter_length.
Qed.

Lemma one_interval_job_queue (w w' : world) :
  job_queue w' = job_queue w → one_interval_job w → one_interval_job w'.
Proof.
  intros Hq Hw chat. by rewrite (jobs_by_name_queue _ w w').
Qed.

Lemma timers_neutral {A} (c : M A) : neutral c → preserves one_interval_job c.
Proof. intros Hc w. apply one_interval_job_queue, Hc. Qed.

Lemma timers_upsert_schedule (chat : Z) (t : option string) (en : bool) :
  preserves one_interval_job (upsert_schedule chat t en).
Proof.
  intros w. apply one_interval_job_queue.
  destruct (upsert_schedule_frame chat t en w) as [(Hq & _) _]. exact Hq.
Qed.

Lemma timers_schedule_removal (j : job) :
  preserves one_interval_job (schedule_removal j).
Proof.
  intros w Hw chat.
  pose proof (schedule_removal_by_name (interval_name chat) j w).
  specialize (Hw chat). lia.
Qed.

Lemma timers_add_daily (chat owner : Z) (trig : trigger) :
  preserves one_interval_job (add_job (daily_name chat) owner trig).
Proof.
  intros w Hw c.
  destruct (add_job_by_name (daily_name chat) (interval_name c) owner trig w)
    as (armed & -> & _ & Hnone).
  rewrite Hnone, app_nil_r by discriminate. apply Hw.
Qed.

Lemma removal_by_name (chat c : Z) (w : world) :
  let w1 := run (remove_jobs_by_name (interval_name chat)) w in
  (length (fst (get_jobs_by_name (interval_name c) w1)) ≤
   length (fst (get_jobs_by_name (interval_name c) w)))%nat ∧
  (c = chat → fst (get_jobs_by_name (interval_name c) w1) = []).
Proof.
  cbv zeta. destruct (job_queue w) as [jobs |] eqn:Hq.
  - destruct (remove_jobs_by_name_run (interval_name chat) jobs w Hq)
      as (Hq1 & _).
    rewrite (get_jobs_by_name_some _ _ _ Hq1), (get_jobs_by_name_some _ _ _ Hq).
    split; [apply filter_filter_length |]. intros ->.
    apply filter_none. eapply Forall_impl; [apply removed_by_name |].
    intros j Hj. cbn in Hj. done.
  - assert (Hrun : run (remove_jobs_by_name (interval_name chat)) w = w).
    { unfold remove_jobs_by_name. rewrite bind_run.
      unfold get_jobs_by_name at 1. rewrite Hq. reflexivity. }
    rewrite Hrun. split; [done |]. intros _.
    unfold get_jobs_by_name. by rewrite Hq.
Qed.

(** Removing the interval jobs of a chat and arming one, or none when
    [timedelta] refuses the minutes, keeps one job a chat. *)
Lemma timers_rearm (chat minutes : Z) :
  preserves one_interval_job
    (remove_jobs_by_name (interval_name chat) ;;
     match timedelta_minutes minutes with
     | inl e => ret (inl e)
     | inr interval =>
         run_repeating interval chat (interval_name chat) ;;
         ret (inr tt)
     end).
Proof.
  intros w Hw c. rewrite bind_run.
  destruct (removal_by_name chat c w) as [Hle Hnil].
  set (w1 := run (remove_jobs_by_name (interval_name chat)) w) in *.
  specialize (Hw c).
  destruct (timedelta_minutes minutes) as [e | interval].
  - rewrite run_ret. lia.
  - rewrite bind_run, run_ret.
    destruct (add_job_by_name (interval_name chat) (interval_name c) chat
                (Repeating interval 0) w1) as (armed & Harm & Hlen & Hnone).
    unfold run_repeating. rewrite Harm, length_app.
    destruct (decide (c = chat)) as [-> | Hne].
    + rewrite (Hnil eq_refl). exact Hlen.
    + rewrite Hnone; [cbn [length]; lia |].
      intros H. by apply interval_name_inj in H.
Qed.

End interval_timers.

Create HintDb bot_timers.

#[local] Hint Resolve preserves_ret timers_upsert_schedule timers_schedule_removal
  timers_add_daily : bot_timers.

Ltac timer_steps :=
  repeat first
    [ progress cbv zeta
    | solve [apply timers_neutral; neutral_steps]
    | solve [eauto with bot_timers]
    | match goal with
      | |- preserves _ (bind (remove_jobs_by_name (interval_name _)) _) =>
          apply timers_rearm
      | |- preserves _ (for_each _ _) => apply preserves_for_each; intros ?
      | |- preserves _ (if_job_queue _ _) => apply preserves_if_job_queue
      | |- preserves _ (bind _ _) => apply preserves_bind; [| intros ?]
      | |- preserves _ (match ?x with _ => _ end) => destruct x
      | |- preserves _ (if ?b then _ else _) => destruct b
      | |- preserves _ (let (_, _) := ?x in _) => destruct x
      end ].

Section interval_timers_reachable.

Lemma restore_daily_by_name (rows : list (Z * option time_of_day)) (chat : Z)
    (w : world) :
  fst (get_jobs_by_name (interval_name chat) (run (restore_daily rows) w)) =
  fst (get_jobs_by_name (interval_name chat) w).
Proof.
  revert w. induction rows as [| [c ot] rows IH]; intros w; [done |].
  cbn [restore_daily]. rewrite bind_run.
  set (w1 := run (if_job_queue _ _) w).
  assert (H1 : fst (get_jobs_by_name (interval_name chat) w1) =
               fst (get_jobs_by_name (interval_name chat) w)).
  { subst w1. destruct (job_queue w) eqn:Hq.
    - rewrite run_if_job_queue_some by (rewrite Hq; eauto).
      destruct ot as [t |]; [| done]. unfold run_daily.
      rewrite bind_run, run_ret.
      destruct (add_job_by_name (daily_name c) (interval_name chat) c (Daily t) w)
        as (armed & -> & _ & Hnone).
      by rewrite Hnone, app_nil_r.
    - unfold run, if_job_queue. by rewrite Hq. }
  destruct (fst (if_job_queue _ _ w)); [by rewrite run_ret | by rewrite IH].
Qed.

Lemma restore_intervals_by_name (rows : list (Z * Z)) (chat : Z) (w : world) :
  ∃ armed,
    fst (get_jobs_by_name (interval_name chat) (run (restore_intervals rows) w)) =
      (fst (get_jobs_by_name (interval_name chat) w) ++ armed)%list ∧
    (length armed ≤ length (filter (λ c, c = chat) rows.*1))%nat.
Proof.
  revert w. induction rows as [| [c m] rows IH]; intros w.
  - exists []. by rewrite app_nil_r.
  - cbn [restore_intervals]. rewrite bind_run.
    set (w1 := run (if_job_queue _ _) w).
    assert (H1 : ∃ armed,
      fst (get_jobs_by_name (interval_name chat) w1) =
        (fst (get_jobs_by_name (interval_name chat) w) ++ armed)%list ∧
      (length armed ≤ 1)%nat ∧ (c ≠ chat → armed = [])).
    { subst w1. destruct (job_queue w) eqn:Hq.
      - rewrite run_if_job_queue_some by (rewrite Hq; eauto).
        destruct (add_job_by_name (interval_name c) (interval_name chat) c
                    (Repeating m 0) w) as (armed & Harm & Hlen & Hnone).
        exists armed. split; [exact Harm |]. split; [done |].
        intros Hne. apply Hnone. intros H. by apply interval_name_inj in H.
      - exists []. unfold run, if_job_queue. rewrite Hq, app_nil_r.
        split; [done |]. split; [cbn; lia | done]. }
    destruct H1 as (armed1 & Harm1 & Hlen1 & Hnone1).
    destruct (IH w1) as (armed2 & Harm2 & Hlen2).
    exists (armed1 ++ armed2)%list. rewrite Harm2, Harm1, <- app_assoc.
    split; [done |]. rewrite length_app, fmap_cons, filter_cons. cbn [fst].
    destruct (decide (c = chat)) as [-> | Hne]; cbn.
    + lia.
    + rewrite (Hnone1 Hne). cbn. lia.
Qed.

Lemma select_enabled_intervals_keys (rows : list (Z * Z)) (w : world) :
  fst (sql select_enabled_intervals w) = inr rows → NoDup rows.*1.
Proof.
  unfold sql, bind, select_enabled_intervals.
  destruct (next_fault w) as [[e |] w1]; cbn; [done |]. intros [= <-].
  rewrite <- list_fmap_compose. apply (NoDup_fst_map_to_list (filter _ _)).
Qed.

Lemma filter_eq_NoDup (chat : Z) (keys : list Z) :
  NoDup keys → (length (filter (λ c, c = chat) keys) ≤ 1)%nat.
Proof.
  induction 1 as [| k keys Hk _ IH]; [cbn; lia |]. rewrite filter_cons.
  destruct (decide (k = chat)) as [-> | Hne]; [| done].
  rewrite (filter_none (λ c, c = chat) keys); [cbn; lia |].
  apply Forall_forall. intros c Hc ->. done.
Qed.

(** [on_startup] on a queue without interval jobs arms at most one a
    chat, whatever the store does. *)
Lemma on_startup_interval_jobs (chat : Z) (w : world) :
  fst (get_jobs_by_name (interval_name chat) w) = [] →
  (length (fst (get_jobs_by_name (interval_name chat) (run on_startup w))) ≤ 1)%nat.
Proof.
  intros Hnone. unfold on_startup. rewrite run_try_except.
  match goal with
  | |- context [run ?b w] =>
      assert (Hbody : (length (fst (get_jobs_by_name (interval_name chat)
                                      (run b w))) ≤ 1)%nat)
  end.
  { rewrite bind_run.
    assert (Hsel : neutral (sql select_enabled_schedules)) by neutral_steps.
    assert (Hsel_i : neutral (sql select_enabled_intervals)) by neutral_steps.
    pose proof (jobs_by_name_neutral (interval_name chat) _ w Hsel) as H1.
    set (w1 := run (sql select_enabled_schedules) w) in *.
    destruct (fst (sql select_enabled_schedules w)) as [e | rows].
    { rewrite run_ret, H1, Hnone. cbn. lia. }
    rewrite bind_run.
    pose proof (restore_daily_by_name rows chat w1) as H2.
    set (w2 := run (restore_daily rows) w1) in *.
    destruct (fst (restore_daily rows w1)) as [e | []].
    { rewrite run_ret, H2, H1, Hnone. cbn. lia. }
    rewrite bind_run.
    pose proof (jobs_by_name_neutral (interval_name chat) _ w2 Hsel_i) as H3.
    pose proof (select_enabled_intervals_keys) as Hkeys.
    specialize (Hkeys) with (w := w2).
    set (w3 := run (sql select_enabled_intervals) w2) in *.
    destruct (fst (sql select_enabled_intervals w2)) as [e | rows_i].
    { rewrite run_ret, H3, H2, H1, Hnone. cbn. lia. }
    rewrite !bind_run, run_ret.
    destruct (restore_intervals_by_name rows_i chat w3) as (armed & Harm & Hlen).
    rewrite (jobs_by_name_neutral _ (logger_info _)) by apply neutral_logger_info.
    rewrite Harm, H3, H2, H1, Hnone. cbn.
    pose proof (filter_eq_NoDup chat _ (Hkeys rows_i eq_refl)). lia. }
  match goal with
  | |- context [match ?r with inl _ => _ | inr _ => _ end] => destruct r
  end; [| exact Hbody].
  rewrite (jobs_by_name_neutral _ (report_error _ _ _))
    by apply neutral_report_error.
  exact Hbody.
Qed.

Lemma timers_main (q : bool) (w : world) : one_interval_job (run (main q) w).
Proof.
  intros chat. unfold main, run. apply on_startup_interval_jobs.
  unfold get_jobs_by_name. cbn. by destruct q.
Qed.

Lemma timers_handle (ev : event) : preserves one_interval_job (handle ev).
Proof.
  pose proof neutral_rate_lines. pose proof neutral_subscribe_each.
  destruct ev; cbn [handle].
  - unfold start. timer_steps.
  - unfold subscribe_cmd. timer_steps.
  - unfold unsubscribe_cmd. timer_steps.
  - unfold unsubscribe_all_cmd. timer_steps.
  - unfold subscribe_top20_cmd. timer_steps.
  - unfold list_cmd. timer_steps.
  - unfold rates_cmd. timer_steps.
  - unfold settime_cmd, try_except. timer_steps.
  - unfold autoupdate_cmd, try_except, run_daily, remove_jobs_by_name.
    timer_steps.
  - unfold setinterval_cmd, try_except. timer_steps.
  - unfold clearinterval_cmd, remove_jobs_by_name. timer_steps.
  - unfold send_rates, try_except. timer_steps.
  - intros w _. apply timers_main.
Qed.

(** X23: in every world the bot can be in, a chat has at most one job
    under its interval name in the queue: [setinterval_cmd] removes the
    jobs of the name before it arms one, [on_startup] arms one for each
    interval row, and nothing else arms an interval job.  (A chat can
    have several daily jobs: [autoupdate_cmd] arms without removing.) *)
Theorem reachable_one_interval_job (w : world) (chat : Z) :
  reachable w →
  (length (fst (get_jobs_by_name (interval_name chat) w)) ≤ 1)%nat.
Proof.
  intros Hw. revert chat. change (one_interval_job w).
  induction Hw as [w q _ | w ev _ IH _].
  - apply timers_main.
  - by apply timers_handle.
Qed.

Lemma reachable_one_interval_job_witness :
  let w := run (handle (SetInterval 7 ["10"]))
             (run (handle (Restart true))
                (run (handle (SetInterval 7 ["30"]))
                   (run (main true) empty_world))) in
  (length (fst (get_jobs_by_name (interval_name 7) w)) ≤ 1)%nat.
Proof.
  intros w. apply (reachable_one_interval_job w 7).
  apply reachable_step; [| exact I].
  apply reachable_step; [| exact I].
  apply reachable_step; [| exact I].
  apply reachable_start. reflexivity.
Defined.

End interval_timers_reachable.

(** ** Fires and restarts *)

Section fires.

(** X24: in every world the bot can be in, a job of the queue carries in
    its name the id of the chat it was armed for, so a fire of
    [send_rates] never fails to read the chat id; it sends nothing, or one
    message, and that message goes to the chat of the job. *)
Theorem fire_reaches_own_chat (w : world) (j : job) :
  reachable w → possible w (Fire j) →
  let w' := run (send_rates j) w in
  job_name_chat_id (job_name j) = Some (job_chat_id j) ∧
  (outbox w' = outbox w ∨
   ∃ text, outbox w' = (outbox w ++ [(job_chat_id j, text)])%list).
Proof.
  intros Hw Hj w'. subst w'.
  destruct (reachable_ok w Hw) as [_ Hq]. cbn in Hj.
  assert (Hname : job_name_chat_id (job_name j) = Some (job_chat_id j)).
  { destruct (job_queue w) as [jobs |] eqn:E; [| by apply not_elem_of_nil in Hj].
    destruct (Hq jobs E) as [Hall _]. rewrite Forall_forall in Hall.
    destruct (Hall j Hj) as [_ [[-> _] | [-> _]]];
      [apply job_name_chat_id_daily | apply job_name_chat_id_interval]. }
  split; [exact Hname |].
  destruct (send_rates_run w j (job_chat_id j) Hname) as [Hnone Hsome].
  destruct (decide (fst (list_subscriptions (job_chat_id j) w) = [])) as [E | E].
  - left. by destruct (Hnone E).
  - right. destruct (Hsome E) as (Ho & _). eauto.
Qed.

Lemma fire_reaches_own_chat_witness :
  let w := run (handle (SetInterval 7 ["30"])) (run (main true) empty_world) in
  job_name_chat_id (job_name (interval_job 0 7 30)) = Some 7 ∧
  (outbox (run (send_rates (interval_job 0 7 30)) w) = outbox w ∨
   ∃ text, outbox (run (send_rates (interval_job 0 7 30)) w)
           = (outbox w ++ [(7, text)])%list).
Proof.
  intros w. apply (fire_reaches_own_chat w (interval_job 0 7 30)).
  - apply reachable_step; [| exact I]. apply reachable_start. reflexivity.
  - vm_compute. constructor.
Defined.

(** X25: when the first statement of [on_startup] fails, no timer is
    armed, neither a daily nor an interval one, whatever the rows of the
    store: the failure is logged and the tables are as before. *)
Theorem on_startup_store_down (w : world) (e : string)
    (rest : list (option string)) :
  db_faults w = Some e :: rest →
  let w' := run on_startup w in
  let err := "on_startup: " ++ e in
  same_state w w' ∧
  ∃ more, log_records w' = (log_records w ++ LogError err :: more)%list.
Proof.
  intros Hf w' err. subst w' err.
  destruct w as [? ? ? ? ? ? ? faults ? ? ? ? ? ? ? ? ? ?]. cbn in Hf. subst faults.
  unfold on_startup, same_state, same_tables. repeat exec.
  destruct rest as [| [e' |] rest']; repeat exec;
    (split; [done |]); eexists; rewrite <- ?app_assoc; reflexivity.
Qed.

Lemma on_startup_store_down_witness :
  let w := set_db_faults [Some "connection refused"] restart_world in
  same_state w (run on_startup w).
Proof.
  intros w.
  exact (proj1 (on_startup_store_down w "connection refused" [] eq_refl)).
Defined.

End fires.

Section store_frames.


Lemma store_send_message (w0 : world) (chat : Z) (text : string) :
  preserves (same_store w0) (send_message chat text).
Proof. by intros w. Qed.

Lemma store_logger_error (w0 : world) (msg : string) :
  preserves (same_store w0) (logger_error msg).
Proof. by intros w. Qed.

Lemma store_logger_info (w0 : world) (msg : string) :
  preserves (same_store w0) (logger_info msg).
Proof. by intros w. Qed.

Lemma store_get_jobs_by_name (w0 : world) (name : string) :
  preserves (same_store w0) (get_jobs_by_name name).
Proof. by intros w. Qed.

Lemma store_add_job (w0 : world) (name : string) (chat : Z) (trig : trigger) :
  preserves (same_store w0) (add_job name chat trig).
Proof. intros w. unfold run, add_job. by destruct (job_queue w). Qed.

Lemma store_schedule_removal (w0 : world) (j : job) :
  preserves (same_store w0) (schedule_removal j).
Proof. intros w. unfold run, schedule_removal. by destruct (job_queue w). Qed.

End store_frames.

Create HintDb bot_store.

#[local] Hint Resolve preserves_ret store_send_message store_logger_error
  store_logger_info store_get_jobs_by_name store_add_job store_schedule_removal
  : bot_store.


Section restarts.










End restarts.

Section degraded.

Lemma confirmation_without_row_witness :
  let w := set_db_faults [Some "connection refused"] empty_world in
  same_tables w (run (settime_cmd 7 ["09:00"]) w) ∧
  same_tables w (run (setinterval_cmd 7 ["30"]) w) ∧
  fst (get_jobs_by_name (interval_name 7) (run (setinterval_cmd 7 ["30"]) w))
  = [interval_job 0 7 30].
Proof.
  intros w.
  assert (Hbad : ¬ statement_ok w) by discriminate.
  destruct (confirmation_without_row w 7 Hbad) as [H1 H2].
  split; [| split].
  - exact (proj1 (H1 "09:00" 9 0 eq_refl eq_refl)).
  - exact (proj1 (H2 "30" 30 [] eq_refl eq_refl eq_refl eq_refl)).
  - exact (proj1 (proj2 (H2 "30" 30 [] eq_refl eq_refl eq_refl eq_refl))).
Defined.

Lemma if_job_queue_none {A} (present absent : M A) (w : world) :
  job_queue w = None → if_job_queue present absent w = absent w.
Proof. unfold if_job_queue. by intros ->. Qed.

Lemma run_if_job_queue_none {A} (present absent : M A) (w : world) :
  job_queue w = None → run (if_job_queue present absent) w = run absent w.
Proof. unfold run. intros H. by rewrite if_job_queue_none. Qed.

(** X27: in a process without a job queue, [setinterval_cmd] with a
    positive number of minutes and a store that does not fail still writes
    the enabled interval row and answers that the notifications are on; no
    timer is armed, and the one trace of it is the error record about the
    missing job queue. *)
Theorem setinterval_without_queue (w : world) (chat : Z) (a : string)
    (minutes : Z) :
  job_queue w = None → db_faults w = [] → py_int a = Some minutes →
  0 < minutes →
  let w' := run (setinterval_cmd chat [a]) w in
  let text := "Периодические уведомления включены: каждые " ++
              str_of_Z minutes ++ " минут." in
  intervals w' = <[chat := (minutes, true)]> (intervals w) ∧
  outbox w' = (outbox w ++ [(chat, text)])%list ∧
  log_records w' = (log_records w ++ [LogError no_job_queue])%list ∧
  job_queue w' = None.
Proof.
  intros Hq Hf Hint Hpos w' text. subst w' text.
  unfold setinterval_cmd. rewrite Hint.
  replace (minutes <=? 0) with false by (symmetry; apply Z.leb_gt; lia).
  destruct (upsert_interval_ok chat (Some minutes) true w Hf)
    as (Hi & _ & _ & _ & Hl & _ & (Hq1 & _ & Ho & _)).
  rewrite run_try_except, !bind_fst, !bind_run.
  set (w1 := run (upsert_interval chat (Some minutes) true) w) in *.
  unfold reply_text. rewrite run_send_message.
  match goal with |- context [if_job_queue ?p ?q ?w0] => set (w2 := w0) end.
  assert (Hq2 : job_queue w2 = None) by (subst w2; cbn; congruence).
  rewrite if_job_queue_none, !run_if_job_queue_none by done.
  rewrite !bind_fst, !bind_run. cbn [ret fst].
  rewrite run_ret. subst w2. cbn. by rewrite Hi, Ho, Hl, Hq1, Hq.
Qed.

Lemma setinterval_without_queue_witness :
  let w := new_process false empty_world in
  let w' := run (setinterval_cmd 7 ["30"]) w in
  intervals w' = <[7 := (30, true)]> (intervals w) ∧ job_queue w' = None.
Proof.
  intros w w'.
  destruct (setinterval_without_queue w 7 "30" 30 eq_refl eq_refl eq_refl eq_refl)
    as (H1 & _ & _ & H2).
  split; [exact H1 | exact H2].
Defined.

(** X28: with a job queue, [setinterval_cmd] with 1440000000000 minutes
    or more, which [timedelta] does not accept, removes the interval jobs
    of the chat and arms none: no job is left under the chat's interval
    name, the other jobs stay, and the chat gets the confirmation and then
    the hint about a wrong interval. *)
Theorem setinterval_overflow (w : world) (chat : Z) (a : string) (minutes : Z)
    (jobs : list job) :
  py_int a = Some minutes → 1440000000000 <= minutes →
  job_queue w = Some jobs →
  let w' := run (setinterval_cmd chat [a]) w in
  let confirmed := "Периодические уведомления включены: каждые " ++
                   str_of_Z minutes ++ " минут." in
  let hint := "Неверный интервал. Введите целое положительное число минут." in
  fst (get_jobs_by_name (interval_name chat) w') = [] ∧
  (∃ kept, job_queue w' = Some kept ∧
           Forall (λ j, j ∈ jobs ∧ job_name j ≠ interval_name chat) kept ∧
           (NoDup (job_id <$> jobs) →
            kept = filter (λ j, job_name j ≠ interval_name chat) jobs)) ∧
  next_job_id w' = next_job_id w ∧
  outbox w' = (outbox w ++ [(chat, confirmed); (chat, hint)])%list.
Proof.
  intros Hint Hge Hq w' confirmed hint.
  pose proof (setinterval_queue w chat a minutes jobs Hint ltac:(lia) Hq) as H.
  cbv zeta in H. destruct (timedelta_minutes_overflow minutes Hge) as [e He].
  rewrite He in H. destruct H as (Hq' & Hn' & Ho'). fold w' in Hq', Hn', Ho'.
  split; [| split; [| split; [exact Hn' | exact Ho']]].
  - rewrite (get_jobs_by_name_some _ _ _ Hq'). apply filter_none.
    apply removed_by_name.
  - eexists. split; [exact Hq' |]. split.
    + apply Forall_forall. intros j Hj. split.
      * by apply list_elem_of_filter in Hj as [_ ?].
      * revert j Hj. apply Forall_forall, removed_by_name.
    + apply kept_by_name.
Qed.

Lemma setinterval_overflow_witness :
  let w := set_jobs [interval_job 0 7 30] 1 empty_world in
  let w' := run (setinterval_cmd 7 ["1440000000000"]) w in
  fst (get_jobs_by_name (interval_name 7) w') = [] ∧
  next_job_id w' = 1%nat ∧
  outbox w' =
    [(7, "Периодические уведомления включены: каждые 1440000000000 минут.");
     (7, "Неверный интервал. Введите целое положительное число минут.")].
Proof.
  intros w w'.
  destruct (setinterval_overflow w 7 "1440000000000" 1440000000000
              [interval_job 0 7 30] eq_refl ltac:(lia) eq_refl)
    as (Hj & _ & Hn & Ho).
  split; [exact Hj |]. split; [exact Hn | exact Ho].
Defined.

End degraded.
